(** * Hyperliquid trade reconciliation: the reconciliation core, embedded

    A shallow embedding of [backend/services] (the paginated trade source
    [FetchTradesInRange], the per-account cache policy [FetchAndReconcile],
    [mergeTrades], [filterTradesByTime], the daily aggregation and
    [GetPnLSummary]) together with the parts of [backend/config] and
    [backend/models] they use, and of their caller [backend/api] (the
    handler [TriggerRefresh], how it reads its parameters and what it
    replies) with what [fetchBatch] makes of the result of a POST.

    Conventions of the embedding.
    - Go's [int], [int64] and [time.Duration] are [Z]; where the source
      computes on them the 64-bit wrap-around is written out ([wrap64]).
    - [float64] is an abstract carrier with the four operations the source
      uses ([Float64Ops]); the laws of exact arithmetic are a separate class
      ([ExactArith]) that a statement asks for only when it needs them.
      IEEE 754 binary64 itself, which does not keep those laws, is the
      instance [binary64_ops].
    - A Go [map] is a [gmap]; the order in which [range] visits it and the
      order [sort.Slice] leaves equal elements in are not fixed by the
      language, so both are operations of a [GoRuntime], of which the
      statements assume only what the language promises ([GoRuntimeLaws]).
    - The exchange is a tape of responses, one per POST of [fetchBatch].
    - [strings.ToLower] is written out for ASCII strings; what it does to
      other strings, and [json.Unmarshal], are operations of the environment
      ([gostrings.Unicode], [Json]). *)

From Stdlib Require Import ZArith Lia Ascii String.
From Stdlib Require OrderedTypeEx Floats.
From stdpp Require Import gmap strings list fin_maps pretty sorting.

Local Open Scope Z_scope.

(** ** 64-bit integers *)

Definition wrap64 (z : Z) : Z := (z + 2 ^ 63) `mod` 2 ^ 64 - 2 ^ 63.
Definition maxInt64 : Z := 2 ^ 63 - 1.
Definition minInt64 : Z := - 2 ^ 63.

(** ** Package [time], as far as the services use it *)

Module gotime.

(** A [time.Time] is an instant and a location.  The instant is kept as
    nanoseconds since the Unix epoch; of the location only the offset in
    force at that instant (seconds east of UTC) is kept, which is all that
    [Format] reads.  Monotonic clock readings are identified with the wall
    clock. *)
Record Time := mkTime { unixNano : Z; zoneOffset : Z }.

Definition Nanosecond : Z := 1.
Definition Millisecond : Z := 1000000.
Definition Second : Z := 1000000000.
Definition Hour : Z := 3600 * Second.

(** January 1, year 1, 00:00:00 UTC in Unix seconds. *)
Definition zeroUnixSec : Z := -62135596800.

Definition IsZero (t : Time) : bool := unixNano t =? zeroUnixSec * Second.
Definition Before (t u : Time) : bool := unixNano t <? unixNano u.
Definition After (t u : Time) : bool := unixNano u <? unixNano t.
Definition Equal (t u : Time) : bool := unixNano t =? unixNano u.
Definition UnixMilli (t : Time) : Z := unixNano t `div` Millisecond.

(** [t.Add(d)]: the location is kept. *)
Definition Add (t : Time) (d : Z) : Time :=
  {| unixNano := unixNano t + d; zoneOffset := zoneOffset t |}.

(** [t.Sub(u)] saturates at the ends of [Duration]. *)
Definition Sub (t u : Time) : Z :=
  let d := unixNano t - unixNano u in
  if maxInt64 <? d then maxInt64 else if d <? minInt64 then minInt64 else d.

(** The proleptic Gregorian date of a day number counted from 1970-01-01. *)
Definition civil_from_days (days : Z) : Z * Z * Z :=
  let z := days + 719468 in
  let era := z `div` 146097 in
  let doe := z - era * 146097 in
  let yoe := (doe - doe `div` 1460 + doe `div` 36524 - doe `div` 146096) `div` 365 in
  let doy := doe - (365 * yoe + yoe `div` 4 - yoe `div` 100) in
  let mp := (5 * doy + 2) `div` 153 in
  let d := doy - (153 * mp + 2) `div` 5 + 1 in
  let m := if mp <? 10 then mp + 3 else mp - 9 in
  let y := yoe + era * 400 + (if m <=? 2 then 1 else 0) in
  (y, m, d).

(** [appendInt]: a sign for a negative number, then the decimal digits padded
    with zeros to [width]. *)
Definition appendInt (x : Z) (width : nat) : string :=
  let digits := pretty (Z.abs_N x) in
  let padded := Nat.iter (width - String.length digits) (String "0"%char) digits in
  if x <? 0 then String "-"%char padded else padded.

(** The calendar day of [t] in its own location, as a day number. *)
Definition localDay (t : Time) : Z :=
  (unixNano t `div` Second + zoneOffset t) `div` 86400.

(** The calendar day of [t] in UTC. *)
Definition utcDay (t : Time) : Z := (unixNano t `div` Second) `div` 86400.

(** [t.Format("2006-01-02")]. *)
Definition FormatDate (t : Time) : string :=
  let '(y, m, d) := civil_from_days (localDay t) in
  appendInt y 4 +:+ "-" +:+ appendInt m 2 +:+ "-" +:+ appendInt d 2.

End gotime.

(** ** Package [config] *)

Module config.

Definition TradeHistoryDays : Z := 10.
Definition MaxTradesPerBatch : nat := 2000.
Definition RateLimitDelayMs : Z := 300.
Definition RateLimitDelay : Z := RateLimitDelayMs * gotime.Millisecond.

End config.

(** ** What the Go runtime leaves open *)

(** [less] is a strict weak order, what [sort.Slice] asks of it. *)
Record StrictWeakOrder {T : Type} (less : T → T → bool) : Prop := {
  swo_irrefl : ∀ a, less a a = false;
  swo_trans : ∀ a b c, less a b = true → less b c = true → less a c = true;
  swo_neg_trans : ∀ a b c, less a b = false → less b c = false → less a c = false
}.

(** [mapRange m] is the sequence of entries a [for k, v := range m] visits;
    [sortSlice less l] is [l] after [sort.Slice(l, less)]; [localOffset] is the
    offset of the process's local time zone at a Unix second. *)
Class GoRuntime := {
  mapRange : ∀ {V : Type}, gmap string V → list (string * V);
  sortSlice : ∀ {T : Type}, (T → T → bool) → list T → list T;
  localOffset : Z → Z
}.

(** What the language promises of them: [range] visits every entry once, and
    [sort.Slice] permutes the slice into an order in which no element is
    [less] than one before it. *)
Class GoRuntimeLaws (rt : GoRuntime) : Prop := {
  mapRange_perm : ∀ (V : Type) (m : gmap string V), mapRange m ≡ₚ map_to_list m;
  sortSlice_perm : ∀ (T : Type) (less : T → T → bool) (l : list T),
    sortSlice less l ≡ₚ l;
  sortSlice_sorted : ∀ (T : Type) (less : T → T → bool) (l : list T),
    StrictWeakOrder less →
    StronglySorted (λ a b, less b a = false) (sortSlice less l)
}.


(** [time.UnixMilli(msec)]: the instant, in the local zone. *)
Definition UnixMilliTime `{GoRuntime} (msec : Z) : gotime.Time :=
  {| gotime.unixNano := msec * gotime.Millisecond;
     gotime.zoneOffset := localOffset (msec `div` 1000) |}.

(** ** [float64] *)

Class Float64Ops (F : Type) := {
  fzero : F;
  fadd : F → F → F;
  fsub : F → F → F;
  fmul : F → F → F;
  ParseFloat : string → option F
}.

(** Exact arithmetic: addition is a commutative monoid and subtraction undoes
    it. *)
Class ExactArith (F : Type) `{Float64Ops F} : Prop := {
  fadd_comm : ∀ x y : F, fadd x y = fadd y x;
  fadd_assoc : ∀ x y z : F, fadd x (fadd y z) = fadd (fadd x y) z;
  fadd_0_l : ∀ x : F, fadd fzero x = x;
  fadd_fsub : ∀ x y : F, fadd (fsub x y) y = x
}.

(** ** Package [models] *)

Module models.
Section Models.
Context {F : Type}.

Record Trade := mkTrade {
  Time : gotime.Time;
  Coin : string;
  Side : string;   (* "B" for buy, "A" for sell *)
  Price : F;
  Size : F;
  Value : F
}.

Record DailyPnL := mkDailyPnL {
  Date : string;
  TradeCount : nat;
  DailyPnL_ : F;
  CumulativePnL : F
}.

Record PnLSummary := mkPnLSummary {
  DailyRecords : list DailyPnL;
  TotalPnL : F
}.

End Models.
Global Arguments Trade : clear implicits.
Global Arguments DailyPnL : clear implicits.
Global Arguments PnLSummary : clear implicits.
End models.

(** ** Package [services]: the trade source *)

Module services.
Import models.

(** A fill as the exchange reports it. *)
Record FillResponse := mkFill {
  fillTime : Z;
  fillCoin : string;
  fillSide : string;
  fillPrice : string;
  fillSize : string;
  fillStartPosition : string;
  fillDir : string;
  fillClosedPnl : string
}.

(** Go [error] values as the services build them: whatever [fetchBatch]
    reports, and the wrapping [FetchTradesInRange] adds
    ("failed to fetch batch %d: %w"). *)
Inductive error :=
| SourceError (msg : string)
| BatchError (batchCount : nat) (cause : error).

(** One answer of the exchange to a POST of [fetchBatch]. *)
Inductive Response :=
| RespFills (fills : list FillResponse)
| RespError (e : error).

(** What [FetchTradesInRange] does that the outside can see. *)
Inductive Event :=
| EvSleep (d : Z)
| EvRequest (address : string) (startTime endTime : Z).

Inductive FetchResult {F : Type} :=
| Fetched (trades : list (Trade F))
| FetchFailed (e : error)
| NoAnswer.   (* the tape ended: the call is still waiting for the exchange *)
Global Arguments FetchResult : clear implicits.

Section Source.
Context {F : Type} {ops : Float64Ops F} {rt : GoRuntime}.

Definition convertFillToTrade (fill : FillResponse) : option (Trade F) :=
  match ParseFloat (fillPrice fill) with
  | None => None
  | Some price =>
    match ParseFloat (fillSize fill) with
    | None => None
    | Some size =>
      Some {| Time := UnixMilliTime (fillTime fill);
              Coin := fillCoin fill;
              Side := fillSide fill;
              Price := price;
              Size := size;
              Value := fmul price size |}
    end
  end.

(** The inner loop over a batch: a fill that does not convert is skipped. *)
Definition convertFills (allTrades : list (Trade F)) (fills : list FillResponse)
  : list (Trade F) :=
  foldl (λ acc fill,
           match convertFillToTrade fill with
           | Some trade => acc ++ [trade]
           | None => acc
           end) allTrades fills.

Definition lastFillTime (fills : list FillResponse) : Z :=
  match last fills with
  | Some fill => fillTime fill
  | None => 0
  end.

(** The pagination loop of [FetchTradesInRange], one iteration per response
    on the tape.  [batchCount] is the counter before the iteration starts. *)
Fixpoint paginate (address : string) (endTime : Z) (tape : list Response)
    (currentStartTime : Z) (batchCount : nat) (allTrades : list (Trade F))
  : FetchResult F * list Event :=
  let pause := if (0 <? batchCount)%nat then [EvSleep config.RateLimitDelay] else [] in
  let request := pause ++ [EvRequest address currentStartTime endTime] in
  let batchCount := S batchCount in
  match tape with
  | [] => (NoAnswer, request)
  | RespError err :: _ => (FetchFailed (BatchError batchCount err), request)
  | RespFills fills :: tape =>
    if (length fills =? 0)%nat then (Fetched allTrades, request)
    else
      let allTrades := convertFills allTrades fills in
      if (length fills <? config.MaxTradesPerBatch)%nat then (Fetched allTrades, request)
      else
        let currentStartTime := wrap64 (lastFillTime fills + 1) in
        let '(r, events) := paginate address endTime tape currentStartTime batchCount allTrades in
        (r, request ++ events)
  end.

Definition FetchTradesInRange (address : string) (start end_ : gotime.Time)
    (tape : list Response) : FetchResult F * list Event :=
  let startTime := gotime.UnixMilli start in
  let endTime := gotime.UnixMilli end_ in
  paginate address endTime tape startTime 0%nat [].

(** [-time.Duration(days) * 24 * time.Hour] on 64-bit integers. *)
Definition minusDays (days : Z) : Z :=
  wrap64 (wrap64 (wrap64 (- days) * 24) * gotime.Hour).

(** [FetchTrades]; [now] is its own reading of the clock. *)
Definition FetchTrades (address : string) (days : Z) (now : gotime.Time)
    (tape : list Response) : FetchResult F * list Event :=
  let historyStart := gotime.Add now (minusDays days) in
  FetchTradesInRange address historyStart now tape.

End Source.

(** ** Package [services]: the reconciliation store *)

Record AccountCache {F : Type} := mkAccountCache {
  trades : list (Trade F);
  lastFetchTime : gotime.Time;
  cachedDays : Z
}.
Global Arguments AccountCache : clear implicits.

(** The two maps of [ReconciliationService]; the lock and the client carry no
    data of their own. *)
Record ReconciliationService {F : Type} := mkService {
  accountCache : gmap string (AccountCache F);
  dailyPnL : gmap string (DailyPnL F)
}.
Global Arguments ReconciliationService : clear implicits.

Record Position {F : Type} := mkPosition {
  BuyValue : F;
  SellValue : F
}.
Global Arguments Position : clear implicits.

(** How a call of [FetchAndReconcile] ends. *)
Inductive Outcome :=
| ReturnNil
| ReturnErr (e : error)
| Waiting.   (* the trade source has not returned *)

Section Reconciliation.
Context {F : Type} {ops : Float64Ops F} {rt : GoRuntime}.

Definition NewReconciliationService : ReconciliationService F :=
  {| accountCache := ∅; dailyPnL := ∅ |}.

Definition filterTradesByTime (trades : list (Trade F)) (cutoffTime : gotime.Time)
  : list (Trade F) :=
  filter (λ trade, gotime.After (Time trade) cutoffTime
                   || gotime.Equal (Time trade) cutoffTime = true) trades.

(** [fmt.Sprintf("%d_%s_%s", trade.Time.UnixMilli(), trade.Coin, trade.Side)]. *)
Definition tradeKey (trade : Trade F) : string :=
  pretty (gotime.UnixMilli (Time trade)) +:+ "_" +:+ Coin trade +:+ "_" +:+ Side trade.

Definition addToTradeMap (tradeMap : gmap string (Trade F)) (l : list (Trade F))
  : gmap string (Trade F) :=
  foldl (λ m trade, <[tradeKey trade := trade]> m) tradeMap l.

Definition mergeTrades (existing new : list (Trade F)) : list (Trade F) :=
  let tradeMap := addToTradeMap ∅ existing in
  let tradeMap := addToTradeMap tradeMap new in
  let merged := snd <$> mapRange tradeMap in
  sortSlice (λ a b, gotime.Before (Time a) (Time b)) merged.

(** The body of the loop over the day's trades in [calculatePnLForDay]. *)
Definition bookTrade (coinPositions : gmap string (Position F)) (trade : Trade F)
  : gmap string (Position F) :=
  let coinPositions :=
    match coinPositions !! Coin trade with
    | Some _ => coinPositions
    | None => <[Coin trade := {| BuyValue := fzero; SellValue := fzero |}]> coinPositions
    end in
  if String.eqb (Side trade) "B" then
    alter (λ pos, {| BuyValue := fadd (BuyValue pos) (Value trade);
                     SellValue := SellValue pos |}) (Coin trade) coinPositions
  else if String.eqb (Side trade) "A" then
    alter (λ pos, {| BuyValue := BuyValue pos;
                     SellValue := fadd (SellValue pos) (Value trade) |}) (Coin trade) coinPositions
  else coinPositions.

(** The loop over the positions: [totalPnL += pos.SellValue - pos.BuyValue]. *)
Definition addPosition (totalPnL : F) (entry : string * Position F) : F :=
  fadd totalPnL (fsub (SellValue entry.2) (BuyValue entry.2)).

Definition calculatePnLForDay (trades : list (Trade F)) : F :=
  let coinPositions := foldl bookTrade ∅ trades in
  foldl addPosition fzero (mapRange coinPositions).

(** The first loop of [calculateDailyPnLFromTrades]:
    [tradesByDate[dateKey] = append(tradesByDate[dateKey], trade)]. *)
Definition addToDate (tradesByDate : gmap string (list (Trade F))) (trade : Trade F)
  : gmap string (list (Trade F)) :=
  let dateKey := gotime.FormatDate (Time trade) in
  <[dateKey := default [] (tradesByDate !! dateKey) ++ [trade]]> tradesByDate.

Definition groupByDate (trades : list (Trade F)) : gmap string (list (Trade F)) :=
  foldl addToDate ∅ trades.

(** The record of one date. *)
Definition dailyRecord (date : string) (dayTrades : list (Trade F)) : DailyPnL F :=
  let pnl := calculatePnLForDay dayTrades in
  {| Date := date;
     TradeCount := length dayTrades;
     DailyPnL_ := pnl;
     CumulativePnL := fzero |}.

(** [calculateDailyPnLFromTrades] as a function to the new [rs.dailyPnL]. *)
Definition calculateDailyPnLFromTrades (trades : list (Trade F))
  : gmap string (DailyPnL F) :=
  let tradesByDate := groupByDate trades in
  foldl (λ dailyPnL entry, <[entry.1 := dailyRecord entry.1 entry.2]> dailyPnL)
        ∅ (mapRange tradesByDate).

(** The loop [for i := len(records) - 1; i >= 0; i--] of [GetPnLSummary]:
    the running total after index [i], and the records from [i] on. *)
Fixpoint cumulate (records : list (DailyPnL F)) : F * list (DailyPnL F) :=
  match records with
  | [] => (fzero, [])
  | record :: rest =>
    let '(cumulative, rest) := cumulate rest in
    let cumulative := fadd cumulative (DailyPnL_ record) in
    (cumulative, {| Date := Date record;
                    TradeCount := TradeCount record;
                    DailyPnL_ := DailyPnL_ record;
                    CumulativePnL := cumulative |} :: rest)
  end.

Definition GetPnLSummary (rs : ReconciliationService F) : PnLSummary F :=
  let records := snd <$> mapRange (dailyPnL rs) in
  let records := sortSlice (λ a b, String.ltb (Date b) (Date a)) records in
  let records := snd (cumulate records) in
  let totalPnL := foldl (λ totalPnL record, fadd totalPnL (DailyPnL_ record)) fzero records in
  {| DailyRecords := records; TotalPnL := totalPnL |}.

(** The body shared by the two cached branches up to the last fetch time:
    merge when something new came, then stamp the cache. *)
Definition refreshCache (cache : AccountCache F) (newTrades : list (Trade F))
    (now : gotime.Time) : AccountCache F :=
  let trades := if (0 <? length newTrades)%nat
                then mergeTrades (trades cache) newTrades
                else trades cache in
  {| trades := trades; lastFetchTime := now; cachedDays := cachedDays cache |}.

(** [FetchAndReconcile].  [now] is the reading of the clock at its start,
    [now'] the one [FetchTrades] takes when the full fetch is reached, [tape]
    what the exchange answers during the call. *)
Definition FetchAndReconcile (rs : ReconciliationService F) (address : string)
    (days : Z) (now now' : gotime.Time) (tape : list Response)
  : Outcome * ReconciliationService F * list Event :=
  let fullFetch :=
    let '(r, events) := FetchTrades address days now' tape in
    match r with
    | NoAnswer => (Waiting, rs, events)
    | FetchFailed err => (ReturnErr err, rs, events)
    | Fetched trades =>
      (ReturnNil,
       {| accountCache := <[address := {| trades := trades;
                                          lastFetchTime := now;
                                          cachedDays := days |}]> (accountCache rs);
          dailyPnL := calculateDailyPnLFromTrades trades |},
       events)
    end in
  match accountCache rs !! address with
  | Some cache =>
    if negb (gotime.IsZero (lastFetchTime cache)) then
      let timeSinceLastFetch := gotime.Sub now (lastFetchTime cache) in
      (* Case 1: requesting SMALLER time range than cached *)
      if (days <=? cachedDays cache) && (timeSinceLastFetch <? gotime.Hour) then
        let '(r, events) := FetchTradesInRange address (lastFetchTime cache) now tape in
        match r with
        | NoAnswer => (Waiting, rs, events)
        | FetchFailed err => (ReturnErr err, rs, events)
        | Fetched newTrades =>
          let cache := refreshCache cache newTrades now in
          let cutoffTime := gotime.Add now (minusDays days) in
          let filteredTrades := filterTradesByTime (trades cache) cutoffTime in
          (ReturnNil,
           {| accountCache := <[address := cache]> (accountCache rs);
              dailyPnL := calculateDailyPnLFromTrades filteredTrades |},
           events)
        end
      (* Case 2: requesting SAME time range as cached *)
      else if (days =? cachedDays cache) && (timeSinceLastFetch <? gotime.Hour) then
        let '(r, events) := FetchTradesInRange address (lastFetchTime cache) now tape in
        match r with
        | NoAnswer => (Waiting, rs, events)
        | FetchFailed err => (ReturnErr err, rs, events)
        | Fetched newTrades =>
          let cache := refreshCache cache newTrades now in
          (ReturnNil,
           {| accountCache := <[address := cache]> (accountCache rs);
              dailyPnL := calculateDailyPnLFromTrades (trades cache) |},
           events)
        end
      else fullFetch
    else fullFetch
  | None => fullFetch
  end.

End Reconciliation.
End services.

(** * Vocabulary of the statements *)

Import models services.

Section Vocabulary.
Context {F : Type} {ops : Float64Ops F} {rt : GoRuntime}.

(** A batch that neither ends the pagination by being empty nor by being
    short of the page limit. *)
Definition fullBatch (fills : list FillResponse) : Prop :=
  (config.MaxTradesPerBatch ≤ length fills)%nat.

(** The cursors of the requests that follow the full batches [pre]: one
    millisecond (in 64-bit arithmetic) after the last fill of each. *)
Definition nextCursors (pre : list (list FillResponse)) : list Z :=
  (λ fills, wrap64 (lastFillTime fills + 1)) <$> pre.

(** Requests at the cursors [cs], the pacing delay before each but the
    first. *)
Definition pacedRequests (address : string) (endTime : Z) (cs : list Z) : list Event :=
  match cs with
  | [] => []
  | c :: cs =>
    EvRequest address c endTime
      :: (cs ≫= λ c, [EvSleep config.RateLimitDelay; EvRequest address c endTime])
  end.

(** The identity triple of a trade. *)
Definition identity (trade : Trade F) : Z * string * string :=
  (gotime.UnixMilli (Time trade), Coin trade, Side trade).

Definition timeLe (a b : Trade F) : Prop :=
  gotime.unixNano (Time a) ≤ gotime.unixNano (Time b).

Definition timeLt (a b : Trade F) : Prop :=
  gotime.unixNano (Time a) < gotime.unixNano (Time b).

(** The invariant the data model asks of a cached trade list. *)
Definition CacheInvariant (l : list (Trade F)) : Prop :=
  StronglySorted timeLe l ∧ NoDup (identity <$> l).

(** The trades of [l] whose time formats to the date [date], in the order of
    [l]. *)
Definition tradesOn (date : string) (l : list (Trade F)) : list (Trade F) :=
  filter (λ trade, gotime.FormatDate (Time trade) = date) l.

(** Left-to-right sum, as a Go loop [total += x] computes it. *)
Definition fsum (l : list F) : F := foldl fadd fzero l.

(** The pause that precedes the request of an iteration entered with counter
    [n]. *)
Definition pauseBefore (n : nat) : list Event :=
  if (0 <? n)%nat then [EvSleep config.RateLimitDelay] else [].

Definition laterRequests (address : string) (endTime : Z) (cs : list Z) : list Event :=
  cs ≫= λ c, [EvSleep config.RateLimitDelay; EvRequest address c endTime].

(** The map [mergeTrades] holds when its two loops are done. *)
Definition mergeMap (existing new : list (Trade F)) : gmap string (Trade F) :=
  addToTradeMap (addToTradeMap ∅ existing) new.

(** Every entry sits under the key of its trade. *)
Definition KeyedByTrade (m : gmap string (Trade F)) : Prop :=
  ∀ k trade, m !! k = Some trade → tradeKey trade = k.

(** The key is a function of the identity triple. *)
Definition keyOfIdentity (i : Z * string * string) : string :=
  pretty i.1.1 +:+ "_" +:+ i.1.2 +:+ "_" +:+ i.2.

(** The cache has been filled, covers the days asked for and is less than an
    hour old: the test of the first cached branch of [FetchAndReconcile]. *)
Definition fresh (cache : AccountCache F) (days : Z) (now : gotime.Time) : bool :=
  negb (gotime.IsZero (lastFetchTime cache))
  && ((days <=? cachedDays cache)
      && (gotime.Sub now (lastFetchTime cache) <? gotime.Hour)).

(** The cache entry a call for [address] can build on, if there is one. *)
Definition freshCache (rs : ReconciliationService F) (address : string) (days : Z)
    (now : gotime.Time) : option (AccountCache F) :=
  match accountCache rs !! address with
  | Some cache => if fresh cache days now then Some cache else None
  | None => None
  end.

(** What a successful call leaves as the account's cached list, by the
    branch it takes.  On a fresh cache, the incremental branch: the merge of
    the old list with what the fetch for [lastFetchTime, now] brought, or the
    old list itself when it brought nothing.  Otherwise, the full fetch: the
    list the source returned. *)
Definition CachedListAfter (rs : ReconciliationService F) address days
    (now now' : gotime.Time) tape (l : list (Trade F)) : Prop :=
  match freshCache rs address days now with
  | Some cache =>
    ∃ newTrades,
      (FetchTradesInRange address (lastFetchTime cache) now tape).1 = Fetched newTrades
      ∧ l = match newTrades with
            | [] => trades cache
            | _ :: _ => mergeTrades (trades cache) newTrades
            end
  | None => (FetchTrades address days now' tape).1 = Fetched l
  end.

(** What one trade does to the position of its coin. *)
Definition applyTrade (pos : Position F) (trade : Trade F) : Position F :=
  if String.eqb (Side trade) "B" then
    {| BuyValue := fadd (BuyValue pos) (Value trade); SellValue := SellValue pos |}
  else if String.eqb (Side trade) "A" then
    {| BuyValue := BuyValue pos; SellValue := fadd (SellValue pos) (Value trade) |}
  else pos.

Definition zeroPosition : Position F := {| BuyValue := fzero; SellValue := fzero |}.

(** The positions with one for [coin], of zero buy and sell value when there
    was none: what the first statement of the loop body of
    [calculatePnLForDay] makes of the map. *)
Definition withPosition (coin : string) (coinPositions : gmap string (Position F))
  : gmap string (Position F) :=
  match coinPositions !! coin with
  | Some _ => coinPositions
  | None => <[coin := zeroPosition]> coinPositions
  end.

(** A table as [calculateDailyPnLFromTrades] writes it: every record sits
    under its own date. *)
Definition KeyedByDate (table : gmap string (DailyPnL F)) : Prop :=
  ∀ date record, table !! date = Some record → Date record = date.

(** What the table says about a day, the cumulative field set aside. *)
Definition dayFacts (record : DailyPnL F) : string * nat * F :=
  (Date record, TradeCount record, DailyPnL_ record).

Definition dateAfter (a b : DailyPnL F) : Prop := String.ltb (Date b) (Date a) = true.

(** The records between the two loops of [GetPnLSummary]. *)
Definition sortedRecords (rs : ReconciliationService F) : list (DailyPnL F) :=
  sortSlice (λ a b, String.ltb (Date b) (Date a)) (mapRange (dailyPnL rs)).*2.

(** The record with its cumulative field set. *)
Definition withCumulative (record : DailyPnL F) (cumulative : F) : DailyPnL F :=
  {| Date := Date record; TradeCount := TradeCount record;
     DailyPnL_ := DailyPnL_ record; CumulativePnL := cumulative |}.

(** The running total the backward loop holds once it has passed the
    records [l]: their daily values summed from the last to the first. *)
Definition runningTotal (l : list (DailyPnL F)) : F :=
  fsum (reverse (DailyPnL_ <$> l)).

End Vocabulary.

(** ** Reading a date back *)

(** The value of a decimal digit, and of a string of digits. *)
Definition digitOf (c : ascii) : N := (N.of_nat (nat_of_ascii c) - 48)%N.

Fixpoint decodeDigits (acc : N) (s : string) : N :=
  match s with
  | EmptyString => acc
  | String c s => decodeDigits (10 * acc + digitOf c) s
  end.

(** The integer [appendInt] wrote. *)
Definition decodeInt (s : string) : Z :=
  match s with
  | String "-"%char s => - Z.of_N (decodeDigits 0 s)
  | _ => Z.of_N (decodeDigits 0 s)
  end.

(** The part of a formatted date after the year, and the month and day in
    it. *)
Definition dateTail (m d : Z) : string :=
  "-" +:+ gotime.appendInt m 2 +:+ "-" +:+ gotime.appendInt d 2.

Definition monthDay (s : string) : Z * Z :=
  match s with
  | String _ (String a (String b (String _ (String c (String e _))))) =>
    (Z.of_N (10 * digitOf a + digitOf b), Z.of_N (10 * digitOf c + digitOf e))
  | _ => (0, 0)
  end.

(** The day number within its 400-year era of a date of that era. *)
Definition dayOfEra (ymd : Z * Z * Z) : Z :=
  let '(y, m, d) := ymd in
  let yoe := y - (if m <=? 2 then 1 else 0) in
  let mp := if 2 <? m then m - 3 else m + 9 in
  let doy := (153 * mp + 2) `div` 5 + d - 1 in
  yoe * 365 + yoe `div` 4 - yoe `div` 100 + doy.

(** [f] holds at 0, 1, ..., n - 1. *)
Definition allBelow (f : Z → bool) (n : positive) : bool :=
  (Pos.iter (λ st : bool * Z, (st.1 && f st.2, st.2 + 1)) (true, 0) n).1.

(** Day [doe] of the era that starts on 0000-03-01 has a date with month and
    day in range, and is the day [dayOfEra] finds for that date. *)
Definition eraCheck (doe : Z) : bool :=
  let '(y, m, d) := gotime.civil_from_days (doe - 719468) in
  let yoe := y - (if m <=? 2 then 1 else 0) in
  (0 <=? yoe) && (yoe <=? 399) && (1 <=? m) && (m <=? 12) && (1 <=? d) && (d <=? 31)
  && (dayOfEra (y, m, d) =? doe).

(** The [i]-th pair of a month and a day is written in six characters from
    which [monthDay] reads it back. *)
Definition tailCheck (i : Z) : bool :=
  let m := i `div` 31 + 1 in
  let d := i `mod` 31 + 1 in
  (String.length (dateTail m d) =? 6)%nat
  && (((monthDay (dateTail m d)).1 =? m) && ((monthDay (dateTail m d)).2 =? d)).

(** * Reference instances

    Runtimes and arithmetics to run the embedding on concrete inputs:
    [range] visits a map in [map_to_list] order, [sort.Slice] is a merge
    sort, the local zone has a fixed offset; [float64] is read as the
    integers, an exact arithmetic, or is binary64 as it is. *)

Definition refSort {T : Type} (less : T → T → bool) (l : list T) : list T :=
  @merge_sort T (λ a b, less b a = false) (λ a b, decide (less b a = false)) l.

Definition refRuntime (offset : Z) : GoRuntime :=
  {| mapRange := λ V m, map_to_list m;
     sortSlice := @refSort;
     localOffset := λ _, offset |}.

(** A process in UTC, and one an hour east of it. *)
Definition utcRuntime : GoRuntime := refRuntime 0.
Definition eastRuntime : GoRuntime := refRuntime 3600.

Definition digitValue (c : ascii) : option Z :=
  let n := Z.of_nat (nat_of_ascii c) in
  if (48 <=? n) && (n <=? 57) then Some (n - 48) else None.

Fixpoint parseDigits (acc : Z) (s : string) : option Z :=
  match s with
  | EmptyString => Some acc
  | String c s =>
    match digitValue c with
    | Some d => parseDigits (10 * acc + d) s
    | None => None
    end
  end.

(** Decimal integers, with an optional minus sign; anything else does not
    parse. *)
Definition parseZ (s : string) : option Z :=
  match s with
  | EmptyString => None
  | String "-" EmptyString => None
  | String "-" s => Z.opp <$> parseDigits 0 s
  | _ => parseDigits 0 s
  end.

Definition Z_ops : Float64Ops Z :=
  {| fzero := 0; fadd := Z.add; fsub := Z.sub; fmul := Z.mul; ParseFloat := parseZ |}.

(** ** IEEE 754 binary64

    Go's [float64] with its [+], [-] and [*]: the binary64 numbers of the
    kernel, every operation rounded to the nearest, ties to even. *)
Module binary64.

(** The float nearest to an integer below [2 ^ 63]; the integer itself when
    it is below [2 ^ 53]. *)
Definition ofZ (z : Z) : PrimFloat.float := PrimFloat.of_uint63 (Uint63Axioms.of_Z z).

(** The digits before the first point of a string, and what follows it. *)
Fixpoint splitPoint (s : string) : string * string :=
  match s with
  | EmptyString => (EmptyString, EmptyString)
  | String "." rest => (EmptyString, rest)
  | String c rest => let '(whole, frac) := splitPoint rest in (String c whole, frac)
  end.

(** Plain decimals: an optional sign, then digits with at most one point
    among them, fewer than [2 ^ 53] as an integer and at most 18 of them
    after the point.  The digits as an integer and the power of ten are then
    both binary64 numbers, and their quotient, rounded once, is the float
    nearest to the decimal, which is what [strconv.ParseFloat] returns for
    it.  Every other string is refused here, also those with an exponent,
    more digits or a special value, which [strconv.ParseFloat] reads. *)
Definition ParseFloat (s : string) : option PrimFloat.float :=
  let '(neg, body) :=
    match s with
    | String "-" rest => (true, rest)
    | String "+" rest => (false, rest)
    | _ => (false, s)
    end in
  let '(whole, frac) := splitPoint body in
  match whole +:+ frac with
  | EmptyString => None
  | digits =>
    match parseDigits 0 digits with
    | Some mantissa =>
      if (mantissa <? 2 ^ 53) && (String.length frac <=? 18)%nat then
        let x := PrimFloat.div (ofZ mantissa) (ofZ (10 ^ Z.of_nat (String.length frac))) in
        Some (if neg then PrimFloat.opp x else x)
      else None
    | None => None
    end
  end.

End binary64.

Definition binary64_ops : Float64Ops PrimFloat.float :=
  {| fzero := PrimFloat.zero;
     fadd := PrimFloat.add;
     fsub := PrimFloat.sub;
     fmul := PrimFloat.mul;
     ParseFloat := binary64.ParseFloat |}.

(** A runtime whose [range] visits a map with an even number of entries
    backwards, and any other map forwards. *)
Definition evenBackwardRuntime : GoRuntime :=
  {| mapRange := λ V m, if Nat.even (size m) then reverse (map_to_list m) else map_to_list m;
     sortSlice := @refSort;
     localOffset := λ _, 0 |}.

(** * Concrete inputs *)

(** A cache filled by a one-day full fetch, asked for one day again. *)
Module SameRange.

#[local] Existing Instance Z_ops.
#[local] Existing Instance utcRuntime.

(** 2025-01-01T10:00:00Z, in Unix seconds. *)
Definition T0 : Z := 1735725600.

Definition at_ (sec : Z) : gotime.Time :=
  {| gotime.unixNano := sec * gotime.Second; gotime.zoneOffset := 0 |}.

(** A sale fetched by the full fetch at [T0], 23h45m before it. *)
Definition oldSale : Trade Z :=
  {| Time := at_ (T0 - 85500); Coin := "BTC"; Side := "A";
     Price := 51000; Size := 1; Value := 51000 |}.

(** The store after a one-day full fetch at [T0]. *)
Definition store : ReconciliationService Z :=
  {| accountCache := {[ "0xabc"%string :=
                          {| trades := [oldSale]; lastFetchTime := at_ T0; cachedDays := 1 |} ]};
     dailyPnL := calculateDailyPnLFromTrades [oldSale] |}.

(** Half an hour later. *)
Definition now : gotime.Time := at_ (T0 + 1800).

End SameRange.

(** Two fills of one order book sweep: same millisecond, coin and side. *)
Module DuplicateFills.

Definition fill : FillResponse :=
  {| fillTime := 1735725600000; fillCoin := "BTC"; fillSide := "B";
     fillPrice := "50000"; fillSize := "1";
     fillStartPosition := "0"; fillDir := "Open Long"; fillClosedPnl := "0" |}.

Definition trade : Trade Z :=
  {| Time := {| gotime.unixNano := 1735725600000000000; gotime.zoneOffset := 0 |};
     Coin := "BTC"; Side := "B"; Price := 50000; Size := 1; Value := 50000 |}.

(** 2025-01-01T10:00:01Z. *)
Definition now : gotime.Time :=
  {| gotime.unixNano := 1735725601000000000; gotime.zoneOffset := 0 |}.

End DuplicateFills.

(** Trades of one timestamp. *)
Module MergeExamples.

Definition buy (coin : string) : Trade Z :=
  {| Time := {| gotime.unixNano := 1735725600000000000; gotime.zoneOffset := 0 |};
     Coin := coin; Side := "B"; Price := 50000; Size := 1; Value := 50000 |}.

End MergeExamples.

(** A server whose local zone is one hour east of UTC. *)
Module LocalZone.

(** A buy at 2025-01-01T22:30:00Z and a sale at 2025-01-01T23:30:00Z. *)
Definition buyFill : FillResponse :=
  {| fillTime := 1735770600000; fillCoin := "BTC"; fillSide := "B";
     fillPrice := "50000"; fillSize := "1";
     fillStartPosition := "0"; fillDir := "Open Long"; fillClosedPnl := "0" |}.

Definition sellFill : FillResponse :=
  {| fillTime := 1735774200000; fillCoin := "BTC"; fillSide := "A";
     fillPrice := "51000"; fillSize := "1";
     fillStartPosition := "1"; fillDir := "Close Long"; fillClosedPnl := "1000" |}.

Definition buyTrade : Trade Z :=
  {| Time := {| gotime.unixNano := 1735770600000000000; gotime.zoneOffset := 3600 |};
     Coin := "BTC"; Side := "B"; Price := 50000; Size := 1; Value := 50000 |}.

Definition sellTrade : Trade Z :=
  {| Time := {| gotime.unixNano := 1735774200000000000; gotime.zoneOffset := 3600 |};
     Coin := "BTC"; Side := "A"; Price := 51000; Size := 1; Value := 51000 |}.

End LocalZone.

(** Inputs at which the statements are instantiated. *)
Module Instances.

#[local] Existing Instance Z_ops.
#[local] Existing Instance utcRuntime.

Definition at_ (sec : Z) : gotime.Time :=
  {| gotime.unixNano := sec * gotime.Second; gotime.zoneOffset := 0 |}.

Definition trade (sec : Z) (coin side : string) (price size : Z) : Trade Z :=
  {| Time := at_ sec; Coin := coin; Side := side;
     Price := price; Size := size; Value := price * size |}.

Definition fill (msec : Z) : FillResponse :=
  {| fillTime := msec; fillCoin := "BTC"; fillSide := "B";
     fillPrice := "50000"; fillSize := "1";
     fillStartPosition := "0"; fillDir := "Open Long"; fillClosedPnl := "0" |}.

(** 2025-01-01T10:00:00Z, half an hour and one hour later. *)
Definition start : gotime.Time := at_ 1735725600.
Definition halfPast : gotime.Time := at_ 1735727400.
Definition end_ : gotime.Time := at_ 1735729200.

(** A page of 2000 fills, then a page of one. *)
Definition fullPage : list FillResponse := replicate 2000 (fill 1735725600500).
Definition lastPage : list FillResponse := [fill 1735725700000].

(** The exchange refuses the first request. *)
Definition refusal : list Response := [RespError (SourceError "API returned status 429")].
Definition refused : error := BatchError 1 (SourceError "API returned status 429").

(** A store with a seven-day cache fetched at [start]. *)
Definition someStore : ReconciliationService Z :=
  {| accountCache := {[ "0xabc"%string :=
                          {| trades := [trade 1735725000 "BTC" "B" 50000 1];
                             lastFetchTime := start; cachedDays := 7 |} ]};
     dailyPnL := calculateDailyPnLFromTrades [trade 1735725000 "BTC" "B" 50000 1] |}.

(** The exchange has one new fill. *)
Definition oneNew : list Response := [RespFills [fill 1735726000000]].

Definition storeAfter : ReconciliationService Z :=
  (FetchAndReconcile someStore "0xabc" 7 halfPast halfPast oneNew).1.2.

(** Two trades a second apart, and a third on the next day whose side is
    neither "B" nor "A". *)
Definition bought : Trade Z := trade 1735725600 "BTC" "B" 50000 1.
Definition sold : Trade Z := trade 1735725601 "BTC" "A" 51000 1.
Definition settled : Trade Z := trade 1735812000 "ETH" "S" 3000 1.

(** The table of the three trades. *)
Definition threeTrades : ReconciliationService Z :=
  {| accountCache := ∅;
     dailyPnL := calculateDailyPnLFromTrades [bought; sold; settled] |}.

End Instances.

(** Inputs in binary64. *)
Module Rounding.

#[local] Existing Instance binary64_ops.
#[local] Existing Instance utcRuntime.

Definition fill (msec : Z) (coin side price size : string) : FillResponse :=
  {| fillTime := msec; fillCoin := coin; fillSide := side;
     fillPrice := price; fillSize := size;
     fillStartPosition := "0"; fillDir := "Close Long"; fillClosedPnl := "0" |}.

(** Three sales of one unit, at 0.1, 0.2 and 0.3, on 2025-01-01, 2025-01-02
    and 2025-01-03 at 10:00:00Z. *)
Definition sales : list FillResponse :=
  [fill 1735725600000 "BTC" "A" "0.1" "1";
   fill 1735812000000 "BTC" "A" "0.2" "1";
   fill 1735898400000 "BTC" "A" "0.3" "1"].

(** 2025-01-03T10:26:40Z. *)
Definition now : gotime.Time :=
  {| gotime.unixNano := 1735900000 * gotime.Second; gotime.zoneOffset := 0 |}.

(** The store after a full fetch of the three sales. *)
Definition store : ReconciliationService PrimFloat.float :=
  (FetchAndReconcile NewReconciliationService "0xabc" 30 now now [RespFills sales]).1.2.

(** One day, 2025-01-01: a sale and a purchase of a hundred million units
    at a hundred million each and a sale of one unit at one; and a fill of
    the same day, of another coin, whose side is neither "B" nor "A". *)
Definition dayFills : list FillResponse :=
  [fill 1735725600000 "BTC" "A" "100000000" "100000000";
   fill 1735725601000 "ETH" "B" "100000000" "100000000";
   fill 1735725602000 "SOL" "A" "1" "1"].

Definition settlementFill : FillResponse := fill 1735725603000 "DOGE" "S" "5" "1".

End Rounding.

(** * The HTTP side: [fetchBatch] and package [api] *)

(** ** Package [strconv] *)

Module strconv.

(** [strconv.Atoi]: an optional sign, then decimal digits and nothing else,
    the value within [int]. *)
Definition Atoi (s : string) : option Z :=
  let '(neg, digits) :=
    match s with
    | String "-" rest => (true, rest)
    | String "+" rest => (false, rest)
    | _ => (false, s)
    end in
  match digits with
  | EmptyString => None
  | _ =>
    match parseDigits 0 digits with
    | Some n =>
      let v := if neg then - n else n in
      if (minInt64 <=? v) && (v <=? maxInt64) then Some v else None
    | None => None
    end
  end.

End strconv.

(** ** Package [strings] *)

Module gostrings.

(** What [strings.ToLower] does to a string that is not all ASCII,
    [strings.Map(unicode.ToLower, s)], is left to the environment. *)
Class Unicode := { mapToLower : string → string }.

Fixpoint isASCII (s : string) : bool :=
  match s with
  | EmptyString => true
  | String c s => (nat_of_ascii c <? 128)%nat && isASCII s
  end.

Definition lowerByte (c : ascii) : ascii :=
  let n := nat_of_ascii c in
  if (65 <=? n)%nat && (n <=? 90)%nat then ascii_of_nat (n + 32) else c.

Fixpoint lowerASCII (s : string) : string :=
  match s with
  | EmptyString => EmptyString
  | String c s => String (lowerByte c) (lowerASCII s)
  end.

(** [strings.ToLower]. *)
Definition ToLower {uni : Unicode} (s : string) : string :=
  if isASCII s then lowerASCII s else mapToLower s.

(** [strings.Contains]: [substr] occurs in [s]. *)
Fixpoint Contains (s substr : string) : bool :=
  String.prefix substr s
  || match s with
     | EmptyString => false
     | String _ rest => Contains rest substr
     end.

End gostrings.

(** ** Package [net/http]: the status codes used *)

Module http.

Definition StatusOK : Z := 200.
Definition StatusBadRequest : Z := 400.
Definition StatusTooManyRequests : Z := 429.
Definition StatusInternalServerError : Z := 500.
Definition StatusGatewayTimeout : Z := 504.

End http.

(** ** [fetchBatch] *)

(** What the HTTP client hands to [fetchBatch] for one POST: a transport
    error, or a status with the body as far as it could be read and the error
    of the read, if any. *)
Inductive HttpResult :=
| PostError (err : string)
| HttpResponse (StatusCode : Z) (body : string) (readErr : option string).

(** [json.Unmarshal(body, &fills)]: the fills, or the text of its error. *)
Class Json := { Unmarshal : string → list FillResponse + string }.

(** [fetchBatch], from the result of the POST to what the pagination loop
    receives. *)
Definition fetchBatch {json : Json} (result : HttpResult) : Response :=
  match result with
  | PostError err => RespError (SourceError ("failed to fetch trades: " +:+ err))
  | HttpResponse StatusCode body readErr =>
    if negb (StatusCode =? http.StatusOK) then
      RespError (SourceError ("API returned status " +:+ pretty StatusCode +:+ ": " +:+ body))
    else
      match readErr with
      | Some err => RespError (SourceError ("failed to read response: " +:+ err))
      | None =>
        match Unmarshal body with
        | inl fills => RespFills fills
        | inr err => RespError (SourceError ("failed to unmarshal response: " +:+ err))
        end
      end
  end.

(** [err.Error()] for the errors of the services:
    [fmt.Errorf("failed to fetch batch %d: %w", batchCount, err)]. *)
Fixpoint errorText (e : error) : string :=
  match e with
  | SourceError msg => msg
  | BatchError batchCount cause =>
    "failed to fetch batch " +:+ pretty batchCount +:+ ": " +:+ errorText cause
  end.

(** ** Package [api] *)

Module api.

(** The JSON bodies the handlers write. *)
Inductive Payload {F : Type} :=
| ErrorResponse (Error : string)
| Response (Status Message : string)
| Summary (summary : PnLSummary F).
Global Arguments Payload : clear implicits.

(** What a handler has written when it returns: the status code and the
    payload it encoded. *)
Record Reply {F : Type} := mkReply {
  statusCode : Z;
  payload : Payload F
}.
Global Arguments Reply : clear implicits.

Section Handlers.
Context {F : Type} {ops : Float64Ops F} {rt : GoRuntime} {uni : gostrings.Unicode}.

Definition respondWithJSON (statusCode : Z) (payload : Payload F) : Reply F :=
  {| statusCode := statusCode; payload := payload |}.

Definition respondWithError (statusCode : Z) (message : string) : Reply F :=
  respondWithJSON statusCode (ErrorResponse message).

(** [contains]: case-insensitive. *)
Definition contains (s substr : string) : bool :=
  gostrings.Contains (gostrings.ToLower s) (gostrings.ToLower substr).

Definition GetPnLSummary (rs : ReconciliationService F) : Reply F :=
  respondWithJSON http.StatusOK (Summary (services.GetPnLSummary rs)).

Definition HealthCheck : Reply F :=
  respondWithJSON http.StatusOK (Response "healthy" "Service is running").

(** The days [TriggerRefresh] asks for, from the query parameter ([None]:
    the parameter is refused). *)
Definition parseDays (daysParam : string) : option Z :=
  if String.eqb daysParam "" then Some config.TradeHistoryDays
  else
    match strconv.Atoi daysParam with
    | Some parsedDays => if parsedDays <=? 0 then None else Some parsedDays
    | None => None
    end.

(** What [TriggerRefresh] answers when [FetchAndReconcile] has returned
    [err]. *)
Definition errorReply (err : error) : Reply F :=
  let errorMsg := errorText err in
  if contains errorMsg "429" || contains errorMsg "rate limit" then
    respondWithError http.StatusTooManyRequests
      "Rate limit exceeded. Please wait a moment before refreshing again."
  else if contains errorMsg "timeout" then
    respondWithError http.StatusGatewayTimeout "Request timeout. Please try again."
  else
    respondWithError http.StatusInternalServerError
      "Failed to refresh data. Please try again later.".

(** [TriggerRefresh].  [address] and [daysParam] are what
    [r.URL.Query().Get] returns for "address" and "days"; the reply is [None]
    while the trade source has not returned. *)
Definition TriggerRefresh (rs : ReconciliationService F) (address daysParam : string)
    (now now' : gotime.Time) (tape : list services.Response)
  : option (Reply F) * ReconciliationService F * list Event :=
  if String.eqb address "" then
    (Some (respondWithError http.StatusBadRequest "address parameter is required"), rs, [])
  else
    match parseDays daysParam with
    | None =>
      (Some (respondWithError http.StatusBadRequest
               "days parameter must be a positive integer"), rs, [])
    | Some days =>
      let '(outcome, rs, events) := FetchAndReconcile rs address days now now' tape in
      match outcome with
      | Waiting => (None, rs, events)
      | ReturnErr err => (Some (errorReply err), rs, events)
      | ReturnNil =>
        (Some (respondWithJSON http.StatusOK
                 (Response "success" "Data refreshed successfully")), rs, events)
      end
    end.

End Handlers.
End api.

(** * More vocabulary of the statements *)

Section SourceVocabulary.
Context {F : Type} {ops : Float64Ops F} {rt : GoRuntime}.

(** The identity triple a fill will have as a trade. *)
Definition fillIdentity (fill : FillResponse) : Z * string * string :=
  (fillTime fill, fillCoin fill, fillSide fill).

(** Price and size of the fill both parse. *)
Definition parses (fill : FillResponse) : Prop :=
  is_Some (ParseFloat (F:=F) (fillPrice fill)) ∧ is_Some (ParseFloat (F:=F) (fillSize fill)).

(** The instant of the trade is not before the cut-off. *)
Definition atOrAfter (cutoffTime : gotime.Time) (trade : Trade F) : Prop :=
  gotime.unixNano cutoffTime ≤ gotime.unixNano (Time trade).

#[global] Instance parses_dec (fill : FillResponse) : Decision (parses fill) :=
  and_dec _ _.

#[global] Instance atOrAfter_dec (cutoffTime : gotime.Time) (trade : Trade F)
  : Decision (atOrAfter cutoffTime trade) :=
  Z_le_dec _ _.

(** The later of two cut-offs (the second when they are the same instant). *)
Definition laterCutoff (c1 c2 : gotime.Time) : gotime.Time :=
  if gotime.Before c2 c1 then c1 else c2.

End SourceVocabulary.

(** ** An exchange that answers from a book of fills *)

(** The fill lies in the window of a request. *)
Definition inWindow (startTime endTime : Z) (fill : FillResponse) : Prop :=
  startTime ≤ fillTime fill ≤ endTime.

#[global] Instance inWindow_dec startTime endTime fill
  : Decision (inWindow startTime endTime fill) :=
  and_dec _ _.

(** The answer to a request: the fills of the window, in the order of the
    book, up to the page limit. *)
Definition exchangeAnswer (book : list FillResponse) (startTime endTime : Z)
  : list FillResponse :=
  take config.MaxTradesPerBatch (filter (inWindow startTime endTime) book).

(** What such an exchange answers to the requests of the pagination loop
    that starts at [cursor], as long as the loop asks and at most [n]
    times. *)
Fixpoint exchangeTape (n : nat) (book : list FillResponse) (cursor endTime : Z)
  : list Response :=
  match n with
  | O => []
  | S n =>
    let batch := exchangeAnswer book cursor endTime in
    RespFills batch
      :: (if (length batch <? config.MaxTradesPerBatch)%nat then []
          else exchangeTape n book (wrap64 (lastFillTime batch + 1)) endTime)
  end.

(** Fill times increase strictly along the book. *)
Definition timesIncrease (book : list FillResponse) : Prop :=
  StronglySorted (λ a b, fillTime a < fillTime b) book.

Section MergeVocabulary.
Context {F : Type} {ops : Float64Ops F} {rt : GoRuntime}.

(** The last trade of [l] stored under the key [k]. *)
Definition lastWithKey (k : string) (l : list (Trade F)) : option (Trade F) :=
  last (filter (λ trade, tradeKey trade = k) l).

End MergeVocabulary.

(** The string has an underscore, the separator of the merge key. *)
Fixpoint hasUnderscore (s : string) : bool :=
  match s with
  | EmptyString => false
  | String c s => Ascii.eqb c "_" || hasUnderscore s
  end.

Section PnLVocabulary.
Context {F : Type} {ops : Float64Ops F} {rt : GoRuntime}.

(** The values of the trades of [l] with the given side, in their order. *)
Definition sideValues (side : string) (l : list (Trade F)) : list F :=
  Value <$> filter (λ trade, Side trade = side) l.

(** The sum of a field over the positions of a map. *)
Definition positionsSum (field : Position F → F) (m : gmap string (Position F)) : F :=
  fsum (field <$> (map_to_list m).*2).

(** The trades a table counts, all dates together. *)
Definition countedTrades (table : gmap string (DailyPnL F)) : nat :=
  sum_list (TradeCount <$> (map_to_list table).*2).

(** The date a trade is booked under. *)
Definition dateOf (trade : Trade F) : string := gotime.FormatDate (Time trade).

(** The daily P&L of a table, all dates together, in [map_to_list] order. *)
Definition tableTotal (table : gmap string (DailyPnL F)) : F :=
  fsum (DailyPnL_ <$> (map_to_list table).*2).

End PnLVocabulary.

Section StoreVocabulary.
Context {F : Type} {ops : Float64Ops F} {rt : GoRuntime}.

(** The trades counted by a summary. *)
Definition summaryTrades (summary : PnLSummary F) : nat :=
  sum_list (TradeCount <$> DailyRecords summary).

End StoreVocabulary.

(** * More instances and inputs *)

(** An environment for the handlers at concrete inputs: strings that are
    not all ASCII are left as they are, and no body decodes. *)
Definition asciiOnly : gostrings.Unicode := {| gostrings.mapToLower := λ s, s |}.
Definition noJson : Json := {| Unmarshal := λ _, inr "unexpected end of JSON input"%string |}.

(** A runtime whose [range] visits a map backwards. *)
Definition backwardRuntime : GoRuntime :=
  {| mapRange := λ V m, reverse (map_to_list m);
     sortSlice := @refSort;
     localOffset := λ _, 0 |}.

(** More inputs at which the statements are instantiated. *)
Module MoreInstances.
Import Instances.

#[local] Existing Instance Z_ops.
#[local] Existing Instance utcRuntime.

(** The sale of [sold], reported again with another price. *)
Definition soldAgain : Trade Z := trade 1735725601 "BTC" "A" 52000 1.

(** A full page, then the exchange refuses. *)
Definition pageThenRefusal : list Response :=
  (RespFills <$> [fullPage]) ++ RespError (SourceError "API returned status 429") :: [].

(** A book of 2001 fills a millisecond apart, one more than a page, from
    [start] on. *)
Definition busyBook : list FillResponse :=
  (λ i, fill (1735725600000 + i)) <$> seqZ 0 2001.

End MoreInstances.

(** * The reference instances keep the promises *)

Lemma refSort_sorted (T : Type) (less : T → T → bool) (l : list T) :
  StrictWeakOrder less →
  StronglySorted (λ a b, less b a = false) (refSort less l).
Proof.
  intros [Hirr Htr Hneg].
  assert (Transitive (λ a b : T, less b a = false)) as HT.
  { intros a b c Hab Hbc. by apply (Hneg c b a). }
  assert (Total (λ a b : T, less b a = false)) as HTot.
  { intros a b. destruct (less b a) eqn:Hba; [right | by left].
    destruct (less a b) eqn:Hab; [| done].
    pose proof (Htr a b a Hab Hba) as Haa. by rewrite Hirr in Haa. }
  by apply StronglySorted_merge_sort.
Qed.

Lemma refRuntime_laws (offset : Z) : GoRuntimeLaws (refRuntime offset).
Proof.
  split.
  - intros V m. reflexivity.
  - intros T less l. apply (merge_sort_Permutation (λ a b, less b a = false)).
  - apply refSort_sorted.
Qed.

Lemma evenBackwardRuntime_laws : GoRuntimeLaws evenBackwardRuntime.
Proof.
  split.
  - intros V m. simpl. destruct (Nat.even (size m)); [apply reverse_Permutation|done].
  - intros T less l. apply (merge_sort_Permutation (λ a b, less b a = false)).
  - apply refSort_sorted.
Qed.

Lemma Z_exact : @ExactArith Z Z_ops.
Proof. split; simpl; intros; lia. Qed.

(** * The trade source: pagination *)

Section Pagination.
Context {F : Type} {ops : Float64Ops F} {rt : GoRuntime} {laws : GoRuntimeLaws rt}.

Lemma convertFills_app (acc : list (Trade F)) (b1 b2 : list FillResponse) :
  convertFills acc (b1 ++ b2) = convertFills (convertFills acc b1) b2.
Proof. unfold convertFills. by rewrite foldl_app. Qed.

Lemma fullBatch_tests (fills : list FillResponse) :
  fullBatch fills →
  (length fills =? 0)%nat = false ∧ (length fills <? config.MaxTradesPerBatch)%nat = false.
Proof.
  unfold fullBatch, config.MaxTradesPerBatch. intros Hfull. split.
  - apply Nat.eqb_neq. lia.
  - apply Nat.ltb_ge. lia.
Qed.

(** Full batches followed by a batch that is empty or short: the loop ends at
    that batch. *)
Lemma paginate_stops address endTime (pre : list (list FillResponse)) b rest cursor n acc :
  Forall fullBatch pre →
  (length b < config.MaxTradesPerBatch)%nat →
  paginate address endTime (RespFills <$> (pre ++ b :: rest)) cursor n acc
  = (Fetched (convertFills acc (concat pre ++ b)),
     pauseBefore n ++ EvRequest address cursor endTime
       :: laterRequests address endTime (nextCursors pre)).
Proof.
  intros Hpre Hb. revert cursor n acc.
  induction Hpre as [|p pre Hp Hpre IH]; intros cursor n acc.
  - cbn [app fmap list_fmap concat nextCursors laterRequests mbind list_bind paginate].
    fold (pauseBefore n).
    destruct (length b =? 0)%nat eqn:Hlen.
    + apply Nat.eqb_eq in Hlen. by destruct b.
    + apply Nat.ltb_lt in Hb. by rewrite Hb.
  - destruct (fullBatch_tests p Hp) as [Hne Hshort].
    cbn [app fmap list_fmap concat paginate]. fold (pauseBefore n).
    rewrite Hne, Hshort.
    change (list_fmap _ _ RespFills (pre ++ b :: rest)) with (RespFills <$> (pre ++ b :: rest)).
    rewrite IH. f_equal.
    + by rewrite <-?app_assoc, !convertFills_app.
    + by rewrite <-!app_assoc.
Qed.

(** Full batches only: after the last of them the loop has asked again and
    has no answer yet. *)
Lemma paginate_goes_on address endTime (pre : list (list FillResponse)) cursor n acc :
  Forall fullBatch pre →
  paginate address endTime (RespFills <$> pre) cursor n acc
  = (NoAnswer,
     pauseBefore n ++ EvRequest address cursor endTime
       :: laterRequests address endTime (nextCursors pre)).
Proof.
  intros Hpre. revert cursor n acc.
  induction Hpre as [|p pre Hp Hpre IH]; intros cursor n acc.
  - simpl. by destruct n.
  - destruct (fullBatch_tests p Hp) as [Hne Hshort].
    cbn [fmap list_fmap paginate]. fold (pauseBefore n).
    rewrite Hne, Hshort.
    change (list_fmap _ _ RespFills pre) with (RespFills <$> pre).
    rewrite IH. f_equal. by rewrite <-!app_assoc.
Qed.

Lemma wrap64_id (z : Z) : minInt64 ≤ z ≤ maxInt64 → wrap64 z = z.
Proof.
  unfold wrap64, minInt64, maxInt64. intros Hz.
  rewrite Z.mod_small; lia.
Qed.


End Pagination.

(** * The reconciliation store: failure of the trade source *)

Section Failure.
Context {F : Type} {ops : Float64Ops F} {rt : GoRuntime} {laws : GoRuntimeLaws rt}.

(** What the loop returns depends on the tape, not on the window asked for:
    the window only shows in the requests. *)
Lemma paginate_result_window address address' endTime endTime' tape cursor cursor' n
    (acc : list (Trade F)) :
  (paginate address endTime tape cursor n acc).1
  = (paginate address' endTime' tape cursor' n acc).1.
Proof.
  revert cursor cursor' n acc.
  induction tape as [|[fills|err] tape IH]; intros cursor cursor' n acc; [done| |done].
  cbn [paginate].
  destruct (length fills =? 0)%nat; [done|].
  destruct (length fills <? config.MaxTradesPerBatch)%nat; [done|].
  specialize (IH (wrap64 (lastFillTime fills + 1)) (wrap64 (lastFillTime fills + 1))
                 (S n) (convertFills acc fills)).
  do 2 destruct (paginate _ _ tape _ _ _). by simpl in *.
Qed.

Lemma FetchTradesInRange_result_window address address' start start' end_ end_' tape :
  (FetchTradesInRange (F:=F) address start end_ tape).1
  = (FetchTradesInRange address' start' end_' tape).1.
Proof. apply paginate_result_window. Qed.

(** C3.  When the trade source fails with [e] on what the exchange answers
    during the call, whichever branch [FetchAndReconcile] takes, it returns
    [e] itself and the store it leaves (every cache entry and the daily
    table) is the one it found. *)
Theorem reconcile_source_failure (rs : ReconciliationService F) address days now now'
    tape e :
  (∃ start end_, (FetchTradesInRange (F:=F) address start end_ tape).1 = FetchFailed e) →
  ∃ events,
    FetchAndReconcile rs address days now now' tape = (ReturnErr e, rs, events).
Proof.
  intros (start & end_ & Hfail).
  assert (∀ s t, ∃ events,
            FetchTradesInRange (F:=F) address s t tape = (FetchFailed e, events)) as Hany.
  { intros s t.
    pose proof (FetchTradesInRange_result_window address address s start t end_ tape) as Heq.
    rewrite Hfail in Heq.
    destruct (FetchTradesInRange address s t tape) as [r events]. simpl in Heq.
    subst r. by exists events. }
  unfold FetchAndReconcile, FetchTrades.
  destruct (accountCache rs !! address) as [cache|].
  - destruct (negb (gotime.IsZero (lastFetchTime cache))).
    + destruct ((days <=? cachedDays cache)
                && (gotime.Sub now (lastFetchTime cache) <? gotime.Hour)).
      * destruct (Hany (lastFetchTime cache) now) as [events ->]. by exists events.
      * destruct ((days =? cachedDays cache)
                  && (gotime.Sub now (lastFetchTime cache) <? gotime.Hour)).
        -- destruct (Hany (lastFetchTime cache) now) as [events ->]. by exists events.
        -- destruct (Hany (gotime.Add now' (minusDays days)) now') as [events ->].
           by exists events.
    + destruct (Hany (gotime.Add now' (minusDays days)) now') as [events ->].
      by exists events.
  - destruct (Hany (gotime.Add now' (minusDays days)) now') as [events ->].
    by exists events.
Qed.

End Failure.

(** * Merge and deduplication *)

Section Merge.
Context {F : Type} {ops : Float64Ops F} {rt : GoRuntime} {laws : GoRuntimeLaws rt}.

Lemma addToTradeMap_snoc (m : gmap string (Trade F)) l trade :
  addToTradeMap m (l ++ [trade]) = <[tradeKey trade := trade]> (addToTradeMap m l).
Proof. unfold addToTradeMap. by rewrite foldl_app. Qed.

Lemma addToTradeMap_cons (m : gmap string (Trade F)) l trade :
  addToTradeMap m (trade :: l) = addToTradeMap (<[tradeKey trade := trade]> m) l.
Proof. done. Qed.

Lemma addToTradeMap_keyed (m : gmap string (Trade F)) l :
  KeyedByTrade m → KeyedByTrade (addToTradeMap m l).
Proof.
  revert m. induction l as [|trade l IH]; intros m Hm; [done|].
  rewrite addToTradeMap_cons. apply IH.
  intros k t. rewrite lookup_insert. case_decide as Hk.
  - intros [= <-]. done.
  - apply Hm.
Qed.

Lemma addToTradeMap_dom (m : gmap string (Trade F)) l :
  dom (addToTradeMap m l) = dom m ∪ list_to_set (tradeKey <$> l).
Proof.
  revert m. induction l as [|trade l IH]; intros m.
  - simpl. by rewrite (right_id_L ∅ (∪)).
  - rewrite addToTradeMap_cons, IH, dom_insert_L, fmap_cons, list_to_set_cons.
    by rewrite (comm_L (∪) {[tradeKey trade]} (dom m)), (assoc_L (∪)).
Qed.

Lemma addToTradeMap_from (m : gmap string (Trade F)) l k trade :
  addToTradeMap m l !! k = Some trade → m !! k = Some trade ∨ trade ∈ l.
Proof.
  revert m. induction l as [|t l IH]; intros m; [by left|].
  rewrite addToTradeMap_cons. intros [Hm | Hl]%IH.
  - rewrite lookup_insert in Hm. case_decide; [|by left].
    right. simplify_eq. by left.
  - right. by right.
Qed.

(** Adding trades that are already there, each under its key, changes
    nothing. *)
Lemma addToTradeMap_present (m : gmap string (Trade F)) l :
  (∀ trade, trade ∈ l → m !! tradeKey trade = Some trade) →
  addToTradeMap m l = m.
Proof.
  induction l as [|t l IH]; intros Hl; [done|].
  rewrite addToTradeMap_cons, insert_id by (apply Hl; by left).
  apply IH. intros trade Ht. apply Hl. by right.
Qed.

Lemma KeyedByTrade_empty : KeyedByTrade (F:=F) ∅.
Proof. intros k trade Hk. by rewrite lookup_empty in Hk. Qed.

Lemma KeyedByTrade_insert (m : gmap string (Trade F)) trade :
  KeyedByTrade m → KeyedByTrade (<[tradeKey trade := trade]> m).
Proof.
  intros Hm k t. rewrite lookup_insert. case_decide as Hk.
  - intros [= <-]. done.
  - apply Hm.
Qed.

(** With pairwise distinct keys every trade of the list ends up in the
    map. *)
Lemma addToTradeMap_lookup_NoDup (m : gmap string (Trade F)) l trade :
  KeyedByTrade m → NoDup (tradeKey <$> l) → trade ∈ l →
  addToTradeMap m l !! tradeKey trade = Some trade.
Proof.
  revert m. induction l as [|t l IH]; intros m Hm Hnd Hin; [by apply elem_of_nil in Hin|].
  rewrite fmap_cons in Hnd. apply NoDup_cons in Hnd as [Hnotin Hnd].
  rewrite addToTradeMap_cons. apply elem_of_cons in Hin as [->|Hin].
  - destruct (addToTradeMap (<[tradeKey t:=t]> m) l !! tradeKey t) as [t'|] eqn:Hlk.
    + pose proof (addToTradeMap_keyed _ l (KeyedByTrade_insert m t Hm) _ _ Hlk) as Hkey.
      apply addToTradeMap_from in Hlk as [Hm'|Hl].
      * by rewrite lookup_insert_eq in Hm'.
      * exfalso. apply Hnotin. apply list_elem_of_fmap. by exists t'.
    + apply (not_elem_of_dom (D:=gset string)) in Hlk.
      rewrite addToTradeMap_dom, dom_insert_L in Hlk.
      exfalso. apply Hlk. apply elem_of_union_l, elem_of_union_l. by apply elem_of_singleton.
  - apply IH; [by apply KeyedByTrade_insert|done..].
Qed.

Lemma before_swo :
  StrictWeakOrder (λ a b : Trade F, gotime.Before (Time a) (Time b)).
Proof.
  unfold gotime.Before. split.
  - intros a. apply Z.ltb_irrefl.
  - intros a b c Hab%Z.ltb_lt Hbc%Z.ltb_lt. apply Z.ltb_lt. lia.
  - intros a b c Hab%Z.ltb_ge Hbc%Z.ltb_ge. apply Z.ltb_ge. lia.
Qed.

Lemma StronglySorted_weaken {T : Type} (R1 R2 : T → T → Prop) (l : list T) :
  (∀ a b, R1 a b → R2 a b) → StronglySorted R1 l → StronglySorted R2 l.
Proof.
  intros HR. induction 1 as [|a l Hl IH Ha]; constructor; [done|].
  eapply Forall_impl; [exact Ha|]. intros b. apply HR.
Qed.

Lemma mergeTrades_perm (existing new : list (Trade F)) :
  mergeTrades existing new ≡ₚ (map_to_list (mergeMap existing new)).*2.
Proof.
  unfold mergeTrades. rewrite sortSlice_perm. by rewrite mapRange_perm.
Qed.

(** Merge ordering: the output ascends in time. *)
Lemma mergeTrades_sorted (existing new : list (Trade F)) :
  StronglySorted timeLe (mergeTrades existing new).
Proof.
  unfold mergeTrades.
  eapply StronglySorted_weaken; [|apply sortSlice_sorted, before_swo].
  intros a b Hab. unfold gotime.Before in Hab. apply Z.ltb_ge in Hab. exact Hab.
Qed.

Lemma mergeMap_keyed (existing new : list (Trade F)) :
  KeyedByTrade (mergeMap existing new).
Proof. unfold mergeMap. by do 2 apply addToTradeMap_keyed; [apply KeyedByTrade_empty|..]. Qed.

Lemma keyed_values_keys (m : gmap string (Trade F)) :
  KeyedByTrade m → tradeKey <$> (map_to_list m).*2 = (map_to_list m).*1.
Proof.
  intros Hm. rewrite <-list_fmap_compose. apply Forall_fmap_ext_1, Forall_forall.
  intros [k trade] Hin%elem_of_map_to_list. simpl. by apply Hm.
Qed.

Lemma mergeTrades_keys_NoDup (existing new : list (Trade F)) :
  NoDup (tradeKey <$> mergeTrades existing new).
Proof.
  rewrite mergeTrades_perm, keyed_values_keys by apply mergeMap_keyed.
  apply NoDup_fst_map_to_list.
Qed.

Lemma tradeKey_identity (trade : Trade F) :
  tradeKey trade = keyOfIdentity (identity trade).
Proof. done. Qed.

Lemma keys_NoDup_identity (l : list (Trade F)) :
  NoDup (tradeKey <$> l) → NoDup (identity <$> l).
Proof.
  intros Hnd. apply (NoDup_fmap_1 keyOfIdentity).
  by rewrite <-list_fmap_compose.
Qed.

Lemma mergeTrades_invariant (existing new : list (Trade F)) :
  CacheInvariant (mergeTrades existing new).
Proof.
  split; [apply mergeTrades_sorted|].
  apply keys_NoDup_identity, mergeTrades_keys_NoDup.
Qed.

Lemma mergeTrades_length (existing new : list (Trade F)) :
  length (mergeTrades existing new)
  = size (list_to_set (C:=gset string) (tradeKey <$> existing ++ new)).
Proof.
  rewrite mergeTrades_perm, length_fmap, length_map_to_list.
  rewrite <-size_dom. unfold mergeMap.
  rewrite !addToTradeMap_dom, dom_empty_L, (left_id_L ∅ (∪)).
  by rewrite fmap_app, list_to_set_app_L.
Qed.

Lemma identity_in_keys (A : list (Trade F)) (b : Trade F) :
  (∃ a, a ∈ A ∧ identity a = identity b) → tradeKey b ∈ tradeKey <$> A.
Proof.
  intros (a & Ha & Hid). apply list_elem_of_fmap. exists a. split; [|done].
  by rewrite !tradeKey_identity, Hid.
Qed.

(** C7, amended.  When no two entries of [A] have the same identity key and
    every element of [B] has the identity triple of an element of [A],
    [mergeTrades A B] is as long as [A]. *)
Theorem merge_dedup_length (A B : list (Trade F)) :
  NoDup (tradeKey <$> A) →
  (∀ b, b ∈ B → ∃ a, a ∈ A ∧ identity a = identity b) →
  length (mergeTrades A B) = length A.
Proof.
  intros Hnd HB. rewrite mergeTrades_length.
  rewrite <-(length_fmap tradeKey A), <-(size_list_to_set (C:=gset string) _ Hnd).
  f_equal. apply set_eq. intros k. rewrite !elem_of_list_to_set, fmap_app, elem_of_app.
  split; [|by left]. intros [Hk|Hk]; [done|].
  apply list_elem_of_fmap in Hk as (b & -> & Hb). by apply identity_in_keys, HB.
Qed.

Lemma mergeMap_self (A : list (Trade F)) :
  NoDup (tradeKey <$> A) → mergeMap A A = addToTradeMap ∅ A.
Proof.
  intros Hnd. unfold mergeMap. apply addToTradeMap_present.
  intros trade Hin. by apply addToTradeMap_lookup_NoDup; [apply KeyedByTrade_empty|..].
Qed.

Lemma addToTradeMap_values (A : list (Trade F)) :
  NoDup (tradeKey <$> A) → (map_to_list (addToTradeMap ∅ A)).*2 ≡ₚ A.
Proof.
  intros Hnd. apply NoDup_Permutation.
  - apply (NoDup_fmap_1 tradeKey).
    rewrite keyed_values_keys by apply addToTradeMap_keyed, KeyedByTrade_empty.
    apply NoDup_fst_map_to_list.
  - by apply (NoDup_fmap_1 tradeKey).
  - intros trade. split.
    + intros ([k t] & -> & Hin%elem_of_map_to_list)%list_elem_of_fmap. simpl.
      apply addToTradeMap_from in Hin as [Hin|Hin]; [|done].
      by rewrite lookup_empty in Hin.
    + intros Hin. apply list_elem_of_fmap. exists (tradeKey trade, trade).
      split; [done|]. apply elem_of_map_to_list.
      by apply addToTradeMap_lookup_NoDup; [apply KeyedByTrade_empty|..].
Qed.

(** Merge with itself keeps the members when the keys are distinct. *)
Lemma mergeTrades_self_perm (A : list (Trade F)) :
  NoDup (tradeKey <$> A) → mergeTrades A A ≡ₚ A.
Proof.
  intros Hnd. rewrite mergeTrades_perm, mergeMap_self by done.
  by apply addToTradeMap_values.
Qed.

Lemma timeLt_same_time (A : list (Trade F)) x y :
  StronglySorted timeLt A → x ∈ A → y ∈ A →
  gotime.unixNano (Time x) = gotime.unixNano (Time y) → x = y.
Proof.
  unfold timeLt. induction 1 as [|a l Hl IH Ha]; intros Hx Hy Heq.
  - by apply elem_of_nil in Hx.
  - rewrite Forall_forall in Ha.
    apply elem_of_cons in Hx as [->|Hx], Hy as [->|Hy]; [done| | |by apply IH].
    + specialize (Ha y Hy). lia.
    + specialize (Ha x Hx). lia.
Qed.

(** C5, amended.  When the timestamps of [A] increase strictly and no two
    entries have the same identity key, merging [A] with itself gives [A]
    back: the same members in the same order. *)
Theorem merge_idempotent (A : list (Trade F)) :
  StronglySorted timeLt A →
  NoDup (tradeKey <$> A) →
  mergeTrades A A = A.
Proof.
  intros Hlt Hnd.
  pose proof (mergeTrades_self_perm A Hnd) as Hperm.
  apply (StronglySorted_unique_strong timeLe); [| |by eapply StronglySorted_weaken; [|exact Hlt]; unfold timeLt, timeLe; lia|done].
  - intros x y Hx Hy Hxy Hyx. rewrite Hperm in Hx.
    apply (timeLt_same_time A); [done..|]. unfold timeLe in *. lia.
  - apply mergeTrades_sorted.
Qed.

End Merge.

(** * The reconciliation store: the cached trade list *)

Section CachedList.
Context {F : Type} {ops : Float64Ops F} {rt : GoRuntime} {laws : GoRuntimeLaws rt}.

Lemma refreshCache_trades (cache : AccountCache F) newTrades now :
  trades (refreshCache cache newTrades now)
  = match newTrades with
    | [] => trades cache
    | _ :: _ => mergeTrades (trades cache) newTrades
    end.
Proof. by destruct newTrades. Qed.

(** The call has two live branches: the incremental one on a fresh cache,
    the full fetch otherwise.  The branch for a request of exactly the cached
    days is never reached. *)
Lemma FetchAndReconcile_branches (rs : ReconciliationService F) address days now now' tape :
  FetchAndReconcile rs address days now now' tape
  = match freshCache rs address days now with
    | Some cache =>
      let '(r, events) := FetchTradesInRange address (lastFetchTime cache) now tape in
      match r with
      | NoAnswer => (Waiting, rs, events)
      | FetchFailed err => (ReturnErr err, rs, events)
      | Fetched newTrades =>
        let cache := refreshCache cache newTrades now in
        (ReturnNil,
         {| accountCache := <[address := cache]> (accountCache rs);
            dailyPnL := calculateDailyPnLFromTrades
                          (filterTradesByTime (trades cache)
                             (gotime.Add now (minusDays days))) |},
         events)
      end
    | None =>
      let '(r, events) := FetchTrades address days now' tape in
      match r with
      | NoAnswer => (Waiting, rs, events)
      | FetchFailed err => (ReturnErr err, rs, events)
      | Fetched trades =>
        (ReturnNil,
         {| accountCache := <[address := {| trades := trades;
                                            lastFetchTime := now;
                                            cachedDays := days |}]> (accountCache rs);
            dailyPnL := calculateDailyPnLFromTrades trades |},
         events)
      end
    end.
Proof.
  unfold FetchAndReconcile, freshCache, fresh.
  destruct (accountCache rs !! address) as [cache|]; [|done].
  destruct (negb (gotime.IsZero (lastFetchTime cache))); [|done]. simpl.
  destruct (days <=? cachedDays cache) eqn:Hle; simpl.
  - destruct (gotime.Sub now (lastFetchTime cache) <? gotime.Hour); [done|].
    by rewrite andb_false_r.
  - assert ((days =? cachedDays cache) = false) as ->; [|done].
    apply Z.leb_gt in Hle. apply Z.eqb_neq. lia.
Qed.

Lemma reconcile_cached_list (rs : ReconciliationService F) address days now now' tape
    rs' events :
  FetchAndReconcile rs address days now now' tape = (ReturnNil, rs', events) →
  ∃ cache', accountCache rs' !! address = Some cache'
            ∧ CachedListAfter rs address days now now' tape (trades cache').
Proof.
  rewrite FetchAndReconcile_branches. unfold CachedListAfter.
  destruct (freshCache rs address days now) as [cache|].
  - destruct (FetchTradesInRange address (lastFetchTime cache) now tape)
      as [[l|err|] ev] eqn:Hf; [|done..].
    intros [= <- <-]. exists (refreshCache cache l now).
    split; [cbn [accountCache]; apply lookup_insert_eq|].
    exists l. split; [done|]. apply refreshCache_trades.
  - destruct (FetchTrades address days now' tape) as [[l|err|] ev] eqn:Hf; [|done..].
    intros [= <- <-]. eexists.
    split; [cbn [accountCache]; apply lookup_insert_eq|]. done.
Qed.

Lemma freshCache_lookup (rs : ReconciliationService F) address days now cache :
  freshCache rs address days now = Some cache → accountCache rs !! address = Some cache.
Proof.
  unfold freshCache. destruct (accountCache rs !! address) as [c|]; [|done].
  by destruct (fresh c days now).
Qed.

(** C4, amended.  After a successful [FetchAndReconcile] the account has a
    cache entry whose trade list is fixed by the branch taken.  On a cache
    that has been filled, covers the days asked for and is less than an hour
    old (the incremental branch) it is the merge of the old list with the
    trades fetched for [lastFetchTime, now], or the old list itself when
    that fetch brought none; in every other case (the full fetch) it is the
    list the source returned, as the source ordered it.  Every merge is in
    non-decreasing time order without two entries of one identity triple; so
    the list after the call has this property as soon as the cached list
    before the call and the list the source returns have it. *)
Theorem reconcile_cache_invariant (rs : ReconciliationService F) address days now now'
    tape rs' events :
  FetchAndReconcile rs address days now now' tape = (ReturnNil, rs', events) →
  (∃ cache',
      accountCache rs' !! address = Some cache'
      ∧ CachedListAfter rs address days now now' tape (trades cache')
      ∧ ((∀ cache, accountCache rs !! address = Some cache → CacheInvariant (trades cache)) →
         (∀ l, (FetchTrades address days now' tape).1 = Fetched l → CacheInvariant l) →
         CacheInvariant (trades cache')))
  ∧ (∀ existing new : list (Trade F), CacheInvariant (mergeTrades existing new)).
Proof.
  intros Hrun. split; [|apply mergeTrades_invariant].
  destruct (reconcile_cached_list _ _ _ _ _ _ _ _ Hrun) as (cache' & Hlk & Hlist).
  exists cache'. split; [done|]. split; [done|]. intros Hold Hsrc.
  unfold CachedListAfter in Hlist.
  destruct (freshCache rs address days now) as [cache|] eqn:Hfresh.
  - destruct Hlist as ([|t new] & _ & ->).
    + by apply Hold, (freshCache_lookup _ _ days now).
    + apply mergeTrades_invariant.
  - by apply Hsrc.
Qed.

End CachedList.

(** * Profit and loss of a day *)

Section DayPnL.
Context {F : Type} {ops : Float64Ops F} {exact : ExactArith F}.

(** A left fold whose steps commute does not see the order of the list. *)
Lemma foldl_commute_perm {A B : Type} (g : A → B → A) (l l' : list B) :
  (∀ a x y, g (g a x) y = g (g a y) x) →
  l ≡ₚ l' → ∀ a, foldl g a l = foldl g a l'.
Proof.
  intros Hg. induction 1 as [|x l l' _ IH|x y l|l l' l'' _ IH1 _ IH2]; intros a; simpl.
  - done.
  - apply IH.
  - by rewrite Hg.
  - by rewrite IH1.
Qed.

Lemma fadd_0_r (x : F) : fadd x fzero = x.
Proof. by rewrite fadd_comm, fadd_0_l. Qed.

Lemma fsub_0_0 : fsub fzero fzero = fzero (F:=F).
Proof. by rewrite <-(fadd_0_r (fsub fzero fzero)), fadd_fsub. Qed.

Lemma fadd_swap (a x y : F) : fadd (fadd a x) y = fadd (fadd a y) x.
Proof. by rewrite <-!fadd_assoc, (fadd_comm x y). Qed.

Lemma bookTrade_lookup (m : gmap string (Position F)) (trade : Trade F) (coin : string) :
  bookTrade m trade !! coin
  = if decide (coin = Coin trade)
    then Some (applyTrade (default zeroPosition (m !! coin)) trade)
    else m !! coin.
Proof.
  unfold bookTrade, applyTrade. case_decide as Hc.
  - subst coin. destruct (m !! Coin trade) as [pos|] eqn:Hm.
    + repeat case_match; rewrite ?lookup_alter_eq, ?Hm; done.
    + repeat case_match; rewrite ?lookup_alter_eq, ?lookup_insert_eq; done.
  - repeat case_match; rewrite ?lookup_alter_ne, ?lookup_insert_ne by done; done.
Qed.

Lemma applyTrade_commute (pos : Position F) (t1 t2 : Trade F) :
  applyTrade (applyTrade pos t1) t2 = applyTrade (applyTrade pos t2) t1.
Proof.
  unfold applyTrade. repeat case_match; simpl; f_equal; apply fadd_swap.
Qed.

Lemma bookTrade_commute (m : gmap string (Position F)) (t1 t2 : Trade F) :
  bookTrade (bookTrade m t1) t2 = bookTrade (bookTrade m t2) t1.
Proof.
  apply map_eq. intros coin. rewrite !bookTrade_lookup.
  repeat case_decide; simpl; try done. by rewrite applyTrade_commute.
Qed.

Lemma addPosition_commute (a : F) (x y : string * Position F) :
  addPosition (addPosition a x) y = addPosition (addPosition a y) x.
Proof. unfold addPosition. apply fadd_swap. Qed.

(** The total over the positions, whatever order [range] visits them in. *)
Lemma sumPositions_runtime (rt1 rt2 : GoRuntime)
    {laws1 : GoRuntimeLaws rt1} {laws2 : GoRuntimeLaws rt2} (m : gmap string (Position F)) :
  foldl addPosition fzero (@mapRange rt1 _ m) = foldl addPosition fzero (@mapRange rt2 _ m).
Proof.
  apply foldl_commute_perm; [apply addPosition_commute|].
  by rewrite !mapRange_perm.
Qed.

Lemma calculatePnLForDay_perm (rt1 rt2 : GoRuntime)
    {laws1 : GoRuntimeLaws rt1} {laws2 : GoRuntimeLaws rt2} (l l' : list (Trade F)) :
  l ≡ₚ l' →
  @calculatePnLForDay F ops rt1 l = @calculatePnLForDay F ops rt2 l'.
Proof.
  intros Hperm. unfold calculatePnLForDay.
  rewrite (foldl_commute_perm bookTrade l l' bookTrade_commute Hperm).
  exact (sumPositions_runtime rt1 rt2 (laws1:=laws1) (laws2:=laws2) _).
Qed.

(** C9.  Under exact arithmetic the P&L of a day is the same for every
    reordering of the day's trades and every order in which [range] visits
    the positions. *)
Theorem dayPnL_permutation (rt1 rt2 : GoRuntime)
    {laws1 : GoRuntimeLaws rt1} {laws2 : GoRuntimeLaws rt2} (l l' : list (Trade F)) :
  l ≡ₚ l' →
  @calculatePnLForDay F ops rt1 l = @calculatePnLForDay F ops rt2 l'.
Proof. exact (calculatePnLForDay_perm rt1 rt2 (laws1:=laws1) (laws2:=laws2) l l'). Qed.

End DayPnL.

(** * Dates and their rendering *)

Section Dates.

Lemma digitOf_char (x : N) : (x < 10)%N → digitOf (pretty_N_char x) = x.
Proof.
  intros Hx. destruct x as [|p]; [done|].
  do 4 (try destruct p as [p|p|]); try reflexivity; lia.
Qed.

Lemma decodeDigits_go (x : N) (s : string) :
  decodeDigits 0 (pretty_N_go x s) = decodeDigits x s.
Proof.
  revert s. induction (N.lt_wf_0 x) as [x _ IH]; intros s.
  assert (x = 0 ∨ 0 < x)%N as [->|Hpos] by lia; [by rewrite pretty_N_go_0|].
  rewrite pretty_N_go_step by done. rewrite IH by (by apply N.div_lt).
  simpl. rewrite digitOf_char by (by apply N.mod_lt).
  f_equal. rewrite (N.div_mod x 10) at 3 by done. lia.
Qed.

Lemma decodeDigits_pretty (x : N) : decodeDigits 0 (pretty x) = x.
Proof.
  unfold pretty, pretty_N. case_decide as Hx; [by subst|].
  by rewrite decodeDigits_go.
Qed.

Lemma decodeDigits_zeros (k : nat) (s : string) :
  decodeDigits 0 (Nat.iter k (String "0"%char) s) = decodeDigits 0 s.
Proof. induction k as [|k IH]; [done|]. simpl. exact IH. Qed.

Lemma pretty_N_no_dash (x : N) (s : string) : pretty x ≠ String "-"%char s.
Proof.
  unfold pretty, pretty_N. case_decide; [done|].
  by apply (pretty_N_go_ne_dash x "" s).
Qed.

Lemma decodeInt_appendInt (x : Z) (width : nat) : decodeInt (gotime.appendInt x width) = x.
Proof.
  unfold gotime.appendInt.
  assert (decodeDigits 0 (Nat.iter (width - String.length (pretty (Z.abs_N x)))
                            (String "0"%char) (pretty (Z.abs_N x))) = Z.abs_N x) as Hdec.
  { by rewrite decodeDigits_zeros, decodeDigits_pretty. }
  destruct (x <? 0) eqn:Hneg.
  - simpl. rewrite Hdec. apply Z.ltb_lt in Hneg. lia.
  - apply Z.ltb_ge in Hneg. unfold decodeInt.
    destruct (Nat.iter _ _ _) as [|c s] eqn:Hpad; [simpl in *; lia|].
    assert (c ≠ "-"%char) as Hc.
    { intros ->. destruct (width - String.length (pretty (Z.abs_N x)))%nat; simpl in Hpad.
      - by apply pretty_N_no_dash in Hpad.
      - done. }
    rewrite Hdec.
    destruct c as [[] [] [] [] [] [] [] []]; try lia. done.
Qed.

Lemma allBelow_spec (f : Z → bool) (n : positive) :
  allBelow f n = true → ∀ i, 0 ≤ i < Z.pos n → f i = true.
Proof.
  unfold allBelow.
  set (step := λ st : bool * Z, (st.1 && f st.2, st.2 + 1)).
  assert (∀ p, (Pos.iter step (true, 0) p).2 = Z.pos p
               ∧ ((Pos.iter step (true, 0) p).1 = true → ∀ i, 0 ≤ i < Z.pos p → f i = true))
    as Hinv.
  { induction p as [|p [IHn IHok]] using Pos.peano_ind.
    - simpl. split; [done|]. intros Hf i Hi. assert (i = 0) as -> by lia.
      by destruct (f 0).
    - rewrite Pos.iter_succ. unfold step at 1. simpl. rewrite IHn. split; [lia|].
      intros [Hok Hf]%andb_prop i Hi.
      destruct (decide (i = Z.pos p)) as [->|Hne]; [done|].
      apply IHok; [done|lia]. }
  intros Hall. by apply Hinv.
Qed.

Lemma era_checked : allBelow eraCheck 146097 = true.
Proof. vm_cast_no_check (eq_refl true). Qed.

Lemma eraCheck_holds (doe : Z) : 0 ≤ doe < 146097 → eraCheck doe = true.
Proof. apply (allBelow_spec eraCheck 146097 era_checked). Qed.

Lemma civil_from_days_era (z : Z) :
  let era := (z + 719468) `div` 146097 in
  let doe := (z + 719468) `mod` 146097 in
  gotime.civil_from_days z
  = let '(y, m, d) := gotime.civil_from_days (doe - 719468) in (y + 400 * era, m, d).
Proof.
  intros era doe. unfold gotime.civil_from_days.
  assert (0 ≤ doe < 146097) as Hdoe by (apply Z.mod_pos_bound; lia).
  replace (doe - 719468 + 719468) with doe by lia.
  rewrite (Z.div_small doe 146097) by lia.
  replace (doe - 0 * 146097) with doe by lia.
  fold era. replace (z + 719468 - era * 146097) with doe.
  2:{ unfold doe, era. rewrite Z.mod_eq by lia. lia. }
  cbv zeta. f_equal. f_equal. lia.
Qed.

Lemma civil_from_days_inj (z1 z2 : Z) :
  gotime.civil_from_days z1 = gotime.civil_from_days z2 → z1 = z2.
Proof.
  rewrite (civil_from_days_era z1), (civil_from_days_era z2). cbv zeta.
  set (era1 := (z1 + 719468) `div` 146097). set (doe1 := (z1 + 719468) `mod` 146097).
  set (era2 := (z2 + 719468) `div` 146097). set (doe2 := (z2 + 719468) `mod` 146097).
  assert (0 ≤ doe1 < 146097) as Hdoe1 by (apply Z.mod_pos_bound; lia).
  assert (0 ≤ doe2 < 146097) as Hdoe2 by (apply Z.mod_pos_bound; lia).
  pose proof (eraCheck_holds doe1 Hdoe1) as Hc1.
  pose proof (eraCheck_holds doe2 Hdoe2) as Hc2.
  unfold eraCheck in Hc1, Hc2.
  destruct (gotime.civil_from_days (doe1 - 719468)) as [[y1 m1] d1].
  destruct (gotime.civil_from_days (doe2 - 719468)) as [[y2 m2] d2].
  intros [= Hy Hm Hd]. subst m2 d2.
  repeat (apply andb_prop in Hc1 as [Hc1 ?]). repeat (apply andb_prop in Hc2 as [Hc2 ?]).
  assert (era1 = era2 ∧ y1 = y2) as [Hera ->].
  { destruct (m1 <=? 2); lia. }
  assert (doe1 = doe2) as Hdoe by lia.
  assert (z1 + 719468 = z2 + 719468); [|lia].
  rewrite (Z.div_mod (z1 + 719468) 146097), (Z.div_mod (z2 + 719468) 146097) by lia.
  fold era1 era2 doe1 doe2. lia.
Qed.

Lemma civil_from_days_range (z : Z) :
  let '(y, m, d) := gotime.civil_from_days z in 1 ≤ m ≤ 12 ∧ 1 ≤ d ≤ 31.
Proof.
  rewrite (civil_from_days_era z). cbv zeta.
  set (doe := (z + 719468) `mod` 146097).
  assert (0 ≤ doe < 146097) as Hdoe by (apply Z.mod_pos_bound; lia).
  pose proof (eraCheck_holds doe Hdoe) as Hc. unfold eraCheck in Hc.
  destruct (gotime.civil_from_days (doe - 719468)) as [[y m] d].
  repeat (apply andb_prop in Hc as [Hc ?]). lia.
Qed.


Lemma tail_checked : allBelow tailCheck 372 = true.
Proof. vm_cast_no_check (eq_refl true). Qed.

Lemma dateTail_read (m d : Z) :
  1 ≤ m ≤ 12 → 1 ≤ d ≤ 31 →
  String.length (dateTail m d) = 6%nat ∧ monthDay (dateTail m d) = (m, d).
Proof.
  intros Hm Hd.
  pose proof (allBelow_spec tailCheck 372 tail_checked ((m - 1) * 31 + (d - 1))) as Hc.
  unfold tailCheck in Hc.
  replace (((m - 1) * 31 + (d - 1)) `div` 31 + 1) with m in Hc.
  2:{ rewrite Z.div_add_l by lia. rewrite Z.div_small by lia. lia. }
  replace (((m - 1) * 31 + (d - 1)) `mod` 31 + 1) with d in Hc.
  2:{ rewrite (Z.add_comm ((m - 1) * 31) (d - 1)), Z.mod_add by lia.
      rewrite Z.mod_small by lia. lia. }
  cbv zeta in Hc.
  assert (0 ≤ (m - 1) * 31 + (d - 1) < 372) as Hi by lia.
  apply Hc in Hi. apply andb_prop in Hi as [Hlen [H1 H2]%andb_prop].
  apply Nat.eqb_eq in Hlen. apply Z.eqb_eq in H1, H2.
  split; [done|]. destruct (monthDay (dateTail m d)). simpl in *. by subst.
Qed.

Lemma string_length_app (s t : string) :
  String.length (s +:+ t) = (String.length s + String.length t)%nat.
Proof.
  induction s as [|c s IH]; [done|].
  change (String c s +:+ t) with (String c (s +:+ t)). simpl. by rewrite IH.
Qed.

Lemma string_app_inj_tail (s1 s2 t1 t2 : string) :
  String.length t1 = String.length t2 → s1 +:+ t1 = s2 +:+ t2 → s1 = s2 ∧ t1 = t2.
Proof.
  intros Hlen. revert s2. induction s1 as [|c1 s1 IH]; intros [|c2 s2] Heq.
  - done.
  - exfalso. apply (f_equal String.length) in Heq.
    rewrite !string_length_app in Heq. simpl in Heq. lia.
  - exfalso. apply (f_equal String.length) in Heq.
    rewrite !string_length_app in Heq. simpl in Heq. lia.
  - change (String c1 (s1 +:+ t1) = String c2 (s2 +:+ t2)) in Heq.
    injection Heq as -> Heq. destruct (IH s2 Heq) as [-> ->]. done.
Qed.

Lemma appendInt_inj (x y : Z) (width : nat) :
  gotime.appendInt x width = gotime.appendInt y width → x = y.
Proof.
  intros Heq. by rewrite <-(decodeInt_appendInt x width), Heq, decodeInt_appendInt.
Qed.

Lemma FormatDate_inj_day (t1 t2 : gotime.Time) :
  gotime.FormatDate t1 = gotime.FormatDate t2 → gotime.localDay t1 = gotime.localDay t2.
Proof.
  unfold gotime.FormatDate. intros Heq. apply civil_from_days_inj.
  pose proof (civil_from_days_range (gotime.localDay t1)) as Hr1.
  pose proof (civil_from_days_range (gotime.localDay t2)) as Hr2.
  destruct (gotime.civil_from_days (gotime.localDay t1)) as [[y1 m1] d1].
  destruct (gotime.civil_from_days (gotime.localDay t2)) as [[y2 m2] d2].
  destruct Hr1 as [Hm1 Hd1], Hr2 as [Hm2 Hd2].
  destruct (dateTail_read m1 d1 Hm1 Hd1) as [Hlen1 Hread1].
  destruct (dateTail_read m2 d2 Hm2 Hd2) as [Hlen2 Hread2].
  change (gotime.appendInt y1 4 +:+ dateTail m1 d1 = gotime.appendInt y2 4 +:+ dateTail m2 d2) in Heq.
  apply string_app_inj_tail in Heq as [Hy Htail]; [|by rewrite Hlen1, Hlen2].
  apply appendInt_inj in Hy. rewrite Htail in Hread1. rewrite Hread1 in Hread2.
  by simplify_eq.
Qed.

End Dates.

(** * Daily aggregation *)

Section Daily.
Context {F : Type} {ops : Float64Ops F} {rt : GoRuntime} {laws : GoRuntimeLaws rt}.

Lemma tradesOn_snoc date (l : list (Trade F)) trade :
  tradesOn date (l ++ [trade])
  = tradesOn date l ++ (if decide (gotime.FormatDate (Time trade) = date) then [trade] else []).
Proof.
  unfold tradesOn. by rewrite filter_app.
Qed.

(** The groups of the first loop: under each date the trades of that date,
    in their order; no entry for a date without trades. *)
Lemma groupByDate_lookup (l : list (Trade F)) date :
  groupByDate l !! date
  = match tradesOn date l with
    | [] => None
    | dayTrades => Some dayTrades
    end.
Proof.
  induction l as [|trade l IH] using rev_ind; [done|].
  unfold groupByDate in *. rewrite foldl_app. simpl. unfold addToDate at 1.
  rewrite tradesOn_snoc, lookup_insert. case_decide as Hd.
  - subst date. rewrite IH. by destruct (tradesOn _ l).
  - rewrite IH. by rewrite app_nil_r.
Qed.

(** Writing one record per entry of a list without repeated keys. *)
Lemma foldl_insert_lookup {A B : Type} (f : string → A → B) (kvs : list (string * A))
    (m : gmap string B) (key : string) :
  NoDup kvs.*1 →
  foldl (λ acc entry, <[entry.1 := f entry.1 entry.2]> acc) m kvs !! key
  = match list_to_map (M:=gmap string A) kvs !! key with
    | Some v => Some (f key v)
    | None => m !! key
    end.
Proof.
  revert m. induction kvs as [|[k v] kvs IH]; intros m Hnd; [done|].
  rewrite fmap_cons in Hnd. apply NoDup_cons in Hnd as [Hk Hnd].
  simpl. rewrite IH by done. rewrite !lookup_insert.
  simpl in Hk. case_decide as Hkey; [|done].
  subst key. apply not_elem_of_list_to_map_1 in Hk. by rewrite Hk.
Qed.

Lemma mapRange_to_map {A : Type} (m : gmap string A) :
  NoDup (mapRange m).*1 ∧ list_to_map (mapRange m) = m.
Proof.
  pose proof (mapRange_perm A m) as Hperm. split.
  - rewrite Hperm. apply NoDup_fst_map_to_list.
  - rewrite <-(list_to_map_to_list m) at 2.
    apply list_to_map_proper; [|done].
    rewrite Hperm. apply NoDup_fst_map_to_list.
Qed.

Lemma calculateDailyPnLFromTrades_lookup (l : list (Trade F)) date :
  calculateDailyPnLFromTrades l !! date
  = match tradesOn date l with
    | [] => None
    | dayTrades => Some (dailyRecord date dayTrades)
    end.
Proof.
  unfold calculateDailyPnLFromTrades.
  destruct (mapRange_to_map (groupByDate l)) as [Hnd Hmap].
  rewrite (foldl_insert_lookup dailyRecord) by done.
  rewrite Hmap, groupByDate_lookup, lookup_empty.
  by destruct (tradesOn date l).
Qed.

(** C2, amended.  [calculateDailyPnLFromTrades] has one record per date to
    which the time of some trade formats, in the location that time value
    carries; the record counts the trades that format to its date and holds
    [calculatePnLForDay] of exactly those trades, in their order.  Two
    trades format to the same date, and so fall in the same record, if and
    only if their times lie in the same calendar day of their locations; for
    a time located in UTC that day is the UTC day. *)
Theorem daily_grouping (l : list (Trade F)) :
  (∀ date,
     calculateDailyPnLFromTrades l !! date
     = match tradesOn date l with
       | [] => None
       | dayTrades =>
         Some {| Date := date;
                 TradeCount := length dayTrades;
                 DailyPnL_ := calculatePnLForDay dayTrades;
                 CumulativePnL := fzero |}
       end)
  ∧ (∀ trade, trade ∈ l →
       trade ∈ tradesOn (gotime.FormatDate (Time trade)) l)
  ∧ (∀ t1 t2 : Trade F,
       gotime.FormatDate (Time t1) = gotime.FormatDate (Time t2)
       ↔ gotime.localDay (Time t1) = gotime.localDay (Time t2))
  ∧ (∀ t : Trade F,
       gotime.zoneOffset (Time t) = 0 → gotime.localDay (Time t) = gotime.utcDay (Time t)).
Proof.
  repeat split.
  - intros date. apply calculateDailyPnLFromTrades_lookup.
  - intros trade Hin. unfold tradesOn. by apply list_elem_of_filter.
  - apply FormatDate_inj_day.
  - intros Hday. unfold gotime.FormatDate. by rewrite Hday.
  - intros t Hoff. unfold gotime.localDay, gotime.utcDay. rewrite Hoff. f_equal. lia.
Qed.

End Daily.

(** * Trades that are neither buys nor sells *)

Section OtherSide.
Context {F : Type} {ops : Float64Ops F} {rt : GoRuntime} {laws : GoRuntimeLaws rt}.

Lemma applyTrade_other (pos : Position F) (trade : Trade F) :
  Side trade ≠ "B"%string → Side trade ≠ "A"%string → applyTrade pos trade = pos.
Proof.
  intros HB HA. unfold applyTrade.
  apply String.eqb_neq in HB, HA. by rewrite HB, HA.
Qed.

Lemma bookTrade_other (m : gmap string (Position F)) (trade : Trade F) :
  Side trade ≠ "B"%string → Side trade ≠ "A"%string →
  bookTrade m trade
  = match m !! Coin trade with
    | Some _ => m
    | None => <[Coin trade := zeroPosition]> m
    end.
Proof.
  intros HB HA. apply map_eq. intros coin.
  rewrite bookTrade_lookup, applyTrade_other by done.
  case_decide as Hc.
  - subst coin. destruct (m !! Coin trade) eqn:Hm; simpl.
    + by rewrite Hm.
    + by rewrite lookup_insert_eq.
  - destruct (m !! Coin trade); [done|]. by rewrite lookup_insert_ne.
Qed.

(** A position of zero adds nothing to the total. *)
Lemma sumPositions_insert_zero {exact : ExactArith F} (m : gmap string (Position F)) coin :
  m !! coin = None →
  foldl addPosition fzero (mapRange (<[coin := zeroPosition]> m))
  = foldl addPosition fzero (mapRange m).
Proof.
  intros Hm.
  rewrite (foldl_commute_perm addPosition _ ((coin, zeroPosition) :: mapRange m)
             addPosition_commute).
  - simpl. unfold addPosition at 2. simpl. by rewrite fsub_0_0, fadd_0_r.
  - rewrite !mapRange_perm. by apply map_to_list_insert.
Qed.

(** Such a trade leaves the P&L of a day as it is without it. *)
Lemma dayPnL_other_side {exact : ExactArith F} (l1 l2 : list (Trade F)) (trade : Trade F) :
  Side trade ≠ "B"%string → Side trade ≠ "A"%string →
  calculatePnLForDay (l1 ++ trade :: l2) = calculatePnLForDay (l1 ++ l2).
Proof.
  intros HB HA.
  rewrite (calculatePnLForDay_perm rt rt (laws1:=laws) (laws2:=laws)
             (l1 ++ trade :: l2) ((l1 ++ l2) ++ [trade])).
  2:{ by rewrite <-Permutation_middle, <-Permutation_cons_append. }
  unfold calculatePnLForDay. rewrite foldl_app. simpl.
  rewrite bookTrade_other by done.
  destruct (foldl bookTrade ∅ (l1 ++ l2) !! Coin trade) eqn:Hm; [done|].
  by apply sumPositions_insert_zero.
Qed.

Lemma withPosition_lookup (coin : string) (m : gmap string (Position F)) (k : string) :
  withPosition coin m !! k
  = if decide (k = coin) then Some (default zeroPosition (m !! coin)) else m !! k.
Proof.
  unfold withPosition. case_decide as Hk.
  - subst k. destruct (m !! coin) as [pos|] eqn:Hm; simpl; [done|].
    by rewrite lookup_insert_eq.
  - destruct (m !! coin); [done|]. by rewrite lookup_insert_ne.
Qed.

(** Booking a trade does the same to a map in which [coin] already has its
    position. *)
Lemma bookTrade_withPosition (coin : string) (m : gmap string (Position F)) (t : Trade F) :
  bookTrade (withPosition coin m) t = withPosition coin (bookTrade m t).
Proof.
  apply map_eq. intros k.
  rewrite bookTrade_lookup, !withPosition_lookup, !bookTrade_lookup.
  destruct (decide (k = Coin t)) as [Hk|Hk], (decide (k = coin)) as [Hc|Hc]; simpl.
  - subst k. subst coin. by rewrite decide_True by done.
  - done.
  - subst k. by rewrite decide_False by done.
  - done.
Qed.

Lemma foldl_bookTrade_withPosition (coin : string) (l : list (Trade F))
    (m : gmap string (Position F)) :
  foldl bookTrade (withPosition coin m) l = withPosition coin (foldl bookTrade m l).
Proof.
  revert m. induction l as [|t l IH]; intros m; [done|].
  simpl. by rewrite bookTrade_withPosition, IH.
Qed.

(** A trade that is neither a buy nor a sale leaves in the positions only
    that its coin has one. *)
Lemma positions_other_side (l1 l2 : list (Trade F)) (trade : Trade F) :
  Side trade ≠ "B"%string → Side trade ≠ "A"%string →
  foldl bookTrade ∅ (l1 ++ trade :: l2)
  = withPosition (Coin trade) (foldl bookTrade ∅ (l1 ++ l2)).
Proof.
  intros HB HA. rewrite !foldl_app. simpl.
  rewrite bookTrade_other by done.
  apply foldl_bookTrade_withPosition.
Qed.


End OtherSide.

(** * The summary *)

Section StringOrder.

Lemma ltb_lts (a b : string) : String.ltb a b = true ↔ OrderedTypeEx.String_as_OT.lt a b.
Proof.
  rewrite <-OrderedTypeEx.String_as_OT.cmp_lt.
  unfold String.ltb, OrderedTypeEx.String_as_OT.cmp.
  by destruct (String.compare a b).
Qed.

Lemma ltb_irrefl (a : string) : String.ltb a a = false.
Proof.
  destruct (String.ltb a a) eqn:Hlt; [|done].
  apply ltb_lts in Hlt. by apply OrderedTypeEx.String_as_OT.lt_not_eq in Hlt.
Qed.

Lemma ltb_trans (a b c : string) :
  String.ltb a b = true → String.ltb b c = true → String.ltb a c = true.
Proof.
  rewrite !ltb_lts. apply OrderedTypeEx.String_as_OT.lt_trans.
Qed.

(** Two strings are equal or one is below the other. *)
Lemma ltb_trichotomy (a b : string) :
  String.ltb a b = true ∨ a = b ∨ String.ltb b a = true.
Proof.
  unfold String.ltb. rewrite (String.compare_antisym b a).
  destruct (String.compare a b) eqn:Hc; simpl; auto.
  right; left. by apply String.compare_eq_iff.
Qed.

Lemma ltb_neg_trans (a b c : string) :
  String.ltb a b = false → String.ltb b c = false → String.ltb a c = false.
Proof.
  intros Hab Hbc. destruct (String.ltb a c) eqn:Hac; [|done].
  destruct (ltb_trichotomy a b) as [Hlt|[->|Hlt]].
  - by rewrite Hlt in Hab.
  - by rewrite Hac in Hbc.
  - by rewrite (ltb_trans b a c Hlt Hac) in Hbc.
Qed.

End StringOrder.

Section Summary.
Context {F : Type} {ops : Float64Ops F} {rt : GoRuntime} {laws : GoRuntimeLaws rt}.

Lemma calculateDailyPnLFromTrades_keyed (l : list (Trade F)) :
  KeyedByDate (calculateDailyPnLFromTrades l).
Proof.
  intros date record. rewrite calculateDailyPnLFromTrades_lookup.
  destruct (tradesOn date l); [done|]. by intros [= <-].
Qed.

Lemma dateLess_swo :
  StrictWeakOrder (λ a b : DailyPnL F, String.ltb (Date b) (Date a)).
Proof.
  split.
  - intros a. apply ltb_irrefl.
  - intros a b c Hab Hbc. by apply (ltb_trans _ (Date b)).
  - intros a b c Hab Hbc. by apply (ltb_neg_trans _ (Date b)).
Qed.

Lemma sortedRecords_perm (rs : ReconciliationService F) :
  sortedRecords rs ≡ₚ (map_to_list (dailyPnL rs)).*2.
Proof. unfold sortedRecords. by rewrite sortSlice_perm, mapRange_perm. Qed.

Lemma keyed_dates_NoDup (table : gmap string (DailyPnL F)) :
  KeyedByDate table → NoDup (Date <$> (map_to_list table).*2).
Proof.
  intros Hkeyed.
  assert (Date <$> (map_to_list table).*2 = (map_to_list table).*1) as ->.
  { rewrite <-list_fmap_compose. apply Forall_fmap_ext_1, Forall_forall.
    intros [date record] Hin%elem_of_map_to_list. by apply Hkeyed. }
  apply NoDup_fst_map_to_list.
Qed.

(** Sorted with [sort.Slice] and pairwise distinct: strictly descending. *)
Lemma sorted_distinct_strict (l : list (DailyPnL F)) :
  StronglySorted (λ a b, String.ltb (Date a) (Date b) = false) l →
  NoDup (Date <$> l) →
  StronglySorted dateAfter l.
Proof.
  induction 1 as [|a l Hl IH Ha]; intros Hnd; [constructor|].
  rewrite fmap_cons in Hnd. apply NoDup_cons in Hnd as [Hnotin Hnd].
  constructor; [by apply IH|].
  rewrite Forall_forall in Ha |- *. intros b Hb. specialize (Ha b Hb).
  unfold dateAfter.
  destruct (ltb_trichotomy (Date a) (Date b)) as [Hlt|[Heq|Hlt]]; [by rewrite Hlt in Ha| |done].
  exfalso. apply Hnotin. rewrite Heq. apply list_elem_of_fmap. by exists b.
Qed.

Lemma sortedRecords_strict (rs : ReconciliationService F) :
  KeyedByDate (dailyPnL rs) → StronglySorted dateAfter (sortedRecords rs).
Proof.
  intros Hkeyed. apply sorted_distinct_strict.
  - apply (sortSlice_sorted _ _ _ dateLess_swo).
  - rewrite sortedRecords_perm. by apply keyed_dates_NoDup.
Qed.

Lemma runningTotal_cons (record : DailyPnL F) l :
  runningTotal (record :: l) = fadd (runningTotal l) (DailyPnL_ record).
Proof.
  unfold runningTotal, fsum. by rewrite fmap_cons, reverse_cons, foldl_app.
Qed.

Lemma cumulate_total (l : list (DailyPnL F)) : (cumulate l).1 = runningTotal l.
Proof.
  induction l as [|record l IH]; [done|].
  rewrite runningTotal_cons, <-IH. simpl. by destruct (cumulate l).
Qed.

Lemma cumulate_lookup (l : list (DailyPnL F)) (i : nat) :
  (cumulate l).2 !! i
  = (λ record, withCumulative record (runningTotal (drop i l))) <$> l !! i.
Proof.
  revert i. induction l as [|record l IH]; intros i; [done|].
  pose proof (cumulate_total l) as Htot.
  simpl. destruct (cumulate l) as [cumulative rest] eqn:Hc. simpl in *.
  destruct i as [|i]; simpl.
  - by rewrite runningTotal_cons, Htot.
  - apply IH.
Qed.

Lemma cumulate_dayFacts (l : list (DailyPnL F)) :
  dayFacts <$> (cumulate l).2 = dayFacts <$> l.
Proof.
  induction l as [|record l IH]; [done|].
  simpl. destruct (cumulate l) as [cumulative rest]. simpl in *.
  by f_equal.
Qed.

Lemma StronglySorted_fmap_inv {A B : Type} (f : A → B) (R1 : relation A) (R2 : relation B)
    (l : list A) :
  (∀ x y, R2 (f x) (f y) → R1 x y) →
  StronglySorted R2 (f <$> l) → StronglySorted R1 l.
Proof.
  intros HR. induction l as [|x l IH]; intros Hs; [constructor|].
  rewrite fmap_cons in Hs. apply StronglySorted_inv in Hs as [Hl Hx].
  constructor; [by apply IH|].
  rewrite Forall_fmap in Hx. eapply Forall_impl; [exact Hx|]. intros y. apply HR.
Qed.

Lemma StronglySorted_dayFacts (l l' : list (DailyPnL F)) :
  dayFacts <$> l = dayFacts <$> l' →
  StronglySorted dateAfter l' → StronglySorted dateAfter l.
Proof.
  intros Heq Hs.
  apply (StronglySorted_fmap_inv dayFacts dateAfter
           (λ x y : string * nat * F, String.ltb y.1.1 x.1.1 = true)); [done|].
  rewrite Heq.
  by apply (StronglySorted_fmap dayFacts dateAfter
              (λ x y : string * nat * F, String.ltb y.1.1 x.1.1 = true)).
Qed.

Lemma leb_ltb (a b : string) : String.leb a b = true ↔ String.ltb b a = false.
Proof.
  unfold String.leb, String.ltb. rewrite (String.compare_antisym a b).
  by destruct (String.compare b a).
Qed.

Lemma dayFacts_daily (l : list (DailyPnL F)) :
  DailyPnL_ <$> l = snd <$> (dayFacts <$> l).
Proof. by rewrite <-list_fmap_compose. Qed.

Lemma dayFacts_daily_drop (l l' : list (DailyPnL F)) (i : nat) :
  dayFacts <$> l = dayFacts <$> l' →
  DailyPnL_ <$> drop i l = DailyPnL_ <$> drop i l'.
Proof. intros Heq. by rewrite !dayFacts_daily, !fmap_drop, Heq. Qed.

(** In a strictly descending list the records from position [i] on are those
    whose date is at most the date at [i]. *)
Lemma descending_suffix (l : list (DailyPnL F)) (i : nat) (record other : DailyPnL F) :
  StronglySorted dateAfter l → l !! i = Some record → other ∈ l →
  other ∈ drop i l ↔ String.leb (Date other) (Date record) = true.
Proof.
  intros Hs Hi Hin.
  rewrite <-(take_drop i l) in Hs, Hin.
  rewrite (drop_S l record i Hi) in Hs, Hin |- *.
  apply StronglySorted_app in Hs as (Hcross & _ & Htail).
  apply StronglySorted_inv in Htail as [_ Hrest]. rewrite Forall_forall in Hrest.
  split.
  - intros [->|Hlater]%elem_of_cons.
    + apply leb_ltb, ltb_irrefl.
    + specialize (Hrest other Hlater). unfold dateAfter in Hrest.
      apply leb_ltb. destruct (String.ltb (Date record) (Date other)) eqn:Hlt; [|done].
      pose proof (ltb_trans _ _ _ Hrest Hlt) as Hcycle. by rewrite ltb_irrefl in Hcycle.
  - intros Hle. apply elem_of_app in Hin as [Hearlier|Hlater]; [|done].
    specialize (Hcross other record Hearlier (list_elem_of_here _ _)).
    unfold dateAfter in Hcross. apply leb_ltb in Hle. by rewrite Hcross in Hle.
Qed.

Lemma fsum_perm {exact : ExactArith F} (l l' : list F) : l ≡ₚ l' → fsum l = fsum l'.
Proof.
  intros Hperm. unfold fsum. apply foldl_commute_perm; [|done].
  intros a x y. apply fadd_swap.
Qed.

Lemma runningTotal_fsum {exact : ExactArith F} (l : list (DailyPnL F)) :
  runningTotal l = fsum (DailyPnL_ <$> l).
Proof. unfold runningTotal. apply fsum_perm. by rewrite reverse_Permutation. Qed.

(** C6.  For a table keyed by date, [GetPnLSummary] returns the table's
    records, each with its date, count and daily P&L unchanged, in strictly
    descending order of date.  The cumulative P&L of a record is the daily
    P&L summed from the earliest date up to its own date, in ascending
    order, and the records summed are those whose date is at most its own.
    The total is the sum of the daily P&L of the records, added in the order
    returned; when addition is exact this is the sum over the table in any
    order and the cumulative P&L of the first record returned, the most
    recent date (zero for an empty table). *)
Theorem summary_sorted_cumulative (rs : ReconciliationService F) :
  KeyedByDate (dailyPnL rs) →
  let summary := GetPnLSummary rs in
  let records := DailyRecords summary in
  StronglySorted dateAfter records
  ∧ dayFacts <$> records ≡ₚ dayFacts <$> (map_to_list (dailyPnL rs)).*2
  ∧ (∀ i record, records !! i = Some record →
       CumulativePnL record = fsum (reverse (DailyPnL_ <$> drop i records))
       ∧ ∀ other, other ∈ records →
           other ∈ drop i records ↔ String.leb (Date other) (Date record) = true)
  ∧ TotalPnL summary = fsum (DailyPnL_ <$> records)
  ∧ (ExactArith F →
     TotalPnL summary = fsum (DailyPnL_ <$> (map_to_list (dailyPnL rs)).*2)
     ∧ TotalPnL summary = default fzero (CumulativePnL <$> head records)).
Proof.
  intros Hkeyed summary records.
  assert (records = (cumulate (sortedRecords rs)).2) as Hrecords by done.
  assert (TotalPnL summary = fsum (DailyPnL_ <$> records)) as Htotal.
  { unfold fsum. by rewrite foldl_fmap. }
  pose proof (cumulate_dayFacts (sortedRecords rs)) as Hfacts. rewrite <-Hrecords in Hfacts.
  assert (StronglySorted dateAfter records) as Hsorted.
  { eapply StronglySorted_dayFacts; [exact Hfacts|]. by apply sortedRecords_strict. }
  assert (dayFacts <$> records ≡ₚ dayFacts <$> (map_to_list (dailyPnL rs)).*2) as Hperm.
  { rewrite Hfacts. by rewrite sortedRecords_perm. }
  split; [done|]. split; [done|]. split; [|split; [done|intros exact; split]].
  - intros i record Hi. split; [|intros other Hother; by apply descending_suffix].
    rewrite Hrecords, cumulate_lookup in Hi.
    destruct (sortedRecords rs !! i) as [r0|]; [|done].
    injection Hi as <-. simpl. unfold runningTotal.
    by rewrite (dayFacts_daily_drop records (sortedRecords rs) i Hfacts).
  - rewrite Htotal. apply fsum_perm. rewrite !dayFacts_daily. by rewrite Hperm.
  - rewrite Htotal.
    destruct records as [|record rest] eqn:Hrec; [done|]. simpl.
    assert ((cumulate (sortedRecords rs)).2 !! 0%nat = Some record) as H0
      by (by rewrite <-Hrecords).
    rewrite cumulate_lookup in H0.
    destruct (sortedRecords rs !! 0%nat) as [r0|]; [|done].
    injection H0 as <-. simpl. rewrite drop_0, runningTotal_fsum.
    pose proof (dayFacts_daily_drop _ _ 0 Hfacts) as Hdaily. rewrite !drop_0 in Hdaily.
    by rewrite <-Hdaily.
Qed.

(** The tables the store can hold are keyed by date: the empty one it
    starts with, and whatever a call leaves. *)
Lemma reachable_table_keyed (rs : ReconciliationService F) address days now now' tape :
  KeyedByDate (dailyPnL (NewReconciliationService (F:=F)))
  ∧ (KeyedByDate (dailyPnL rs) →
     KeyedByDate (dailyPnL (FetchAndReconcile rs address days now now' tape).1.2)).
Proof.
  split.
  - intros date record Hlk. simpl in Hlk. by rewrite lookup_empty in Hlk.
  - intros Hkeyed. unfold FetchAndReconcile, FetchTrades. cbv zeta.
    repeat match goal with
           | |- context [match ?x with _ => _ end] => destruct x
           end;
    simpl; first [exact Hkeyed | apply calculateDailyPnLFromTrades_keyed].
Qed.

End Summary.

(** * The statements at concrete inputs *)

Section InUTC.
#[local] Existing Instance Z_ops.
#[local] Existing Instance utcRuntime.

(** C1, at a concrete store.  The cache is half an hour old and one day is
    asked for with one day cached.  [FetchAndReconcile] fetches
    [lastFetchTime, now], keeps the cached sale, and computes the daily table
    from the trades that pass the cut-off [now - 1 day]: the table is empty,
    while the table of the whole merged cache has the record of
    2024-12-31. *)
Theorem reconcile_same_range_filters :
  FetchAndReconcile SameRange.store "0xabc" 1 SameRange.now SameRange.now [RespFills []]
  = (ReturnNil,
     {| accountCache := {[ "0xabc"%string :=
                             {| trades := [SameRange.oldSale];
                                lastFetchTime := SameRange.now;
                                cachedDays := 1 |} ]};
        dailyPnL := ∅ |},
     [EvRequest "0xabc" 1735725600000 1735727400000])
  ∧ calculateDailyPnLFromTrades [SameRange.oldSale]
    = {[ "2024-12-31"%string :=
           {| Date := "2024-12-31"; TradeCount := 1;
              DailyPnL_ := 51000; CumulativePnL := 0 |} ]}.
Proof. split; vm_compute; reflexivity. Qed.

(** C4 as stated fails on the full-fetch branch: with no cache for the
    account and a source that answers with two fills of one identity, the
    call succeeds and caches both trades, two entries with one identity
    triple. *)
Lemma full_fetch_keeps_duplicates :
  (FetchAndReconcile NewReconciliationService "0xabc" 30
     DuplicateFills.now DuplicateFills.now
     [RespFills [DuplicateFills.fill; DuplicateFills.fill]]).1
  = (ReturnNil,
     {| accountCache := {[ "0xabc"%string :=
                             {| trades := [DuplicateFills.trade; DuplicateFills.trade];
                                lastFetchTime := DuplicateFills.now;
                                cachedDays := 30 |} ]};
        dailyPnL := {[ "2025-01-01"%string :=
                         {| Date := "2025-01-01"; TradeCount := 2;
                            DailyPnL_ := -100000; CumulativePnL := 0 |} ]} |})
  ∧ ¬ CacheInvariant [DuplicateFills.trade; DuplicateFills.trade].
Proof.
  split; [vm_compute; reflexivity|].
  intros [_ Hnd]. simpl in Hnd. apply NoDup_cons in Hnd as [Hnotin _].
  apply Hnotin. by left.
Qed.

(** C7 as stated fails when [A] itself repeats an identity: every element
    of [B] has the identity triple of an element of [A], and the merge is
    shorter than [A]. *)
Lemma merge_shrinks_repeated_identity :
  let A := [MergeExamples.buy "BTC"; MergeExamples.buy "BTC"] in
  let B := [MergeExamples.buy "BTC"] in
  (∀ b, b ∈ B → ∃ a, a ∈ A ∧ identity a = identity b)
  ∧ length (mergeTrades A B) = 1%nat
  ∧ length A = 2%nat.
Proof.
  split; [|split; vm_compute; reflexivity].
  intros b ->%list_elem_of_singleton. exists (MergeExamples.buy "BTC").
  split; [by left|done].
Qed.

(** C5 as stated fails: a list that repeats an identity comes back shorter,
    and two trades of one timestamp come back in the order the runtime
    chooses, here not the order they had. *)
Lemma merge_self_changes_list :
  let twice := [MergeExamples.buy "BTC"; MergeExamples.buy "BTC"] in
  let tied := [MergeExamples.buy "BTC"; MergeExamples.buy "ETH"] in
  mergeTrades twice twice = [MergeExamples.buy "BTC"]
  ∧ mergeTrades twice twice ≠ twice
  ∧ mergeTrades tied tied = [MergeExamples.buy "ETH"; MergeExamples.buy "BTC"]
  ∧ mergeTrades tied tied ≠ tied.
Proof.
  assert (mergeTrades [MergeExamples.buy "BTC"; MergeExamples.buy "BTC"]
            [MergeExamples.buy "BTC"; MergeExamples.buy "BTC"]
          = [MergeExamples.buy "BTC"]) as Htwice by (vm_compute; reflexivity).
  assert (mergeTrades [MergeExamples.buy "BTC"; MergeExamples.buy "ETH"]
            [MergeExamples.buy "BTC"; MergeExamples.buy "ETH"]
          = [MergeExamples.buy "ETH"; MergeExamples.buy "BTC"]) as Htied
    by (vm_compute; reflexivity).
  cbv zeta. rewrite Htwice, Htied. by repeat split.
Qed.

End InUTC.

Section EastOfUTC.
#[local] Existing Instance Z_ops.
#[local] Existing Instance eastRuntime.

(** C2 as stated fails where the local zone is not UTC: the two fills are
    converted to times in the local zone, both lie in the UTC day
    2025-01-01, and the aggregation puts them in two records, the sale under
    2025-01-02. *)
Lemma utc_day_split_by_local_midnight :
  convertFills [] [LocalZone.buyFill; LocalZone.sellFill]
  = [LocalZone.buyTrade; LocalZone.sellTrade]
  ∧ gotime.utcDay (Time LocalZone.buyTrade) = gotime.utcDay (Time LocalZone.sellTrade)
  ∧ calculateDailyPnLFromTrades [LocalZone.buyTrade; LocalZone.sellTrade]
    = {[ "2025-01-01"%string :=
           {| Date := "2025-01-01"; TradeCount := 1;
              DailyPnL_ := -50000; CumulativePnL := 0 |};
         "2025-01-02"%string :=
           {| Date := "2025-01-02"; TradeCount := 1;
              DailyPnL_ := 51000; CumulativePnL := 0 |} ]}.
Proof. repeat split; vm_compute; reflexivity. Qed.

End EastOfUTC.

Section InBinary64.
#[local] Existing Instance binary64_ops.
#[local] Existing Instance utcRuntime.

(** C6 as stated fails in [float64]: the total is not the cumulative value
    of the most recent date.  After a full fetch of three sales worth 0.1,
    0.2 and 0.3 on three days the table has these as daily values; the
    backward loop sums them from the earliest date, (0.1 + 0.2) + 0.3, the
    forward loop from the latest, (0.3 + 0.2) + 0.1.  The total is the
    float nearest to 0.6 and the cumulative value of 2025-01-03 is the next
    float above it. *)
Lemma total_differs_from_latest_cumulative :
  let summary := GetPnLSummary Rounding.store in
  let records := DailyRecords summary in
  (FetchAndReconcile NewReconciliationService "0xabc" 30 Rounding.now Rounding.now
     [RespFills Rounding.sales]).1
  = (ReturnNil, Rounding.store)
  ∧ GoRuntimeLaws utcRuntime
  ∧ KeyedByDate (dailyPnL Rounding.store)
  ∧ (λ record, (Date record, TradeCount record, Some (DailyPnL_ record))) <$> records
    = [("2025-01-03"%string, 1%nat, ParseFloat "0.3");
       ("2025-01-02"%string, 1%nat, ParseFloat "0.2");
       ("2025-01-01"%string, 1%nat, ParseFloat "0.1")]
  ∧ Some (TotalPnL summary) = ParseFloat "0.6"
  ∧ CumulativePnL <$> head records = Some (PrimFloat.next_up (TotalPnL summary))
  ∧ TotalPnL summary ≠ default fzero (CumulativePnL <$> head records).
Proof.
  cbv zeta. split; [vm_compute; reflexivity|].
  split; [exact (refRuntime_laws 0)|].
  split; [apply (calculateDailyPnLFromTrades_keyed (laws:=refRuntime_laws 0))|].
  split; [vm_compute; reflexivity|]. split; [vm_compute; reflexivity|].
  split; [vm_compute; reflexivity|].
  intros Heq.
  assert (PrimFloat.ltb (TotalPnL (GetPnLSummary Rounding.store))
            (default fzero
               (CumulativePnL <$> head (DailyRecords (GetPnLSummary Rounding.store))))
          = true) as Hlt by (vm_compute; reflexivity).
  rewrite <-Heq in Hlt. vm_compute in Hlt. discriminate.
Qed.

End InBinary64.

Section InBinary64EvenBackward.
#[local] Existing Instance binary64_ops.
#[local] Existing Instance evenBackwardRuntime.


End InBinary64EvenBackward.

Section Witnesses.
Import Instances.
#[local] Existing Instance Z_ops.
#[local] Existing Instance utcRuntime.


Lemma reconcile_source_failure_witness :
  (∃ s e, (FetchTradesInRange (F:=Z) "0xabc" s e refusal).1 = FetchFailed refused)
  ∧ ∃ events,
      FetchAndReconcile someStore "0xabc" 7 halfPast halfPast refusal
      = (ReturnErr refused, someStore, events).
Proof.
  assert (∃ s e, (FetchTradesInRange (F:=Z) "0xabc" s e refusal).1 = FetchFailed refused)
    as Hfail by (by exists start, end_).
  split; [exact Hfail|].
  exact (reconcile_source_failure someStore "0xabc" 7 halfPast halfPast refusal refused Hfail).
Defined.

Lemma reconcile_cache_invariant_witness :
  (GoRuntimeLaws utcRuntime
   ∧ FetchAndReconcile someStore "0xabc" 7 halfPast halfPast oneNew
     = (ReturnNil, storeAfter, [EvRequest "0xabc" 1735725600000 1735727400000]))
  ∧ ((∃ cache',
        accountCache storeAfter !! "0xabc" = Some cache'
        ∧ CachedListAfter someStore "0xabc" 7 halfPast halfPast oneNew (trades cache')
        ∧ ((∀ cache, accountCache someStore !! "0xabc" = Some cache →
              CacheInvariant (trades cache)) →
           (∀ l, (FetchTrades "0xabc" 7 halfPast oneNew).1 = Fetched l → CacheInvariant l) →
           CacheInvariant (trades cache')))
     ∧ (∀ existing new : list (Trade Z), CacheInvariant (mergeTrades existing new))).
Proof.
  assert (FetchAndReconcile someStore "0xabc" 7 halfPast halfPast oneNew
          = (ReturnNil, storeAfter, [EvRequest "0xabc" 1735725600000 1735727400000]))
    as Hrun by (vm_compute; reflexivity).
  split; [split; [exact (refRuntime_laws 0)|exact Hrun]|].
  exact (reconcile_cache_invariant (laws:=refRuntime_laws 0)
           someStore "0xabc" 7 halfPast halfPast oneNew storeAfter _ Hrun).
Defined.

Lemma merge_idempotent_witness :
  (GoRuntimeLaws utcRuntime
   ∧ StronglySorted timeLt [bought; sold] ∧ NoDup (tradeKey <$> [bought; sold]))
  ∧ mergeTrades [bought; sold] [bought; sold] = [bought; sold].
Proof.
  assert (StronglySorted timeLt [bought; sold]) as Hsorted by repeat constructor.
  assert (NoDup (tradeKey <$> [bought; sold])) as Hkeys.
  { apply (bool_decide_unpack _). vm_compute. exact I. }
  split; [by split; [exact (refRuntime_laws 0)|]|].
  exact (merge_idempotent (laws:=refRuntime_laws 0) [bought; sold] Hsorted Hkeys).
Defined.

Lemma merge_dedup_length_witness :
  (GoRuntimeLaws utcRuntime
   ∧ NoDup (tradeKey <$> [bought; sold])
   ∧ ∀ b, b ∈ [sold] → ∃ a, a ∈ [bought; sold] ∧ identity a = identity b)
  ∧ length (mergeTrades [bought; sold] [sold]) = length [bought; sold].
Proof.
  assert (NoDup (tradeKey <$> [bought; sold])) as Hkeys.
  { apply (bool_decide_unpack _). vm_compute. exact I. }
  assert (∀ b, b ∈ [sold] → ∃ a, a ∈ [bought; sold] ∧ identity a = identity b) as Hin.
  { intros b ->%list_elem_of_singleton. exists sold. split; [|done]. right. by left. }
  split; [by split; [exact (refRuntime_laws 0)|]|].
  exact (merge_dedup_length (laws:=refRuntime_laws 0) [bought; sold] [sold] Hkeys Hin).
Defined.

Lemma dayPnL_permutation_witness :
  (ExactArith Z ∧ GoRuntimeLaws utcRuntime ∧ GoRuntimeLaws eastRuntime
   ∧ [bought; sold; settled] ≡ₚ [settled; sold; bought])
  ∧ @calculatePnLForDay Z Z_ops utcRuntime [bought; sold; settled]
    = @calculatePnLForDay Z Z_ops eastRuntime [settled; sold; bought].
Proof.
  assert ([bought; sold; settled] ≡ₚ [settled; sold; bought]) as Hperm.
  { symmetry. exact (reverse_Permutation [bought; sold; settled]). }
  split; [by split; [exact Z_exact|split; [exact (refRuntime_laws 0)|split; [exact (refRuntime_laws 3600)|]]]|].
  exact (dayPnL_permutation (exact:=Z_exact) utcRuntime eastRuntime
           (laws1:=refRuntime_laws 0) (laws2:=refRuntime_laws 3600) _ _ Hperm).
Defined.

Lemma daily_grouping_witness :
  GoRuntimeLaws utcRuntime
  ∧ ((∀ date,
        calculateDailyPnLFromTrades [bought; sold; settled] !! date
        = match tradesOn date [bought; sold; settled] with
          | [] => None
          | dayTrades =>
            Some {| Date := date;
                    TradeCount := length dayTrades;
                    DailyPnL_ := calculatePnLForDay dayTrades;
                    CumulativePnL := fzero |}
          end)
     ∧ (∀ trade, trade ∈ [bought; sold; settled] →
          trade ∈ tradesOn (gotime.FormatDate (Time trade)) [bought; sold; settled])
     ∧ (∀ t1 t2 : Trade Z,
          gotime.FormatDate (Time t1) = gotime.FormatDate (Time t2)
          ↔ gotime.localDay (Time t1) = gotime.localDay (Time t2))
     ∧ (∀ t : Trade Z,
          gotime.zoneOffset (Time t) = 0 →
          gotime.localDay (Time t) = gotime.utcDay (Time t))).
Proof.
  split; [exact (refRuntime_laws 0)|].
  exact (daily_grouping (laws:=refRuntime_laws 0) [bought; sold; settled]).
Defined.


Lemma summary_sorted_cumulative_witness :
  (GoRuntimeLaws utcRuntime ∧ KeyedByDate (dailyPnL threeTrades) ∧ ExactArith Z)
  ∧ (let summary := GetPnLSummary threeTrades in
     let records := DailyRecords summary in
     StronglySorted dateAfter records
     ∧ dayFacts <$> records ≡ₚ dayFacts <$> (map_to_list (dailyPnL threeTrades)).*2
     ∧ (∀ i record, records !! i = Some record →
          CumulativePnL record = fsum (reverse (DailyPnL_ <$> drop i records))
          ∧ ∀ other, other ∈ records →
              other ∈ drop i records ↔ String.leb (Date other) (Date record) = true)
     ∧ TotalPnL summary = fsum (DailyPnL_ <$> records)
     ∧ (ExactArith Z →
        TotalPnL summary = fsum (DailyPnL_ <$> (map_to_list (dailyPnL threeTrades)).*2)
        ∧ TotalPnL summary = default fzero (CumulativePnL <$> head records))).
Proof.
  assert (KeyedByDate (dailyPnL threeTrades)) as Hkeyed
    by apply (calculateDailyPnLFromTrades_keyed (laws:=refRuntime_laws 0)).
  split; [by split; [exact (refRuntime_laws 0)|split; [|exact Z_exact]]|].
  exact (summary_sorted_cumulative (laws:=refRuntime_laws 0) threeTrades Hkeyed).
Defined.

End Witnesses.

(** * The trade source, further *)

Section Window.
Context {F : Type} {ops : Float64Ops F} {rt : GoRuntime}.

Lemma paginate_first_request address endTime tape cursor (acc : list (Trade F)) :
  ∃ later, (paginate address endTime tape cursor 0 acc).2
           = EvRequest address cursor endTime :: later.
Proof.
  destruct tape as [|[fills|err] tape]; cbn [paginate]; simpl; [by eexists..| |by eexists].
  destruct (length fills =? 0)%nat; [by eexists|].
  destruct (length fills <? config.MaxTradesPerBatch)%nat; [by eexists|].
  destruct (paginate _ _ tape _ _ _) as [r events]. by eexists.
Qed.

Lemma UnixMilli_Add_ms (t : gotime.Time) (ms : Z) :
  gotime.UnixMilli (gotime.Add t (ms * gotime.Millisecond)) = gotime.UnixMilli t + ms.
Proof.
  unfold gotime.UnixMilli, gotime.Add. simpl.
  unfold gotime.Millisecond. by rewrite Z.div_add by lia.
Qed.

Lemma minusDays_exact (days : Z) :
  0 ≤ days ≤ 106751 → minusDays days = - days * 86400000 * gotime.Millisecond.
Proof.
  intros Hd. unfold minusDays, gotime.Hour, gotime.Second, gotime.Millisecond.
  rewrite (wrap64_id (- days)) by (unfold minInt64, maxInt64; lia).
  rewrite (wrap64_id (- days * 24)) by (unfold minInt64, maxInt64; lia).
  rewrite wrap64_id by (unfold minInt64, maxInt64; lia). lia.
Qed.

Lemma minusDays_wraps (days : Z) :
  106752 ≤ days ≤ 213503 →
  minusDays days = (213503 - days) * 86400000 * gotime.Millisecond + 84873709551616.
Proof.
  intros Hd. unfold minusDays, gotime.Hour, gotime.Second, gotime.Millisecond.
  rewrite (wrap64_id (- days)) by (unfold minInt64, maxInt64; lia).
  rewrite (wrap64_id (- days * 24)) by (unfold minInt64, maxInt64; lia).
  unfold wrap64.
  replace (- days * 24 * (3600 * 1000000000) + 2 ^ 63)
    with ((213503 - days) * 86400000 * 1000000 + 84873709551616 + 2 ^ 63 + (-1) * 2 ^ 64) by lia.
  rewrite Z.mod_add by lia. rewrite Z.mod_small by lia. lia.
Qed.

(** The window [FetchTrades] asks for.  Up to 106751 days the window starts
    that many days of 86,400,000 ms before its end, which is the reading of
    the clock.  From 106752 days on the 64-bit duration
    [-time.Duration(days) * 24 * time.Hour] wraps to a positive one, and the
    window starts after its end. *)
Theorem fetchTrades_window address (days : Z) (now : gotime.Time) (tape : list Response) :
  (0 ≤ days ≤ 106751 →
   ∃ later,
     (FetchTrades (F:=F) address days now tape).2
     = EvRequest address (gotime.UnixMilli now - days * 86400000) (gotime.UnixMilli now)
         :: later)
  ∧ (106752 ≤ days ≤ 213503 →
     ∃ startTime later,
       (FetchTrades (F:=F) address days now tape).2
       = EvRequest address startTime (gotime.UnixMilli now) :: later
       ∧ gotime.UnixMilli now < startTime).
Proof.
  unfold FetchTrades, FetchTradesInRange. split; intros Hd.
  - destruct (paginate_first_request address (gotime.UnixMilli now) tape
                (gotime.UnixMilli (gotime.Add now (minusDays days))) []) as [later ->].
    exists later. rewrite minusDays_exact by done.
    replace (- days * 86400000 * gotime.Millisecond)
      with ((- (days * 86400000)) * gotime.Millisecond) by lia.
    rewrite UnixMilli_Add_ms. f_equal; f_equal; lia.
  - destruct (paginate_first_request address (gotime.UnixMilli now) tape
                (gotime.UnixMilli (gotime.Add now (minusDays days))) []) as [later ->].
    eexists _, later. split; [done|].
    rewrite minusDays_wraps by done.
    unfold gotime.UnixMilli, gotime.Add, gotime.Millisecond. simpl.
    replace (gotime.unixNano now + ((213503 - days) * 86400000 * 1000000 + 84873709551616))
      with ((gotime.unixNano now + 551616)
            + ((213503 - days) * 86400000 + 84873709) * 1000000) by lia.
    rewrite Z.div_add by lia.
    pose proof (Z.div_le_mono (gotime.unixNano now) (gotime.unixNano now + 551616) 1000000).
    lia.
Qed.

End Window.

Section Conversion.
Context {F : Type} {ops : Float64Ops F} {rt : GoRuntime}.

Lemma convertFills_omap (acc : list (Trade F)) (fills : list FillResponse) :
  convertFills acc fills = acc ++ omap convertFillToTrade fills.
Proof.
  revert acc. induction fills as [|fill fills IH]; intros acc; simpl.
  - by rewrite app_nil_r.
  - unfold convertFills in *. simpl. rewrite IH.
    destruct (convertFillToTrade fill); [by rewrite <-app_assoc|done].
Qed.

Lemma convertFillToTrade_Some (fill : FillResponse) (trade : Trade F) :
  convertFillToTrade fill = Some trade →
  parses (F:=F) fill ∧ identity trade = fillIdentity fill
  ∧ ParseFloat (fillPrice fill) = Some (Price trade)
  ∧ ParseFloat (fillSize fill) = Some (Size trade)
  ∧ Value trade = fmul (Price trade) (Size trade).
Proof.
  unfold convertFillToTrade, parses.
  destruct (ParseFloat (fillPrice fill)) as [price|]; [|done].
  destruct (ParseFloat (fillSize fill)) as [size|]; [|done].
  intros [= <-]. repeat split; try by eexists.
  unfold identity, fillIdentity, gotime.UnixMilli, UnixMilliTime, gotime.Millisecond. simpl.
  by rewrite Z.div_mul by lia.
Qed.

Lemma convertFillToTrade_None (fill : FillResponse) :
  convertFillToTrade (F:=F) fill = None ↔ ¬ parses (F:=F) fill.
Proof.
  unfold convertFillToTrade, parses.
  destruct (ParseFloat (fillPrice fill)) as [price|];
    [destruct (ParseFloat (fillSize fill)) as [size|]|].
  - split; [done|]. intros Hn. exfalso. apply Hn. split; by eexists.
  - split; [|done]. intros _ [_ [? ?]]. done.
  - split; [|done]. intros _ [[? ?] _]. done.
Qed.

(** A batch is converted fill by fill: a fill whose price or size does not
    parse is left out and the loop goes on; the others become trades in the
    order of the batch, appended to what was fetched before.  The trade of a
    fill has the fill's time (to the millisecond, in the local zone), coin
    and side, as price and size what [ParseFloat] reads from the fill's price
    and size strings, and as value the product of the two. *)
Theorem convertFills_skips_unparsed (allTrades : list (Trade F)) (fills : list FillResponse) :
  convertFills allTrades fills = allTrades ++ omap convertFillToTrade fills
  ∧ identity <$> omap (convertFillToTrade (F:=F)) fills
    = fillIdentity <$> filter (parses (F:=F)) fills
  ∧ (∀ fill, convertFillToTrade (F:=F) fill = None
             ↔ ParseFloat (F:=F) (fillPrice fill) = None
               ∨ ParseFloat (F:=F) (fillSize fill) = None)
  ∧ (∀ trade, trade ∈ omap (convertFillToTrade (F:=F)) fills →
       Value trade = fmul (Price trade) (Size trade))
  ∧ Forall2 (λ fill trade,
               ParseFloat (fillPrice fill) = Some (Price trade)
               ∧ ParseFloat (fillSize fill) = Some (Size trade)
               ∧ Value trade = fmul (Price trade) (Size trade)
               ∧ Time trade = UnixMilliTime (fillTime fill)
               ∧ Coin trade = fillCoin fill
               ∧ Side trade = fillSide fill)
      (filter (parses (F:=F)) fills) (omap (convertFillToTrade (F:=F)) fills)
  ∧ (∀ fill price size,
       ParseFloat (fillPrice fill) = Some price →
       ParseFloat (fillSize fill) = Some size →
       convertFills allTrades [fill]
       = allTrades ++ [ {| Time := UnixMilliTime (fillTime fill);
                           Coin := fillCoin fill;
                           Side := fillSide fill;
                           Price := price;
                           Size := size;
                           Value := fmul price size |} ]).
Proof.
  split; [apply convertFills_omap|]. split; [|split; [|split; [|split]]].
  - induction fills as [|fill fills IH]; [done|].
    simpl. rewrite filter_cons.
    destruct (convertFillToTrade fill) as [trade|] eqn:Hc.
    + apply convertFillToTrade_Some in Hc as (Hp & Hid & _).
      rewrite decide_True by done. rewrite !fmap_cons. by f_equal.
    + apply convertFillToTrade_None in Hc. by rewrite decide_False by done.
  - intros fill. unfold convertFillToTrade.
    destruct (ParseFloat (fillPrice fill)), (ParseFloat (fillSize fill));
      (split; [intros ?; first [done | by left | by right] | by intros [?|?]]).
  - intros trade (fill & _ & Hc)%list_elem_of_omap.
    by apply convertFillToTrade_Some in Hc as (_ & _ & _ & _ & ?).
  - induction fills as [|fill fills IH]; [constructor|].
    simpl. rewrite filter_cons.
    destruct (convertFillToTrade fill) as [trade|] eqn:Hc.
    + pose proof (convertFillToTrade_Some _ _ Hc) as (Hp & _ & Hprice & Hsize & Hvalue).
      rewrite decide_True by done. constructor; [|exact IH].
      unfold convertFillToTrade in Hc. rewrite Hprice, Hsize in Hc.
      injection Hc as <-. by repeat split.
    + apply convertFillToTrade_None in Hc. by rewrite decide_False by done.
  - intros fill price size Hprice Hsize.
    unfold convertFills, convertFillToTrade. simpl. by rewrite Hprice, Hsize.
Qed.

End Conversion.

Section PaginationFailure.
Context {F : Type} {ops : Float64Ops F} {rt : GoRuntime}.

Lemma paginate_fails address endTime (pre : list (list FillResponse)) e rest cursor n
    (acc : list (Trade F)) :
  Forall fullBatch pre →
  paginate address endTime ((RespFills <$> pre) ++ RespError e :: rest) cursor n acc
  = (FetchFailed (BatchError (S (n + length pre)) e),
     pauseBefore n ++ EvRequest address cursor endTime
       :: laterRequests address endTime (nextCursors pre)).
Proof.
  intros Hpre. revert cursor n acc.
  induction Hpre as [|p pre Hp Hpre IH]; intros cursor n acc.
  - simpl. fold (pauseBefore n). by rewrite Nat.add_0_r.
  - destruct (fullBatch_tests p Hp) as [Hne Hshort].
    cbn [app fmap list_fmap paginate]. fold (pauseBefore n).
    rewrite Hne, Hshort.
    change (list_fmap _ _ RespFills pre) with (RespFills <$> pre).
    rewrite IH. f_equal.
    + do 2 f_equal. simpl. lia.
    + by rewrite <-!app_assoc.
Qed.

(** When the exchange fails the request that follows [pre] full batches,
    [FetchTradesInRange] returns no trades, not even those of the batches it
    had converted, and an error that wraps the failure with the number of the
    failed request, counted from one.  It has made exactly that many
    requests, paced as usual, and makes no other. *)
Theorem fetchRange_failure_numbered address start end_ (pre : list (list FillResponse))
    e rest :
  Forall fullBatch pre →
  FetchTradesInRange (F:=F) address start end_ ((RespFills <$> pre) ++ RespError e :: rest)
  = (FetchFailed (BatchError (S (length pre)) e),
     pacedRequests address (gotime.UnixMilli end_)
       (gotime.UnixMilli start :: nextCursors pre)).
Proof.
  intros Hpre. unfold FetchTradesInRange. by rewrite paginate_fails.
Qed.

End PaginationFailure.

Section Pacing.
Context {F : Type} {ops : Float64Ops F} {rt : GoRuntime}.

Lemma paginate_paced address endTime tape cursor n (acc : list (Trade F)) :
  ∃ cursors,
    (paginate address endTime tape cursor n acc).2
    = pauseBefore n ++ EvRequest address cursor endTime
        :: laterRequests address endTime cursors
    ∧ (length cursors ≤ length tape)%nat.
Proof.
  revert cursor n acc.
  induction tape as [|[fills|err] tape IH]; intros cursor n acc; cbn [paginate];
    fold (pauseBefore n).
  - exists []. by split.
  - destruct (length fills =? 0)%nat; [exists []; split; [done|simpl; lia]|].
    destruct (length fills <? config.MaxTradesPerBatch)%nat;
      [exists []; split; [done|simpl; lia]|].
    destruct (IH (wrap64 (lastFillTime fills + 1)) (S n) (convertFills acc fills))
      as (cursors & Hev & Hlen).
    destruct (paginate address endTime tape _ _ _) as [r events]. simpl in Hev. subst events.
    exists (wrap64 (lastFillTime fills + 1) :: cursors). split; [|simpl; lia].
    simpl. by rewrite <-!app_assoc.
  - exists []. split; [done|simpl; lia].
Qed.

(** Whatever the exchange answers, the requests of one call of
    [FetchTradesInRange] are paced: the first goes out at once for the start
    of the range, the pacing delay of 300 ms comes before each of the others
    and nowhere else, all ask for the same account and end of range, and
    there is at most one request more than the exchange has answered. *)
Theorem fetchRange_always_paced address (start end_ : gotime.Time) (tape : list Response) :
  ∃ cursors,
    (FetchTradesInRange (F:=F) address start end_ tape).2
    = pacedRequests address (gotime.UnixMilli end_) (gotime.UnixMilli start :: cursors)
    ∧ (length cursors ≤ length tape)%nat
    ∧ config.RateLimitDelay = 300 * gotime.Millisecond.
Proof.
  unfold FetchTradesInRange.
  destruct (paginate_paced address (gotime.UnixMilli end_) tape (gotime.UnixMilli start)
              0%nat []) as (cursors & Hev & Hlen).
  exists cursors. by rewrite Hev.
Qed.

End Pacing.

Section Filtering.
Context {F : Type} {ops : Float64Ops F} {rt : GoRuntime}.

Lemma filterTradesByTime_atOrAfter (l : list (Trade F)) cutoff :
  filterTradesByTime l cutoff = filter (atOrAfter cutoff) l.
Proof.
  unfold filterTradesByTime. apply list_filter_iff. intros trade.
  unfold atOrAfter, gotime.After, gotime.Equal.
  rewrite orb_true_iff, Z.ltb_lt, Z.eqb_eq. lia.
Qed.

Lemma StronglySorted_sublist {T : Type} (R : T → T → Prop) (l l' : list T) :
  l' `sublist_of` l → StronglySorted R l → StronglySorted R l'.
Proof.
  induction 1 as [|x l1 l2 Hsub IH|x l1 l2 Hsub IH]; intros Hs; [done|..].
  - apply StronglySorted_inv in Hs as [Hs Hx]. constructor; [by apply IH|].
    rewrite Forall_forall in Hx |- *. intros y Hy. apply Hx.
    by eapply elem_of_sublist.
  - apply StronglySorted_inv in Hs as [Hs Hx]. by apply IH.
Qed.

Lemma filter_every {T : Type} (P : T → Prop) `{∀ x, Decision (P x)} (l : list T) :
  Forall P l → filter P l = l.
Proof.
  induction 1 as [|a l Ha Hl IH]; [done|].
  by rewrite filter_cons_True, IH.
Qed.

Lemma filter_none {T : Type} (P : T → Prop) `{∀ x, Decision (P x)} (l : list T) :
  Forall (λ x, ¬ P x) l → filter P l = [].
Proof.
  induction 1 as [|a l Ha Hl IH]; [done|].
  by rewrite filter_cons_False.
Qed.

Lemma filter_sorted_suffix (l : list (Trade F)) cutoff :
  StronglySorted timeLe l →
  filter (atOrAfter cutoff) l
  = drop (length l - length (filter (atOrAfter cutoff) l)) l.
Proof.
  induction 1 as [|a l Hl IH Ha]; [done|].
  rewrite filter_cons. case_decide as Hc.
  - assert (filter (atOrAfter cutoff) l = l) as ->.
    { apply filter_every. eapply Forall_impl; [exact Ha|].
      intros b Hab. unfold atOrAfter, timeLe in *. lia. }
    by replace (length (a :: l) - length (a :: l))%nat with 0%nat by lia.
  - pose proof (length_filter (atOrAfter cutoff) l) as Hlen.
    replace (length (a :: l) - length (filter (atOrAfter cutoff) l))%nat
      with (S (length l - length (filter (atOrAfter cutoff) l))) by (simpl; lia).
    simpl. exact IH.
Qed.

(** [filterTradesByTime] keeps exactly the trades whose instant is the
    cut-off or later, whatever the locations of the two times, in the order
    they had.  On a list in time order that is a suffix of the list.  What
    it keeps of a list in time order without repeated identity is again such
    a list. *)
Theorem filter_keeps_recent (l : list (Trade F)) (cutoffTime : gotime.Time) :
  let kept := filterTradesByTime l cutoffTime in
  (∀ trade, trade ∈ kept ↔ trade ∈ l ∧ atOrAfter cutoffTime trade)
  ∧ kept `sublist_of` l
  ∧ (StronglySorted timeLe l → kept = drop (length l - length kept) l)
  ∧ (CacheInvariant l → CacheInvariant kept).
Proof.
  cbv zeta. rewrite filterTradesByTime_atOrAfter. split; [|split; [|split]].
  - intros trade. by rewrite list_elem_of_filter, (comm (∧)).
  - apply sublist_filter.
  - apply filter_sorted_suffix.
  - intros [Hs Hnd]. split.
    + eapply StronglySorted_sublist; [apply sublist_filter|done].
    + eapply sublist_NoDup; [exact Hnd|]. apply fmap_sublist, sublist_filter.
Qed.

(** Filtering twice is filtering once by the later cut-off; in particular
    filtering again by the same cut-off changes nothing. *)
Theorem filter_twice_later_cutoff (l : list (Trade F)) (c1 c2 : gotime.Time) :
  filterTradesByTime (filterTradesByTime l c1) c2 = filterTradesByTime l (laterCutoff c1 c2)
  ∧ filterTradesByTime (filterTradesByTime l c1) c1 = filterTradesByTime l c1.
Proof.
  assert (∀ c c', filterTradesByTime (filterTradesByTime l c) c'
                  = filterTradesByTime l (laterCutoff c c')) as Hboth.
  { intros c c'. rewrite !filterTradesByTime_atOrAfter, list_filter_filter.
    apply list_filter_iff. intros trade.
    unfold laterCutoff, atOrAfter, gotime.Before.
    destruct (gotime.unixNano c' <? gotime.unixNano c) eqn:Hlt.
    - apply Z.ltb_lt in Hlt. lia.
    - apply Z.ltb_ge in Hlt. lia. }
  split; [apply Hboth|].
  rewrite Hboth. unfold laterCutoff. by destruct (gotime.Before c1 c1).
Qed.

End Filtering.

Section Completeness.
Context {F : Type} {ops : Float64Ops F} {rt : GoRuntime}.

Lemma lastFillTime_last (fills : list FillResponse) (fill : FillResponse) :
  last fills = Some fill → lastFillTime fills = fillTime fill.
Proof. unfold lastFillTime. by intros ->. Qed.

(** In a book of increasing times, the fills of the window that starts one
    millisecond after the last fill of a full page are those after the
    page. *)
Lemma next_window (book : list FillResponse) (cursor endTime : Z) (m : nat) x :
  timesIncrease book →
  last (take m (filter (inWindow cursor endTime) book)) = Some x →
  filter (inWindow (fillTime x + 1) endTime) book
  = drop m (filter (inWindow cursor endTime) book).
Proof.
  intros Hinc Hlast.
  set (W := filter (inWindow cursor endTime) book) in *.
  assert (timesIncrease W) as HW.
  { eapply StronglySorted_sublist; [apply sublist_filter|done]. }
  assert (x ∈ take m W) as Hx.
  { apply last_Some in Hlast as [l' ->]. apply elem_of_app. right. by left. }
  assert (inWindow cursor endTime x) as Hxw.
  { assert (x ∈ W) as HxW by (eapply elem_of_sublist; [exact Hx|apply sublist_take]).
    by apply list_elem_of_filter in HxW as [? _]. }
  rewrite <-(list_filter_filter_l (inWindow (fillTime x + 1) endTime) (inWindow cursor endTime)).
  2:{ intros fill [? ?]. destruct Hxw. split; lia. }
  fold W. rewrite <-(take_drop m W) at 1. rewrite <-(take_drop m W) in HW.
  apply StronglySorted_app in HW as (Hcross & Htake & Hdrop).
  rewrite filter_app.
  assert (filter (inWindow (fillTime x + 1) endTime) (take m W) = []) as ->.
  { apply last_Some in Hlast as [l' Hl']. rewrite Hl' in Htake |- *.
    apply StronglySorted_app in Htake as (Hbefore & _ & _).
    rewrite filter_app, filter_cons_False, filter_nil, app_nil_r by (intros [? ?]; lia).
    apply filter_none, Forall_forall. intros fill Hfill [Hlo _].
    specialize (Hbefore fill x Hfill (list_elem_of_here _ _)). simpl in Hbefore. lia. }
  simpl. apply filter_every.
  apply Forall_forall. intros fill Hfill.
  specialize (Hcross x fill Hx Hfill). simpl in Hcross.
  assert (fill ∈ W) as HfW by (eapply elem_of_sublist; [exact Hfill|apply sublist_drop]).
  apply list_elem_of_filter in HfW as [[_ Hhi] _]. split; lia.
Qed.

Lemma paginate_exchange address endTime (book : list FillResponse) :
  timesIncrease book →
  Forall (λ fill, minInt64 ≤ fillTime fill < maxInt64) book →
  ∀ n cursor batchCount (acc : list (Trade F)),
    (length (filter (inWindow cursor endTime) book) < n * config.MaxTradesPerBatch)%nat →
    ∃ cursors,
      paginate address endTime (exchangeTape n book cursor endTime) cursor batchCount acc
      = (Fetched (convertFills acc (filter (inWindow cursor endTime) book)),
         pauseBefore batchCount ++ EvRequest address cursor endTime
           :: laterRequests address endTime cursors)
      ∧ exchangeTape n book cursor endTime
        = (λ c, RespFills (exchangeAnswer book c endTime)) <$> (cursor :: cursors).
Proof.
  intros Hinc Hrange n. induction n as [|n IH]; intros cursor batchCount acc Hlen; [lia|].
  cbn [exchangeTape paginate]. fold (pauseBefore batchCount).
  set (W := filter (inWindow cursor endTime) book) in *.
  set (batch := exchangeAnswer book cursor endTime).
  assert (batch = take config.MaxTradesPerBatch W) as Hb by done.
  assert (length batch = Nat.min config.MaxTradesPerBatch (length W)) as Hbatch
    by (rewrite Hb; apply length_take).
  destruct (length batch =? 0)%nat eqn:Hzero.
  { apply Nat.eqb_eq in Hzero. unfold config.MaxTradesPerBatch in Hbatch.
    assert (length W = 0%nat) as HW by lia.
    assert ((length batch <? config.MaxTradesPerBatch)%nat = true) as ->
      by (apply Nat.ltb_lt; unfold config.MaxTradesPerBatch; lia).
    exists []. split; [by destruct W|done]. }
  destruct (length batch <? config.MaxTradesPerBatch)%nat eqn:Hshort.
  { apply Nat.ltb_lt in Hshort. exists []. split; [|done].
    rewrite Hb. by rewrite take_ge by lia. }
  apply Nat.ltb_ge in Hshort.
  destruct (last batch) as [x|] eqn:Hlast.
  2:{ apply last_None in Hlast. rewrite Hlast in Hzero. done. }
  assert (x ∈ book) as Hxbook.
  { assert (x ∈ batch) as Hx.
    { apply last_Some in Hlast as [l' ->]. apply elem_of_app. right. by left. }
    assert (x ∈ W) as HxW
      by (eapply elem_of_sublist; [exact Hx|rewrite Hb; apply sublist_take]).
    by apply list_elem_of_filter in HxW as [_ ?]. }
  rewrite Forall_forall in Hrange. specialize (Hrange x Hxbook).
  rewrite (lastFillTime_last batch x Hlast).
  rewrite wrap64_id by (unfold minInt64, maxInt64 in *; lia).
  pose proof (next_window book cursor endTime config.MaxTradesPerBatch x Hinc) as Hnext.
  fold W in Hnext. rewrite <-Hb in Hnext. specialize (Hnext Hlast).
  assert (length (drop config.MaxTradesPerBatch W) < n * config.MaxTradesPerBatch)%nat
    as Hless by (rewrite length_drop; unfold config.MaxTradesPerBatch in *; lia).
  destruct (IH (fillTime x + 1) (S batchCount) (convertFills acc batch))
    as (cursors & Hrun & Htape); [by rewrite Hnext|].
  rewrite Hrun, Htape, Hnext.
  exists (fillTime x + 1 :: cursors). split; [|done].
  f_equal.
  - rewrite <-convertFills_app, Hb. by rewrite take_drop.
  - simpl. by rewrite <-!app_assoc.
Qed.

(** Pagination is complete against an exchange that answers every request
    with the fills of its window, in time order, up to the page limit.  When
    no two fills of the book have the same time and the exchange answers as
    often as it is asked, [FetchTradesInRange] returns the conversion of
    every fill of the book between [start] and [end], each once and in
    order, however many pages that takes; and each answer it got is the
    exchange's answer to the request it made. *)
Theorem fetchRange_complete address (start end_ : gotime.Time) (book : list FillResponse)
    (n : nat) :
  timesIncrease book →
  Forall (λ fill, minInt64 ≤ fillTime fill < maxInt64) book →
  (length book < n)%nat →
  let startTime := gotime.UnixMilli start in
  let endTime := gotime.UnixMilli end_ in
  ∃ cursors,
    FetchTradesInRange (F:=F) address start end_ (exchangeTape n book startTime endTime)
    = (Fetched (convertFills [] (filter (inWindow startTime endTime) book)),
       pacedRequests address endTime (startTime :: cursors))
    ∧ exchangeTape n book startTime endTime
      = (λ c, RespFills (exchangeAnswer book c endTime)) <$> (startTime :: cursors).
Proof.
  intros Hinc Hrange Hn startTime endTime. unfold FetchTradesInRange.
  fold startTime endTime.
  destruct (paginate_exchange address endTime book Hinc Hrange n startTime 0%nat [])
    as (cursors & Hrun & Htape).
  { pose proof (length_filter (inWindow startTime endTime) book).
    unfold config.MaxTradesPerBatch. lia. }
  exists cursors. by rewrite Hrun.
Qed.

End Completeness.

(** * Merge, further *)

Section KeyEncoding.

Lemma hasUnderscore_app (s t : string) :
  hasUnderscore (s +:+ t) = hasUnderscore s || hasUnderscore t.
Proof.
  induction s as [|c s IH]; [done|].
  change (String c s +:+ t) with (String c (s +:+ t)). simpl.
  by rewrite IH, orb_assoc.
Qed.

Lemma pretty_N_char_not_underscore (x : N) : Ascii.eqb (pretty_N_char x) "_" = false.
Proof.
  destruct x as [|p]; [done|].
  do 4 (try destruct p as [p|p|]); reflexivity.
Qed.

Lemma pretty_N_go_underscore (x : N) (s : string) :
  hasUnderscore (pretty_N_go x s) = hasUnderscore s.
Proof.
  revert s. induction (N.lt_wf_0 x) as [x _ IH]; intros s.
  assert (x = 0 ∨ 0 < x)%N as [->|Hpos] by lia; [by rewrite pretty_N_go_0|].
  rewrite pretty_N_go_step by done. rewrite IH by (by apply N.div_lt).
  simpl. by rewrite pretty_N_char_not_underscore.
Qed.

Lemma pretty_N_underscore (x : N) : hasUnderscore (pretty x) = false.
Proof.
  unfold pretty, pretty_N. case_decide; [done|]. by rewrite pretty_N_go_underscore.
Qed.

Lemma pretty_Z_underscore (x : Z) : hasUnderscore (pretty x) = false.
Proof.
  destruct x as [|p|p]; [done|apply pretty_N_underscore|].
  unfold pretty, pretty_Z.
  change (hasUnderscore (String "-" (pretty (N.pos p))) = false).
  simpl. apply pretty_N_underscore.
Qed.

(** A string is cut at its first underscore in one way only. *)
Lemma split_at_underscore (s1 s2 r1 r2 : string) :
  hasUnderscore s1 = false → hasUnderscore s2 = false →
  s1 +:+ String "_" r1 = s2 +:+ String "_" r2 → s1 = s2 ∧ r1 = r2.
Proof.
  revert s2. induction s1 as [|c1 s1 IH]; intros [|c2 s2] H1 H2 Heq.
  - by injection Heq as ->.
  - change (String "_" r1 = String c2 (s2 +:+ String "_" r2)) in Heq.
    injection Heq as <- _. simpl in H2. done.
  - change (String c1 (s1 +:+ String "_" r1) = String "_" r2) in Heq.
    injection Heq as -> _. simpl in H1. done.
  - change (String c1 (s1 +:+ String "_" r1) = String c2 (s2 +:+ String "_" r2)) in Heq.
    injection Heq as -> Heq. simpl in H1, H2.
    apply orb_false_elim in H1 as [_ H1], H2 as [_ H2].
    by destruct (IH s2 H1 H2 Heq) as [-> ->].
Qed.

End KeyEncoding.

Section MergeMore.
Context {F : Type} {ops : Float64Ops F} {rt : GoRuntime} {laws : GoRuntimeLaws rt}.

Lemma tradeKey_inj_identity (t1 t2 : Trade F) :
  hasUnderscore (Coin t1) = false → hasUnderscore (Coin t2) = false →
  tradeKey t1 = tradeKey t2 → identity t1 = identity t2.
Proof.
  intros H1 H2 Heq. unfold tradeKey in Heq.
  change (pretty (gotime.UnixMilli (Time t1)) +:+ String "_" (Coin t1 +:+ String "_" (Side t1))
          = pretty (gotime.UnixMilli (Time t2)) +:+ String "_" (Coin t2 +:+ String "_" (Side t2)))
    in Heq.
  apply split_at_underscore in Heq as [Hms Heq]; [|apply pretty_Z_underscore..].
  apply split_at_underscore in Heq as [Hcoin Hside]; [|done..].
  apply (inj pretty) in Hms. unfold identity. by rewrite Hms, Hcoin, Hside.
Qed.

(** The merge key [fmt.Sprintf("%d_%s_%s", ...)] tells identity triples
    apart as long as coin names have no underscore: then two trades have the
    same key exactly when they have the same time in milliseconds, coin and
    side. *)
Theorem tradeKey_identifies (t1 t2 : Trade F) :
  hasUnderscore (Coin t1) = false → hasUnderscore (Coin t2) = false →
  tradeKey t1 = tradeKey t2 ↔ identity t1 = identity t2.
Proof.
  intros H1 H2. split; [by apply tradeKey_inj_identity|].
  intros Hid. by rewrite !tradeKey_identity, Hid.
Qed.

Lemma mergeMap_app (existing new : list (Trade F)) :
  mergeMap existing new = addToTradeMap ∅ (existing ++ new).
Proof. unfold mergeMap, addToTradeMap. by rewrite foldl_app. Qed.

Lemma lastWithKey_snoc (k : string) (l : list (Trade F)) (trade : Trade F) :
  lastWithKey k (l ++ [trade])
  = if decide (tradeKey trade = k) then Some trade else lastWithKey k l.
Proof.
  unfold lastWithKey. rewrite filter_app, filter_cons, filter_nil.
  case_decide; [by rewrite last_snoc|by rewrite app_nil_r].
Qed.

(** Under each key the map holds the last trade written there. *)
Lemma addToTradeMap_lookup (m : gmap string (Trade F)) (l : list (Trade F)) (k : string) :
  addToTradeMap m l !! k
  = match lastWithKey k l with
    | Some trade => Some trade
    | None => m !! k
    end.
Proof.
  induction l as [|trade l IH] using rev_ind; [done|].
  rewrite addToTradeMap_snoc, lookup_insert, lastWithKey_snoc.
  by case_decide.
Qed.

Lemma lastWithKey_key (k : string) (l : list (Trade F)) (trade : Trade F) :
  lastWithKey k l = Some trade → tradeKey trade = k ∧ trade ∈ l.
Proof.
  unfold lastWithKey. intros Hlast.
  assert (trade ∈ filter (λ t, tradeKey t = k) l) as Hin.
  { apply last_Some in Hlast as [l' ->]. apply elem_of_app. right. by left. }
  by apply list_elem_of_filter in Hin.
Qed.

Lemma keyed_values_elem (m : gmap string (Trade F)) (trade : Trade F) :
  KeyedByTrade m → trade ∈ (map_to_list m).*2 ↔ m !! tradeKey trade = Some trade.
Proof.
  intros Hm. rewrite list_elem_of_fmap. split.
  - intros ([k t] & -> & Hin%elem_of_map_to_list). simpl.
    by rewrite (Hm _ _ Hin).
  - intros Hlk. exists (tradeKey trade, trade). split; [done|].
    by apply elem_of_map_to_list.
Qed.

Lemma mergeTrades_elem (existing new : list (Trade F)) (trade : Trade F) :
  trade ∈ mergeTrades existing new
  ↔ lastWithKey (tradeKey trade) (existing ++ new) = Some trade.
Proof.
  rewrite mergeTrades_perm, keyed_values_elem by apply mergeMap_keyed.
  rewrite mergeMap_app, addToTradeMap_lookup, lookup_empty.
  by destruct (lastWithKey _ _).
Qed.

Lemma mergeTrades_from (existing new : list (Trade F)) (trade : Trade F) :
  trade ∈ mergeTrades existing new → trade ∈ existing ∨ trade ∈ new.
Proof.
  intros [_ Hin]%mergeTrades_elem%lastWithKey_key. by apply elem_of_app in Hin.
Qed.

Lemma lastWithKey_None (k : string) (l : list (Trade F)) (trade : Trade F) :
  lastWithKey k l = None → trade ∈ l → tradeKey trade ≠ k.
Proof.
  unfold lastWithKey. intros Hlast%last_None Hin Hkey.
  assert (trade ∈ filter (λ t, tradeKey t = k) l) as Hf by (by apply list_elem_of_filter).
  rewrite Hlast in Hf. by apply elem_of_nil in Hf.
Qed.

Lemma mergeTrades_key_kept (existing new : list (Trade F)) (trade : Trade F) :
  trade ∈ existing ++ new →
  ∃ kept, kept ∈ mergeTrades existing new ∧ tradeKey kept = tradeKey trade.
Proof.
  intros Hin.
  destruct (lastWithKey (tradeKey trade) (existing ++ new)) as [kept|] eqn:Hlast.
  - pose proof (lastWithKey_key _ _ _ Hlast) as [Hkey _].
    exists kept. split; [|done]. apply mergeTrades_elem. by rewrite Hkey.
  - by destruct (lastWithKey_None _ _ trade Hlast Hin).
Qed.

(** What [mergeTrades] keeps: under each key the trade written last, the
    existing trades being written before the new ones.  So a trade is in the
    merge exactly when it is the last of its key in [existing ++ new]; every
    trade of the merge comes from one of the two lists; an existing trade
    whose key a new trade has stays only if it is itself among the new ones;
    and every key of the two lists is the key of a trade of the merge. *)
Theorem merge_last_wins (existing new : list (Trade F)) :
  (∀ trade, trade ∈ mergeTrades existing new
            ↔ lastWithKey (tradeKey trade) (existing ++ new) = Some trade)
  ∧ (∀ trade, trade ∈ mergeTrades existing new → trade ∈ existing ∨ trade ∈ new)
  ∧ (∀ old trade, old ∈ mergeTrades existing new → trade ∈ new →
       tradeKey old = tradeKey trade → old ∈ new)
  ∧ (∀ trade, trade ∈ existing ++ new →
       ∃ kept, kept ∈ mergeTrades existing new ∧ tradeKey kept = tradeKey trade).
Proof.
  split; [apply mergeTrades_elem|]. split; [apply mergeTrades_from|]. split.
  - intros old trade Hold Hnew Hkey. apply mergeTrades_elem in Hold.
    unfold lastWithKey in Hold. rewrite filter_app, last_app in Hold.
    destruct (last (filter _ new)) as [t|] eqn:Hlast.
    + injection Hold as ->. apply (lastWithKey_key (tradeKey old)) in Hlast as [_ ?]. done.
    + by destruct (lastWithKey_None (tradeKey old) new trade Hlast Hnew).
  - apply mergeTrades_key_kept.
Qed.

(** With coin names free of underscores the merge has exactly the identity
    triples of its two inputs, each once. *)
Theorem merge_one_per_identity (existing new : list (Trade F)) :
  (∀ trade, trade ∈ existing ++ new → hasUnderscore (Coin trade) = false) →
  NoDup (identity <$> mergeTrades existing new)
  ∧ (∀ i, i ∈ identity <$> mergeTrades existing new ↔ i ∈ identity <$> (existing ++ new)).
Proof.
  intros Hcoins. split; [apply keys_NoDup_identity, mergeTrades_keys_NoDup|].
  intros i. rewrite !list_elem_of_fmap. split.
  - intros (trade & -> & [_ Hin]%mergeTrades_elem%lastWithKey_key). by exists trade.
  - intros (trade & -> & Hin).
    destruct (mergeTrades_key_kept existing new trade Hin) as (kept & Hkept & Hkey).
    exists kept. split; [|done].
    symmetry. apply tradeKey_inj_identity; [|by apply Hcoins|done].
    apply Hcoins. apply mergeTrades_from in Hkept. by apply elem_of_app.
Qed.

Lemma addToTradeMap_twice (m : gmap string (Trade F)) (l : list (Trade F)) :
  addToTradeMap (addToTradeMap m l) l = addToTradeMap m l.
Proof.
  apply map_eq. intros k. rewrite !addToTradeMap_lookup.
  by destruct (lastWithKey k l).
Qed.

(** Writing the values of a keyed map into an empty map gives the map
    back. *)
Lemma addToTradeMap_of_values (m : gmap string (Trade F)) (l : list (Trade F)) :
  KeyedByTrade m → l ≡ₚ (map_to_list m).*2 → addToTradeMap ∅ l = m.
Proof.
  intros Hm Hperm.
  assert (NoDup (tradeKey <$> l)) as Hnd.
  { rewrite Hperm, keyed_values_keys by done. apply NoDup_fst_map_to_list. }
  apply map_eq. intros k.
  destruct (m !! k) as [trade|] eqn:Hk.
  - rewrite <-(Hm _ _ Hk). apply addToTradeMap_lookup_NoDup; [apply KeyedByTrade_empty|done|].
    rewrite Hperm. apply keyed_values_elem; [done|]. by rewrite (Hm _ _ Hk).
  - apply (not_elem_of_dom (D:=gset string)).
    rewrite addToTradeMap_dom, dom_empty_L, (left_id_L ∅ (∪)), elem_of_list_to_set.
    rewrite Hperm, keyed_values_keys by done.
    intros ([k' t] & -> & Hin%elem_of_map_to_list)%list_elem_of_fmap.
    simpl in Hk. by rewrite Hin in Hk.
Qed.

Lemma mergeMap_of_merge (existing new again : list (Trade F)) :
  mergeMap (mergeTrades existing new) again = addToTradeMap (mergeMap existing new) again.
Proof.
  unfold mergeMap at 1.
  by rewrite (addToTradeMap_of_values (mergeMap existing new))
    by (apply mergeMap_keyed || apply mergeTrades_perm).
Qed.

(** Merging in again what has been merged changes nothing: the batch just
    merged, or any trades that are in the merged list, leave its members as
    they are, and its order too when no two of them have the same
    timestamp. *)
Theorem merge_absorbs_refetch (existing new : list (Trade F)) :
  let merged := mergeTrades existing new in
  mergeTrades merged new ≡ₚ merged
  ∧ (∀ again, (∀ trade, trade ∈ again → trade ∈ merged) →
              mergeTrades merged again ≡ₚ merged)
  ∧ (StronglySorted timeLt merged → mergeTrades merged new = merged).
Proof.
  intros merged.
  assert (mergeTrades merged new ≡ₚ merged) as Hnew.
  { unfold merged. rewrite (mergeTrades_perm (mergeTrades existing new)), mergeMap_of_merge.
    unfold mergeMap. rewrite addToTradeMap_twice. symmetry. apply mergeTrades_perm. }
  split; [done|]. split.
  - intros again Hin. unfold merged.
    rewrite (mergeTrades_perm (mergeTrades existing new)), mergeMap_of_merge.
    rewrite addToTradeMap_present; [symmetry; apply mergeTrades_perm|].
    intros trade Ht. apply keyed_values_elem; [apply mergeMap_keyed|].
    rewrite <-mergeTrades_perm. by apply Hin.
  - intros Hlt.
    apply (StronglySorted_unique_strong timeLe); [|apply mergeTrades_sorted| |done].
    + intros x y Hx Hy Hxy Hyx. rewrite Hnew in Hx.
      apply (timeLt_same_time merged); [done..|]. unfold timeLe in *. lia.
    + eapply StronglySorted_weaken; [|exact Hlt]. unfold timeLt, timeLe. lia.
Qed.

End MergeMore.

(** * Profit and loss, further *)

Section SellsMinusBuys.
Context {F : Type} {ops : Float64Ops F} {exact : ExactArith F}
  {rt : GoRuntime} {laws : GoRuntimeLaws rt}.

Lemma fadd_cancel_r (a b c : F) : fadd a c = fadd b c → a = b.
Proof.
  intros Heq.
  assert (∀ x, fadd (fadd x c) (fsub fzero c) = x) as Hback.
  { intros x. rewrite <-fadd_assoc, (fadd_comm c), fadd_fsub. apply fadd_0_r. }
  by rewrite <-(Hback a), Heq, Hback.
Qed.

Lemma fsub_unique (x y a : F) : fadd x y = a → x = fsub a y.
Proof. intros <-. apply (fadd_cancel_r _ _ y). by rewrite fadd_fsub. Qed.

Lemma fsum_snoc (l : list F) (x : F) : fsum (l ++ [x]) = fadd (fsum l) x.
Proof. unfold fsum. by rewrite foldl_app. Qed.

Lemma fsum_cons (l : list F) (x : F) : fsum (x :: l) = fadd x (fsum l).
Proof.
  rewrite (fsum_perm (x :: l) (l ++ [x])) by apply Permutation_cons_append.
  by rewrite fsum_snoc, fadd_comm.
Qed.

Lemma positionsSum_insert_None (field : Position F → F) (m : gmap string (Position F))
    (coin : string) (pos : Position F) :
  m !! coin = None →
  positionsSum field (<[coin := pos]> m) = fadd (field pos) (positionsSum field m).
Proof.
  intros Hm. unfold positionsSum.
  rewrite (fsum_perm _ (field <$> ((coin, pos) :: map_to_list m).*2)).
  - apply fsum_cons.
  - by rewrite (map_to_list_insert m coin pos Hm).
Qed.

Lemma positionsSum_delete (field : Position F → F) (m : gmap string (Position F))
    (coin : string) (pos : Position F) :
  m !! coin = Some pos →
  positionsSum field m = fadd (field pos) (positionsSum field (delete coin m)).
Proof.
  intros Hm. unfold positionsSum.
  rewrite (fsum_perm _ (field <$> ((coin, pos) :: map_to_list (delete coin m)).*2)).
  - apply fsum_cons.
  - by rewrite (map_to_list_delete m coin pos Hm).
Qed.

Lemma bookTrade_insert (m : gmap string (Position F)) (trade : Trade F) :
  bookTrade m trade
  = <[Coin trade := applyTrade (default zeroPosition (m !! Coin trade)) trade]> m.
Proof.
  apply map_eq. intros coin. rewrite bookTrade_lookup, lookup_insert.
  case_decide as Hc; [subst coin; by rewrite decide_True|by rewrite decide_False].
Qed.

(** Booking a trade adds its value to the field of its side, and nothing to
    the other. *)
Lemma positionsSum_bookTrade (field : Position F → F) (side : string)
    (m : gmap string (Position F)) (trade : Trade F) :
  field zeroPosition = fzero →
  (∀ pos, field (applyTrade pos trade)
          = fadd (field pos) (if decide (Side trade = side) then Value trade else fzero)) →
  positionsSum field (bookTrade m trade)
  = fadd (positionsSum field m) (if decide (Side trade = side) then Value trade else fzero).
Proof.
  intros Hzero Happly. rewrite bookTrade_insert.
  destruct (m !! Coin trade) as [pos|] eqn:Hm; simpl.
  - rewrite <-insert_delete_eq.
    rewrite positionsSum_insert_None by apply lookup_delete_eq.
    rewrite (positionsSum_delete field m _ _ Hm), Happly.
    rewrite <-!fadd_assoc. f_equal. apply fadd_comm.
  - rewrite positionsSum_insert_None by done.
    rewrite Happly, Hzero, fadd_0_l. apply fadd_comm.
Qed.

Lemma sideValues_snoc (side : string) (l : list (Trade F)) (trade : Trade F) :
  fsum (sideValues side (l ++ [trade]))
  = fadd (fsum (sideValues side l)) (if decide (Side trade = side) then Value trade else fzero).
Proof.
  unfold sideValues. rewrite filter_app, filter_cons, filter_nil.
  case_decide.
  - rewrite fmap_app. apply (fsum_snoc _ (Value trade)).
  - by rewrite app_nil_r, fadd_0_r.
Qed.

Lemma BuyValue_applyTrade (pos : Position F) (trade : Trade F) :
  BuyValue (applyTrade pos trade)
  = fadd (BuyValue pos) (if decide (Side trade = "B"%string) then Value trade else fzero).
Proof.
  unfold applyTrade. case_decide as HB.
  - rewrite HB. done.
  - apply String.eqb_neq in HB. rewrite HB.
    destruct (String.eqb (Side trade) "A"); simpl; by rewrite fadd_0_r.
Qed.

Lemma SellValue_applyTrade (pos : Position F) (trade : Trade F) :
  SellValue (applyTrade pos trade)
  = fadd (SellValue pos) (if decide (Side trade = "A"%string) then Value trade else fzero).
Proof.
  unfold applyTrade. case_decide as HA.
  - rewrite HA. simpl. done.
  - destruct (String.eqb (Side trade) "B") eqn:HB; simpl; [by rewrite fadd_0_r|].
    apply String.eqb_neq in HA. rewrite HA. simpl. by rewrite fadd_0_r.
Qed.

Lemma positionsSum_booked (field : Position F → F) (side : string) (l : list (Trade F)) :
  field zeroPosition = fzero →
  (∀ pos trade, field (applyTrade pos trade)
     = fadd (field pos) (if decide (Side trade = side) then Value trade else fzero)) →
  positionsSum field (foldl bookTrade ∅ l) = fsum (sideValues side l).
Proof.
  intros Hzero Happly. induction l as [|trade l IH] using rev_ind.
  - simpl. unfold positionsSum. by rewrite map_to_list_empty.
  - rewrite foldl_app. simpl.
    rewrite (positionsSum_bookTrade field side) by done.
    by rewrite IH, sideValues_snoc.
Qed.

(** Over any list of positions, the total of [sell - buy] and the total
    bought make the total sold. *)
Lemma sumPositions_balance (entries : list (string * Position F)) :
  fadd (foldl addPosition fzero entries) (fsum (BuyValue <$> entries.*2))
  = fsum (SellValue <$> entries.*2).
Proof.
  induction entries as [|[coin pos] entries IH] using rev_ind.
  - simpl. unfold fsum. simpl. apply fadd_0_l.
  - rewrite foldl_app, !fmap_app. cbn [fmap list_fmap snd]. rewrite !fsum_snoc.
    cbn [foldl]. unfold addPosition at 1. cbn [snd]. rewrite <-IH.
    rewrite <-!fadd_assoc. f_equal.
    rewrite (fadd_comm (fsum _)), !fadd_assoc, fadd_fsub. apply fadd_comm.
Qed.

Lemma calculatePnLForDay_balance (l : list (Trade F)) :
  fadd (calculatePnLForDay l) (fsum (sideValues "B" l)) = fsum (sideValues "A" l).
Proof.
  unfold calculatePnLForDay.
  rewrite <-(positionsSum_booked BuyValue "B" l), <-(positionsSum_booked SellValue "A" l);
    [|done|apply SellValue_applyTrade|done|apply BuyValue_applyTrade].
  unfold positionsSum.
  rewrite (fsum_perm (BuyValue <$> (map_to_list _).*2)
             (BuyValue <$> (mapRange (foldl bookTrade ∅ l)).*2))
    by (by rewrite mapRange_perm).
  rewrite (fsum_perm (SellValue <$> (map_to_list _).*2)
             (SellValue <$> (mapRange (foldl bookTrade ∅ l)).*2))
    by (by rewrite mapRange_perm).
  apply sumPositions_balance.
Qed.

(** Under exact arithmetic the P&L of a day is the value of all its sales
    less the value of all its purchases, whatever the coins: what the day
    bought, added to its P&L, is what it sold.  Trades of other sides add
    nothing. *)
Theorem dayPnL_sells_minus_buys (l : list (Trade F)) :
  calculatePnLForDay l = fsub (fsum (sideValues "A" l)) (fsum (sideValues "B" l))
  ∧ fadd (calculatePnLForDay l) (fsum (sideValues "B" l)) = fsum (sideValues "A" l).
Proof.
  split; [|apply calculatePnLForDay_balance].
  apply fsub_unique, calculatePnLForDay_balance.
Qed.

End SellsMinusBuys.

Section Counts.
Context {F : Type} {ops : Float64Ops F} {rt : GoRuntime} {laws : GoRuntimeLaws rt}.

Lemma sum_list_perm (l l' : list nat) : l ≡ₚ l' → sum_list l = sum_list l'.
Proof. induction 1; simpl; lia. Qed.

Lemma countedTrades_insert_None (table : gmap string (DailyPnL F)) date record :
  table !! date = None →
  countedTrades (<[date := record]> table) = (TradeCount record + countedTrades table)%nat.
Proof.
  intros Hm. unfold countedTrades.
  rewrite (sum_list_perm _ (TradeCount <$> ((date, record) :: map_to_list table).*2)); [done|].
  by rewrite (map_to_list_insert table date record Hm).
Qed.

Lemma countedTrades_delete (table : gmap string (DailyPnL F)) date record :
  table !! date = Some record →
  countedTrades table = (TradeCount record + countedTrades (delete date table))%nat.
Proof.
  intros Hm. unfold countedTrades.
  rewrite (sum_list_perm _ (TradeCount <$> ((date, record) :: map_to_list (delete date table)).*2));
    [done|].
  by rewrite (map_to_list_delete table date record Hm).
Qed.

(** One more trade rewrites the record of its date and no other. *)
Lemma calculateDailyPnLFromTrades_snoc (l : list (Trade F)) (trade : Trade F) :
  calculateDailyPnLFromTrades (l ++ [trade])
  = <[dateOf trade := dailyRecord (dateOf trade) (tradesOn (dateOf trade) l ++ [trade])]>
      (calculateDailyPnLFromTrades l).
Proof.
  apply map_eq. intros date.
  rewrite lookup_insert, !calculateDailyPnLFromTrades_lookup, tradesOn_snoc.
  unfold dateOf. destruct (decide (gotime.FormatDate (Time trade) = date)) as [<-|Hd].
  - by destruct (tradesOn _ l).
  - by rewrite app_nil_r.
Qed.

Lemma countedTrades_table (l : list (Trade F)) :
  countedTrades (calculateDailyPnLFromTrades l) = length l.
Proof.
  induction l as [|trade l IH] using rev_ind.
  - assert (calculateDailyPnLFromTrades (F:=F) [] = ∅) as ->.
    { apply map_eq. intros date. by rewrite calculateDailyPnLFromTrades_lookup, lookup_empty. }
    unfold countedTrades. by rewrite map_to_list_empty.
  - rewrite calculateDailyPnLFromTrades_snoc, length_app. simpl.
    destruct (calculateDailyPnLFromTrades l !! dateOf trade) as [record|] eqn:Hold.
    + rewrite <-insert_delete_eq.
      rewrite countedTrades_insert_None by apply lookup_delete_eq.
      rewrite (countedTrades_delete _ _ _ Hold) in IH.
      rewrite calculateDailyPnLFromTrades_lookup in Hold.
      destruct (tradesOn (dateOf trade) l) as [|t day] eqn:Hday; [done|].
      injection Hold as <-. simpl in *. rewrite length_app. simpl. lia.
    + rewrite countedTrades_insert_None by done.
      rewrite calculateDailyPnLFromTrades_lookup in Hold.
      destruct (tradesOn (dateOf trade) l) as [|t day] eqn:Hday; [|done].
      simpl. lia.
Qed.

(** Every trade is counted once: the counts of the daily records add up to
    the number of trades; a record counts at least one trade; the dates of
    the table are the dates of the trades; no trades, no records. *)
Theorem daily_counts_every_trade (l : list (Trade F)) :
  let table := calculateDailyPnLFromTrades l in
  countedTrades table = length l
  ∧ (∀ date record, table !! date = Some record → (1 ≤ TradeCount record)%nat)
  ∧ dom table = list_to_set (dateOf <$> l)
  ∧ (table = ∅ ↔ l = []).
Proof.
  cbv zeta.
  assert (∀ date, is_Some (calculateDailyPnLFromTrades l !! date) ↔ date ∈ dateOf <$> l) as Hdom.
  { intros date. rewrite calculateDailyPnLFromTrades_lookup, list_elem_of_fmap. split.
    - destruct (tradesOn date l) as [|t day] eqn:Hday; [by intros [? ?]|]. intros _.
      assert (t ∈ tradesOn date l) as Hin by (rewrite Hday; by left).
      apply list_elem_of_filter in Hin as [Hd Hin]. by exists t.
    - intros (t & -> & Hin).
      assert (t ∈ tradesOn (dateOf t) l) as Hon by (by apply list_elem_of_filter).
      destruct (tradesOn (dateOf t) l); [by apply elem_of_nil in Hon|by eexists]. }
  split; [apply countedTrades_table|]. split; [|split].
  - intros date record. rewrite calculateDailyPnLFromTrades_lookup.
    destruct (tradesOn date l); [done|]. intros [= <-]. simpl. lia.
  - apply set_eq. intros date. by rewrite elem_of_dom, Hdom, elem_of_list_to_set.
  - split.
    + intros Hempty. destruct l as [|t l]; [done|]. exfalso.
      assert (is_Some (calculateDailyPnLFromTrades (t :: l) !! dateOf t)) as [r Hr].
      { apply Hdom. rewrite fmap_cons. by left. }
      by rewrite Hempty, lookup_empty in Hr.
    + intros ->. apply map_eq. intros date.
      by rewrite calculateDailyPnLFromTrades_lookup, lookup_empty.
Qed.

End Counts.

(** * The reconciliation store, further *)

Section Reconcile.
Context {F : Type} {ops : Float64Ops F} {rt : GoRuntime} {laws : GoRuntimeLaws rt}.

Lemma FetchTradesInRange_first_request address start end_ tape :
  ∃ later, (FetchTradesInRange (F:=F) address start end_ tape).2
           = EvRequest address (gotime.UnixMilli start) (gotime.UnixMilli end_) :: later.
Proof. apply paginate_first_request. Qed.

Lemma reconcile_first_request (rs : ReconciliationService F) address days now now' tape :
  ∃ later,
    (FetchAndReconcile rs address days now now' tape).2
    = match freshCache rs address days now with
      | Some cache =>
        EvRequest address (gotime.UnixMilli (lastFetchTime cache)) (gotime.UnixMilli now)
      | None =>
        EvRequest address (gotime.UnixMilli (gotime.Add now' (minusDays days)))
          (gotime.UnixMilli now')
      end :: later.
Proof.
  rewrite FetchAndReconcile_branches.
  destruct (freshCache rs address days now) as [cache|].
  - destruct (FetchTradesInRange_first_request address (lastFetchTime cache) now tape)
      as [later Hev].
    destruct (FetchTradesInRange address (lastFetchTime cache) now tape) as [[l|err|] events];
      simpl in *; by exists later.
  - unfold FetchTrades.
    destruct (FetchTradesInRange_first_request address (gotime.Add now' (minusDays days))
                now' tape) as [later Hev].
    destruct (FetchTradesInRange address (gotime.Add now' (minusDays days)) now' tape)
      as [[l|err|] events]; simpl in *; by exists later.
Qed.

(** Every call asks the exchange, a fresh cache only narrows the window: on
    a cache that has been filled, covers the days asked for and is less than
    an hour old the first request is for [lastFetchTime, now]; in every other
    case it is for the [days] days before the clock reading of the full
    fetch. *)
Theorem reconcile_request_window (rs : ReconciliationService F) address days now now' tape :
  ∃ later,
    (FetchAndReconcile rs address days now now' tape).2
    = match freshCache rs address days now with
      | Some cache =>
        EvRequest address (gotime.UnixMilli (lastFetchTime cache)) (gotime.UnixMilli now)
      | None =>
        EvRequest address (gotime.UnixMilli (gotime.Add now' (minusDays days)))
          (gotime.UnixMilli now')
      end :: later.
Proof. apply reconcile_first_request. Qed.

Lemma reconcile_success (rs : ReconciliationService F) address days now now' tape rs' events :
  FetchAndReconcile rs address days now now' tape = (ReturnNil, rs', events) →
  ∃ cache',
    accountCache rs' = <[address := cache']> (accountCache rs)
    ∧ lastFetchTime cache' = now
    ∧ cachedDays cache' = from_option cachedDays days (freshCache rs address days now)
    ∧ dailyPnL rs'
      = calculateDailyPnLFromTrades
          match freshCache rs address days now with
          | Some _ => filterTradesByTime (trades cache') (gotime.Add now (minusDays days))
          | None => trades cache'
          end.
Proof.
  rewrite FetchAndReconcile_branches.
  destruct (freshCache rs address days now) as [cache|].
  - destruct (FetchTradesInRange address (lastFetchTime cache) now tape) as [[l|err|] ev];
      [|done..].
    intros [= <- <-]. by eexists.
  - destruct (FetchTrades address days now' tape) as [[l|err|] ev]; [|done..].
    intros [= <- <-]. by eexists.
Qed.

Lemma freshCache_days (rs : ReconciliationService F) address days now cache :
  freshCache rs address days now = Some cache → days ≤ cachedDays cache.
Proof.
  unfold freshCache, fresh.
  destruct (accountCache rs !! address) as [c|]; [|done].
  destruct (negb _); [|done]. simpl.
  destruct (days <=? cachedDays c) eqn:Hle; [|done]. simpl.
  destruct (_ <? _); [|done]. intros [= <-]. by apply Z.leb_le.
Qed.

(** After a successful call the account has a cache entry stamped with the
    clock reading of the call, covering at least the days asked for (the days
    it covered before on the incremental branch, the days asked for after a
    full fetch); and the daily table is computed anew from that entry's
    trades, those at or after [now - days] on the incremental branch and all
    of them after a full fetch, whatever the table held before. *)
Theorem reconcile_table_from_cache (rs : ReconciliationService F) address days now now'
    tape rs' events :
  FetchAndReconcile rs address days now now' tape = (ReturnNil, rs', events) →
  ∃ cache',
    accountCache rs' !! address = Some cache'
    ∧ lastFetchTime cache' = now
    ∧ days ≤ cachedDays cache'
    ∧ cachedDays cache' = from_option cachedDays days (freshCache rs address days now)
    ∧ dailyPnL rs'
      = calculateDailyPnLFromTrades
          match freshCache rs address days now with
          | Some _ => filterTradesByTime (trades cache') (gotime.Add now (minusDays days))
          | None => trades cache'
          end.
Proof.
  intros (cache' & Hcache & Hstamp & Hdays & Htable)%reconcile_success.
  exists cache'. rewrite Hcache, lookup_insert_eq. repeat split; try done.
  rewrite Hdays. destruct (freshCache rs address days now) as [cache|] eqn:Hfresh; simpl; [|lia].
  by eapply freshCache_days.
Qed.

Lemma reconcile_frame (rs : ReconciliationService F) address days now now' tape address' :
  address' ≠ address →
  accountCache (FetchAndReconcile rs address days now now' tape).1.2 !! address'
  = accountCache rs !! address'.
Proof.
  intros Hne. rewrite FetchAndReconcile_branches.
  destruct (freshCache rs address days now) as [cache|].
  - destruct (FetchTradesInRange address (lastFetchTime cache) now tape) as [[l|err|] ev];
      simpl; [|done..]. by rewrite lookup_insert_ne.
  - destruct (FetchTrades address days now' tape) as [[l|err|] ev];
      simpl; [|done..]. by rewrite lookup_insert_ne.
Qed.

Lemma reconcile_unchanged (rs : ReconciliationService F) address days now now' tape :
  (FetchAndReconcile rs address days now now' tape).1.1 ≠ ReturnNil →
  (FetchAndReconcile rs address days now now' tape).1.2 = rs.
Proof.
  rewrite FetchAndReconcile_branches.
  destruct (freshCache rs address days now) as [cache|].
  - by destruct (FetchTradesInRange address (lastFetchTime cache) now tape) as [[l|err|] ev].
  - by destruct (FetchTrades address days now' tape) as [[l|err|] ev].
Qed.

(** A call for one account leaves the cache entries of all other accounts
    as they are, however it ends; and unless it returns without error it
    leaves the whole store as it is. *)
Theorem reconcile_touches_one_account (rs : ReconciliationService F) address days now now'
    tape :
  let after := (FetchAndReconcile rs address days now now' tape).1.2 in
  (∀ address', address' ≠ address → accountCache after !! address' = accountCache rs !! address')
  ∧ ((FetchAndReconcile rs address days now now' tape).1.1 ≠ ReturnNil → after = rs).
Proof.
  split; [intros address'; apply reconcile_frame|apply reconcile_unchanged].
Qed.

(** Two calls in a row: when a call has returned without error at [now], a
    call for the same account within the hour, for no more days, asks the
    exchange only for what came since, the window [now, now2]. *)
Theorem reconcile_then_incremental (rs : ReconciliationService F) address days now now'
    tape rs' events days2 now2 now2' tape2 :
  FetchAndReconcile rs address days now now' tape = (ReturnNil, rs', events) →
  gotime.IsZero now = false →
  days2 ≤ days →
  gotime.Sub now2 now < gotime.Hour →
  ∃ later,
    (FetchAndReconcile rs' address days2 now2 now2' tape2).2
    = EvRequest address (gotime.UnixMilli now) (gotime.UnixMilli now2) :: later.
Proof.
  intros (cache' & Hcache & Hstamp & Hdays & _)%reconcile_success Hzero Hle Hage.
  destruct (reconcile_first_request rs' address days2 now2 now2' tape2) as [later ->].
  exists later.
  assert (days ≤ cachedDays cache') as Hcovers.
  { rewrite Hdays. destruct (freshCache rs address days now) as [cache|] eqn:Hfresh; simpl; [|lia].
    by eapply freshCache_days. }
  unfold freshCache, fresh. rewrite Hcache, lookup_insert_eq, Hstamp, Hzero. simpl.
  assert ((days2 <=? cachedDays cache') = true) as -> by (apply Z.leb_le; lia).
  assert ((gotime.Sub now2 now <? gotime.Hour) = true) as -> by (by apply Z.ltb_lt).
  simpl. by rewrite Hstamp.
Qed.

End Reconcile.

Section SummarySize.
Context {F : Type} {ops : Float64Ops F} {rt : GoRuntime} {laws : GoRuntimeLaws rt}.

Lemma summary_dayFacts (rs : ReconciliationService F) :
  dayFacts <$> DailyRecords (GetPnLSummary rs)
  ≡ₚ dayFacts <$> (map_to_list (dailyPnL rs)).*2.
Proof.
  change (DailyRecords (GetPnLSummary rs)) with (cumulate (sortedRecords rs)).2.
  by rewrite cumulate_dayFacts, sortedRecords_perm.
Qed.

Lemma TradeCount_dayFacts (l : list (DailyPnL F)) :
  TradeCount <$> l = (λ facts : string * nat * F, facts.1.2) <$> (dayFacts <$> l).
Proof. by rewrite <-list_fmap_compose. Qed.

Lemma summaryTrades_table (rs : ReconciliationService F) :
  summaryTrades (GetPnLSummary rs) = countedTrades (dailyPnL rs).
Proof.
  unfold summaryTrades, countedTrades. rewrite !TradeCount_dayFacts.
  apply sum_list_perm. by rewrite summary_dayFacts.
Qed.

(** The summary has one record for each date of the table and counts the
    trades the table counts; for the table of a list of trades that is the
    length of the list.  The summary of an empty table, as a new service has
    it, is no records and a total of zero. *)
Theorem summary_one_record_per_date (rs : ReconciliationService F) :
  length (DailyRecords (GetPnLSummary rs)) = size (dailyPnL rs)
  ∧ summaryTrades (GetPnLSummary rs) = countedTrades (dailyPnL rs)
  ∧ (dailyPnL rs = ∅ → GetPnLSummary rs = {| DailyRecords := []; TotalPnL := fzero |})
  ∧ GetPnLSummary (NewReconciliationService (F:=F))
    = {| DailyRecords := []; TotalPnL := fzero |}.
Proof.
  pose proof (summary_dayFacts rs) as Hfacts.
  assert (∀ rs0 : ReconciliationService F, dailyPnL rs0 = ∅ →
            GetPnLSummary rs0 = {| DailyRecords := []; TotalPnL := fzero |}) as Hempty.
  { intros rs0 Hrs0. unfold GetPnLSummary.
    pose proof (mapRange_perm _ (dailyPnL rs0)) as Hperm.
    rewrite Hrs0, map_to_list_empty in Hperm. apply Permutation_nil_r in Hperm.
    rewrite Hrs0, Hperm. simpl.
    pose proof (sortSlice_perm _ (λ a b : DailyPnL F, String.ltb (Date b) (Date a)) [])
      as Hsort.
    apply Permutation_nil_r in Hsort. by rewrite Hsort. }
  split; [|split; [|split]].
  - apply Permutation_length in Hfacts. rewrite !length_fmap in Hfacts.
    by rewrite Hfacts, length_map_to_list.
  - apply summaryTrades_table.
  - apply Hempty.
  - by apply Hempty.
Qed.

End SummarySize.

Section Total.
Context {F : Type} {ops : Float64Ops F} {exact : ExactArith F}
  {rt : GoRuntime} {laws : GoRuntimeLaws rt}.

Lemma tableTotal_insert_None (table : gmap string (DailyPnL F)) date record :
  table !! date = None →
  tableTotal (<[date := record]> table) = fadd (DailyPnL_ record) (tableTotal table).
Proof.
  intros Hm. unfold tableTotal.
  rewrite (fsum_perm _ (DailyPnL_ <$> ((date, record) :: map_to_list table).*2)).
  - apply fsum_cons.
  - by rewrite (map_to_list_insert table date record Hm).
Qed.

Lemma tableTotal_delete (table : gmap string (DailyPnL F)) date record :
  table !! date = Some record →
  tableTotal table = fadd (DailyPnL_ record) (tableTotal (delete date table)).
Proof.
  intros Hm. unfold tableTotal.
  rewrite (fsum_perm _ (DailyPnL_ <$> ((date, record) :: map_to_list (delete date table)).*2)).
  - apply fsum_cons.
  - by rewrite (map_to_list_delete table date record Hm).
Qed.

Lemma calculatePnLForDay_nil : calculatePnLForDay (F:=F) [] = fzero.
Proof.
  unfold calculatePnLForDay. simpl.
  pose proof (mapRange_perm _ (∅ : gmap string (Position F))) as Hperm.
  rewrite map_to_list_empty in Hperm. apply Permutation_nil_r in Hperm.
  by rewrite Hperm.
Qed.

(** What one more trade does to the P&L of its day. *)
Lemma calculatePnLForDay_snoc (day : list (Trade F)) (trade : Trade F) :
  fadd (calculatePnLForDay (day ++ [trade]))
       (if decide (Side trade = "B"%string) then Value trade else fzero)
  = fadd (calculatePnLForDay day)
         (if decide (Side trade = "A"%string) then Value trade else fzero).
Proof.
  apply (fadd_cancel_r _ _ (fsum (sideValues "B" day))).
  rewrite <-!fadd_assoc.
  rewrite (fadd_comm _ (fsum (sideValues "B" day))), <-sideValues_snoc.
  rewrite calculatePnLForDay_balance, sideValues_snoc.
  rewrite (fadd_comm _ (fsum (sideValues "B" day))), fadd_assoc.
  by rewrite calculatePnLForDay_balance.
Qed.

(** The table's total and what was bought make what was sold. *)
Lemma tableTotal_balance (l : list (Trade F)) :
  fadd (tableTotal (calculateDailyPnLFromTrades l)) (fsum (sideValues "B" l))
  = fsum (sideValues "A" l).
Proof.
  induction l as [|trade l IH] using rev_ind.
  - assert (calculateDailyPnLFromTrades (F:=F) [] = ∅) as ->.
    { apply map_eq. intros date. by rewrite calculateDailyPnLFromTrades_lookup, lookup_empty. }
    unfold tableTotal. rewrite map_to_list_empty. apply fadd_0_l.
  - rewrite calculateDailyPnLFromTrades_snoc, !sideValues_snoc.
    set (day := tradesOn (dateOf trade) l).
    set (b := if decide (Side trade = "B"%string) then Value trade else fzero).
    set (s := if decide (Side trade = "A"%string) then Value trade else fzero).
    pose proof (calculatePnLForDay_snoc day trade) as Hday. fold b s in Hday.
    assert (∃ rest,
              tableTotal (calculateDailyPnLFromTrades l) = fadd (calculatePnLForDay day) rest
              ∧ tableTotal (<[dateOf trade := dailyRecord (dateOf trade) (day ++ [trade])]>
                              (calculateDailyPnLFromTrades l))
                = fadd (calculatePnLForDay (day ++ [trade])) rest) as (rest & Hold & Hnew).
    { destruct (calculateDailyPnLFromTrades l !! dateOf trade) as [record|] eqn:Hlk.
      - exists (tableTotal (delete (dateOf trade) (calculateDailyPnLFromTrades l))). split.
        + rewrite (tableTotal_delete _ _ _ Hlk). f_equal.
          rewrite calculateDailyPnLFromTrades_lookup in Hlk. fold day in Hlk.
          destruct day; [done|]. by injection Hlk as <-.
        + rewrite <-insert_delete_eq.
          by rewrite tableTotal_insert_None by apply lookup_delete_eq.
      - exists (tableTotal (calculateDailyPnLFromTrades l)). split.
        + rewrite calculateDailyPnLFromTrades_lookup in Hlk. fold day in Hlk.
          destruct day; [|done]. by rewrite calculatePnLForDay_nil, fadd_0_l.
        + by rewrite tableTotal_insert_None by done. }
    rewrite Hnew. rewrite Hold in IH.
    set (P := calculatePnLForDay day) in *. set (P' := calculatePnLForDay (day ++ [trade])) in *.
    set (B := fsum (sideValues "B" l)) in *. set (S := fsum (sideValues "A" l)) in *.
    (* (P' + rest) + (B + b) = S + s, from (P + rest) + B = S and P' + b = P + s *)
    rewrite <-IH.
    rewrite (fadd_comm P' rest), (fadd_comm P rest), <-!fadd_assoc. f_equal.
    rewrite (fadd_comm B b), (fadd_assoc P' b B), Hday.
    rewrite <-!fadd_assoc. f_equal. apply fadd_comm.
Qed.

Lemma TotalPnL_tableTotal (rs : ReconciliationService F) :
  TotalPnL (GetPnLSummary rs) = tableTotal (dailyPnL rs).
Proof.
  assert (TotalPnL (GetPnLSummary rs) = fsum (DailyPnL_ <$> DailyRecords (GetPnLSummary rs)))
    as -> by (unfold fsum; by rewrite foldl_fmap).
  unfold tableTotal. apply fsum_perm. rewrite !dayFacts_daily.
  by rewrite summary_dayFacts.
Qed.

Lemma TotalPnL_of_trades (rs : ReconciliationService F) (l : list (Trade F)) :
  dailyPnL rs = calculateDailyPnLFromTrades l →
  TotalPnL (GetPnLSummary rs) = fsub (fsum (sideValues "A" l)) (fsum (sideValues "B" l)).
Proof.
  intros Htable. rewrite TotalPnL_tableTotal, Htable.
  apply fsub_unique, tableTotal_balance.
Qed.

(** The grand total of the summary, under exact arithmetic: for the table
    of a list of trades it is the value of all sales less the value of all
    purchases, however the trades fall into days. *)
Theorem total_is_sells_minus_buys (rs : ReconciliationService F) (l : list (Trade F)) :
  dailyPnL rs = calculateDailyPnLFromTrades l →
  TotalPnL (GetPnLSummary rs) = fsub (fsum (sideValues "A" l)) (fsum (sideValues "B" l))
  ∧ TotalPnL (GetPnLSummary rs) = calculatePnLForDay l.
Proof.
  intros Htable. split; [by apply TotalPnL_of_trades|].
  rewrite (TotalPnL_of_trades rs l Htable).
  symmetry. apply fsub_unique, calculatePnLForDay_balance.
Qed.

End Total.

Section IncrementalCache.
Context {F : Type} {ops : Float64Ops F} {rt : GoRuntime} {laws : GoRuntimeLaws rt}.

(** An incremental call loses no cached trade and invents none: after it
    has returned without error on a fresh cache, every key of the list cached
    before is the key of a trade cached now, and every trade cached now was
    cached before or has just been fetched. *)
Theorem incremental_keeps_cached_keys (rs : ReconciliationService F) address days now now'
    tape rs' events cache :
  freshCache rs address days now = Some cache →
  FetchAndReconcile rs address days now now' tape = (ReturnNil, rs', events) →
  ∃ cache' newTrades,
    accountCache rs' !! address = Some cache'
    ∧ (FetchTradesInRange address (lastFetchTime cache) now tape).1 = Fetched newTrades
    ∧ (∀ old, old ∈ trades cache ++ newTrades →
         ∃ kept, kept ∈ trades cache' ∧ tradeKey kept = tradeKey old)
    ∧ (∀ kept, kept ∈ trades cache' → kept ∈ trades cache ∨ kept ∈ newTrades).
Proof.
  intros Hfresh. rewrite FetchAndReconcile_branches, Hfresh.
  destruct (FetchTradesInRange address (lastFetchTime cache) now tape) as [[l|err|] ev];
    [|done..].
  intros [= <- <-]. exists (refreshCache cache l now), l.
  split; [cbn [accountCache]; apply lookup_insert_eq|]. split; [done|].
  rewrite refreshCache_trades. destruct l as [|t l].
  - split; [|by left]. intros old Hold. rewrite app_nil_r in Hold. by exists old.
  - split; [apply mergeTrades_key_kept|apply mergeTrades_from].
Qed.

End IncrementalCache.

Section AnyRuntime.
Context {F : Type} {ops : Float64Ops F}.
Context (rt1 rt2 : GoRuntime) {laws1 : GoRuntimeLaws rt1} {laws2 : GoRuntimeLaws rt2}.

Lemma tradesOn_perm (date : string) (l l' : list (Trade F)) :
  l ≡ₚ l' → tradesOn date l ≡ₚ tradesOn date l'.
Proof. intros Hperm. unfold tradesOn. by rewrite Hperm. Qed.

Lemma table_any_runtime {exact : ExactArith F} (l l' : list (Trade F)) :
  l ≡ₚ l' →
  @calculateDailyPnLFromTrades F ops rt1 l = @calculateDailyPnLFromTrades F ops rt2 l'.
Proof.
  intros Hperm. apply map_eq. intros date.
  rewrite (calculateDailyPnLFromTrades_lookup (rt:=rt1) l date).
  rewrite (calculateDailyPnLFromTrades_lookup (rt:=rt2) l' date).
  pose proof (tradesOn_perm date l l' Hperm) as Hday.
  destruct (tradesOn date l) as [|t day] eqn:H1, (tradesOn date l') as [|t' day'] eqn:H2.
  - done.
  - by apply Permutation_nil_cons in Hday.
  - symmetry in Hday. by apply Permutation_nil_cons in Hday.
  - unfold dailyRecord. f_equal. f_equal.
    + by rewrite Hday.
    + by apply (calculatePnLForDay_perm rt1 rt2).
Qed.

Lemma sortedRecords_any_runtime (rs : ReconciliationService F) :
  KeyedByDate (dailyPnL rs) →
  @sortedRecords F rt1 rs = @sortedRecords F rt2 rs.
Proof.
  intros Hkeyed.
  apply (StronglySorted_unique_strong dateAfter).
  - intros x y _ _ Hxy Hyx. unfold dateAfter in *.
    pose proof (ltb_trans _ _ _ Hxy Hyx) as Hcycle. by rewrite ltb_irrefl in Hcycle.
  - by apply (sortedRecords_strict (rt:=rt1)).
  - by apply (sortedRecords_strict (rt:=rt2)).
  - by rewrite (sortedRecords_perm (rt:=rt1)), (sortedRecords_perm (rt:=rt2)).
Qed.

Lemma mergeTrades_any_runtime (existing new : list (Trade F)) :
  @mergeTrades F rt1 existing new ≡ₚ @mergeTrades F rt2 existing new.
Proof.
  by rewrite (mergeTrades_perm (rt:=rt1)), (mergeTrades_perm (rt:=rt2)).
Qed.

(** What Go leaves open does not show in the results.  Whatever order
    [range] visits the maps in and however [sort.Slice] orders equal
    elements: [GetPnLSummary] returns the same summary for a table keyed by
    date; [mergeTrades] returns the same trades, in the same order when no
    two of them have the same timestamp; and under exact arithmetic
    [calculateDailyPnLFromTrades] builds the same table, also from the trades
    in another order. *)
Theorem results_independent_of_runtime :
  (∀ rs : ReconciliationService F,
     KeyedByDate (dailyPnL rs) → @GetPnLSummary F ops rt1 rs = @GetPnLSummary F ops rt2 rs)
  ∧ (∀ existing new : list (Trade F),
       @mergeTrades F rt1 existing new ≡ₚ @mergeTrades F rt2 existing new
       ∧ (StronglySorted timeLt (@mergeTrades F rt1 existing new) →
          @mergeTrades F rt1 existing new = @mergeTrades F rt2 existing new))
  ∧ (ExactArith F →
     ∀ l l' : list (Trade F),
       l ≡ₚ l' →
       @calculateDailyPnLFromTrades F ops rt1 l = @calculateDailyPnLFromTrades F ops rt2 l').
Proof.
  split; [|split].
  - intros rs Hkeyed.
    assert (∀ rt : GoRuntime,
              @GetPnLSummary F ops rt rs
              = let records := (cumulate (@sortedRecords F rt rs)).2 in
                {| DailyRecords := records;
                   TotalPnL := foldl (λ totalPnL record, fadd totalPnL (DailyPnL_ record))
                                 fzero records |}) as Hsum by done.
    by rewrite !Hsum, (sortedRecords_any_runtime rs Hkeyed).
  - intros existing new. split; [apply mergeTrades_any_runtime|]. intros Hlt.
    apply (StronglySorted_unique_strong timeLe).
    + intros x y Hx Hy Hxy Hyx. rewrite <-mergeTrades_any_runtime in Hy.
      apply (timeLt_same_time (@mergeTrades F rt1 existing new)); [done..|].
      unfold timeLe in *. lia.
    + apply (mergeTrades_sorted (rt:=rt1)).
    + apply (mergeTrades_sorted (rt:=rt2)).
    + apply mergeTrades_any_runtime.
  - intros exact l l'. apply table_any_runtime.
Qed.

End AnyRuntime.

(** * The handlers *)

Section AtoiFacts.

Lemma digitValue_char (x : N) : (x < 10)%N → digitValue (pretty_N_char x) = Some (Z.of_N x).
Proof.
  intros Hx. destruct x as [|p]; [done|].
  do 4 (try destruct p as [p|p|]); try reflexivity; lia.
Qed.

Lemma parseDigits_go (x : N) (s : string) :
  parseDigits 0 (pretty_N_go x s) = parseDigits (Z.of_N x) s.
Proof.
  revert s. induction (N.lt_wf_0 x) as [x _ IH]; intros s.
  assert (x = 0 ∨ 0 < x)%N as [->|Hpos] by lia; [by rewrite pretty_N_go_0|].
  rewrite pretty_N_go_step by done. rewrite IH by (by apply N.div_lt).
  simpl. rewrite digitValue_char by (by apply N.mod_lt).
  f_equal. rewrite (N.div_mod x 10) at 3 by done. lia.
Qed.

Lemma parseDigits_pretty (x : N) : parseDigits 0 (pretty x) = Some (Z.of_N x).
Proof.
  unfold pretty, pretty_N. case_decide as Hx; [by subst|].
  by rewrite parseDigits_go.
Qed.

(** The decimal rendering of a positive number starts with a digit. *)
Lemma pretty_N_go_head (x : N) (s : string) :
  (0 < x)%N → ∃ c rest, pretty_N_go x s = String c rest ∧ is_Some (digitValue c).
Proof.
  revert s. induction (N.lt_wf_0 x) as [x _ IH]; intros s Hpos.
  rewrite pretty_N_go_step by done.
  destruct (N.eq_0_gt_0_cases (x `div` 10)) as [Hz|Hdiv].
  - rewrite Hz, pretty_N_go_0. eexists _, _. split; [done|].
    rewrite digitValue_char by (by apply N.mod_lt). by eexists.
  - apply IH; [by apply N.div_lt|done].
Qed.

Lemma pretty_pos_head (p : positive) :
  ∃ c rest, pretty (N.pos p) = String c rest ∧ is_Some (digitValue c).
Proof.
  unfold pretty, pretty_N. rewrite decide_False by done. by apply pretty_N_go_head.
Qed.

Lemma Atoi_unsigned (c : ascii) (rest : string) (n : Z) :
  is_Some (digitValue c) → parseDigits 0 (String c rest) = Some n →
  minInt64 ≤ n ≤ maxInt64 →
  strconv.Atoi (String c rest) = Some n.
Proof.
  intros Hc Hparse Hn. unfold strconv.Atoi.
  assert (match String c rest with
          | String "-" r => (true, r)
          | String "+" r => (false, r)
          | _ => (false, String c rest)
          end = (false, String c rest)) as ->.
  { destruct c as [[] [] [] [] [] [] [] []]; try done; by destruct Hc. }
  rewrite Hparse.
  assert ((minInt64 <=? n) && (n <=? maxInt64) = true) as ->; [|done].
  apply andb_true_intro. split; apply Z.leb_le; lia.
Qed.

(** [Atoi] reads back the decimal rendering of every [int]. *)
Lemma Atoi_pretty (n : Z) : minInt64 ≤ n ≤ maxInt64 → strconv.Atoi (pretty n) = Some n.
Proof.
  intros Hn. destruct n as [|p|p].
  - done.
  - destruct (pretty_pos_head p) as (c & rest & Heq & Hc).
    change (pretty (Z.pos p)) with (pretty (N.pos p)). rewrite Heq.
    apply Atoi_unsigned; [done| |done]. rewrite <-Heq. apply parseDigits_pretty.
  - destruct (pretty_pos_head p) as (c & rest & Heq & Hc).
    change (pretty (Z.neg p)) with (String "-" (pretty (N.pos p))).
    unfold strconv.Atoi. rewrite Heq at 1. rewrite parseDigits_pretty.
    assert ((minInt64 <=? - Z.of_N (N.pos p)) && (- Z.of_N (N.pos p) <=? maxInt64) = true)
      as ->; [|done].
    apply andb_true_intro. split; apply Z.leb_le; lia.
Qed.

Lemma pretty_Z_nonempty (n : Z) : String.eqb (pretty n) "" = false.
Proof.
  destruct n as [|p|p]; [done| |done].
  destruct (pretty_pos_head p) as (c & rest & Heq & _).
  change (pretty (Z.pos p)) with (pretty (N.pos p)). by rewrite Heq.
Qed.

End AtoiFacts.

Section Refresh.
Context {F : Type} {ops : Float64Ops F} {rt : GoRuntime} {uni : gostrings.Unicode}.

Lemma parseDays_pretty (n : Z) :
  minInt64 ≤ n ≤ maxInt64 →
  api.parseDays (pretty n) = if n <=? 0 then None else Some n.
Proof.
  intros Hn. unfold api.parseDays. by rewrite pretty_Z_nonempty, Atoi_pretty.
Qed.

(** How [TriggerRefresh] reads its parameters.  Without an address it
    answers 400 at once.  The days parameter written in decimal is read back
    as the number it denotes: from 1 on the handler runs
    [FetchAndReconcile] for that many days and answers 200 when that returns
    without error; for zero or a negative number, as for anything [Atoi]
    refuses, it answers 400.  An absent or empty parameter stands for 10
    days.  When it answers 400 it has sent nothing to the exchange and left
    the store alone. *)
Theorem refresh_reads_parameters (rs : ReconciliationService F) (now now' : gotime.Time)
    (tape : list services.Response) :
  (∀ daysParam,
     api.TriggerRefresh rs "" daysParam now now' tape
     = (Some (api.respondWithError 400 "address parameter is required"), rs, []))
  ∧ (∀ address daysParam, address ≠ ""%string → daysParam ≠ ""%string →
       (∀ n, strconv.Atoi daysParam = Some n → n ≤ 0) →
       api.TriggerRefresh rs address daysParam now now' tape
       = (Some (api.respondWithError 400 "days parameter must be a positive integer"), rs, []))
  ∧ (∀ n, minInt64 ≤ n ≤ maxInt64 → strconv.Atoi (pretty n) = Some n)
  ∧ (∀ address daysParam days, address ≠ ""%string →
       daysParam = ""%string ∧ days = 10 ∨ daysParam = pretty days ∧ 1 ≤ days ≤ maxInt64 →
       api.TriggerRefresh rs address daysParam now now' tape
       = let '(outcome, rs', events) := FetchAndReconcile rs address days now now' tape in
         (match outcome with
          | Waiting => None
          | ReturnErr err => Some (api.errorReply err)
          | ReturnNil =>
            Some (api.respondWithJSON 200 (api.Response "success" "Data refreshed successfully"))
          end, rs', events)).
Proof.
  split; [done|]. split; [|split; [apply Atoi_pretty|]].
  - intros address daysParam Ha Hd Hbad. unfold api.TriggerRefresh, api.parseDays.
    apply String.eqb_neq in Ha, Hd. rewrite Ha, Hd.
    destruct (strconv.Atoi daysParam) as [n|]; [|done].
    assert ((n <=? 0) = true) as -> by (apply Z.leb_le; by apply Hbad). done.
  - intros address daysParam days Ha Hdays. unfold api.TriggerRefresh.
    apply String.eqb_neq in Ha. rewrite Ha.
    assert (api.parseDays daysParam = Some days) as ->.
    { destruct Hdays as [[-> ->]|[-> Hrange]]; [done|].
      rewrite parseDays_pretty by (unfold minInt64, maxInt64 in *; lia).
      assert ((days <=? 0) = false) as -> by (apply Z.leb_gt; lia). done. }
    destruct (FetchAndReconcile rs address days now now' tape) as [[outcome rs'] events].
    by destruct outcome.
Qed.

End Refresh.

Section Substrings.

Lemma isASCII_app (s t : string) :
  gostrings.isASCII (s +:+ t) = gostrings.isASCII s && gostrings.isASCII t.
Proof.
  induction s as [|c s IH]; [done|].
  change (String c s +:+ t) with (String c (s +:+ t)). simpl.
  by rewrite IH, andb_assoc.
Qed.

Lemma lowerASCII_app (s t : string) :
  gostrings.lowerASCII (s +:+ t) = gostrings.lowerASCII s +:+ gostrings.lowerASCII t.
Proof.
  induction s as [|c s IH]; [done|].
  change (String c s +:+ t) with (String c (s +:+ t)). simpl. by rewrite IH.
Qed.

Lemma prefix_app (p s t : string) :
  String.prefix p s = true → String.prefix p (s +:+ t) = true.
Proof.
  revert s. induction p as [|c p IH]; intros s Hp; [by destruct (s +:+ t)|].
  destruct s as [|c' s]; [done|].
  change (String c' s +:+ t) with (String c' (s +:+ t)). simpl in *.
  destruct (ascii_dec c c'); [by apply IH|done].
Qed.

Lemma Contains_app_l (s t substr : string) :
  gostrings.Contains s substr = true → gostrings.Contains (s +:+ t) substr = true.
Proof.
  induction s as [|c s IH]; simpl.
  - rewrite orb_false_r. intros Hp. destruct substr; [|done]. by destruct t.
  - intros [Hp|Hc]%orb_prop.
    + change (String c s +:+ t) with (String c (s +:+ t)).
      pose proof (prefix_app substr (String c s) t Hp) as Hpre.
      change (String c s +:+ t) with (String c (s +:+ t)) in Hpre.
      destruct substr; simpl in *; [done|]. by rewrite Hpre.
    + change (String c s +:+ t) with (String c (s +:+ t)). simpl.
      rewrite (IH Hc). apply orb_true_r.
Qed.

Lemma Contains_app_r (s t substr : string) :
  gostrings.Contains t substr = true → gostrings.Contains (s +:+ t) substr = true.
Proof.
  intros Ht. induction s as [|c s IH]; [done|].
  change (String c s +:+ t) with (String c (s +:+ t)). simpl.
  rewrite IH. apply orb_true_r.
Qed.

Lemma pretty_N_char_ASCII (x : N) : (nat_of_ascii (pretty_N_char x) <? 128)%nat = true.
Proof.
  destruct x as [|p]; [done|].
  do 4 (try destruct p as [p|p|]); reflexivity.
Qed.

Lemma pretty_N_go_ASCII (x : N) (s : string) :
  gostrings.isASCII (pretty_N_go x s) = gostrings.isASCII s.
Proof.
  revert s. induction (N.lt_wf_0 x) as [x _ IH]; intros s.
  destruct (N.eq_0_gt_0_cases x) as [->|Hpos]; [by rewrite pretty_N_go_0|].
  rewrite pretty_N_go_step by done. rewrite IH by (by apply N.div_lt).
  simpl. by rewrite pretty_N_char_ASCII.
Qed.

Lemma pretty_nat_ASCII (n : nat) : gostrings.isASCII (pretty n) = true.
Proof.
  unfold pretty, pretty_nat, pretty, pretty_N. case_decide; [done|].
  by rewrite pretty_N_go_ASCII.
Qed.

End Substrings.

Section ErrorReplies.
Context {F : Type} {ops : Float64Ops F} {rt : GoRuntime} {uni : gostrings.Unicode}
  {json : Json}.

Lemma reconcile_fails (rs : ReconciliationService F) address days now now'
    (pre : list (list FillResponse)) e rest :
  Forall fullBatch pre →
  ∃ events,
    FetchAndReconcile rs address days now now' ((RespFills <$> pre) ++ RespError e :: rest)
    = (ReturnErr (BatchError (S (length pre)) e), rs, events).
Proof.
  intros Hpre. rewrite FetchAndReconcile_branches.
  destruct (freshCache rs address days now) as [cache|];
    unfold FetchTrades, FetchTradesInRange; rewrite paginate_fails by done; by eexists.
Qed.

(** The text of a failure of batch [n] with HTTP status 429 has "429" in it,
    also after [strings.ToLower], when the body is ASCII. *)
Lemma status429_text (n : nat) (body : string) :
  gostrings.isASCII body = true →
  api.contains
    (errorText (BatchError n (SourceError ("API returned status " +:+ pretty 429
                                           +:+ ": " +:+ body)))) "429" = true.
Proof.
  intros Hbody. unfold api.contains, gostrings.ToLower. cbn [errorText].
  change (pretty 429) with "429"%string.
  change ("API returned status " +:+ "429" +:+ ": " +:+ body)
    with ("API returned status 429: " +:+ body).
  rewrite !isASCII_app, pretty_nat_ASCII, Hbody.
  change (gostrings.isASCII "failed to fetch batch ") with true.
  change (gostrings.isASCII ": ") with true.
  change (gostrings.isASCII "API returned status 429: ") with true.
  change (gostrings.isASCII "429") with true. cbn [andb].
  rewrite !lowerASCII_app.
  do 3 apply Contains_app_r. apply Contains_app_l. reflexivity.
Qed.

(** When [FetchAndReconcile] returns an error, [TriggerRefresh] answers with
    one of three fixed replies, 429, 504 or 500, none of which carries the
    text of the error; it answers 429 whenever that text has "429" in it; and
    the store is as it was. *)
Theorem refresh_error_reply (rs : ReconciliationService F) address daysParam days
    now now' tape e rs' events :
  address ≠ ""%string →
  api.parseDays daysParam = Some days →
  FetchAndReconcile rs address days now now' tape = (ReturnErr e, rs', events) →
  ∃ reply,
    api.TriggerRefresh rs address daysParam now now' tape = (Some reply, rs, events)
    ∧ (reply = api.respondWithError 429
                 "Rate limit exceeded. Please wait a moment before refreshing again."
       ∨ reply = api.respondWithError 504 "Request timeout. Please try again."
       ∨ reply = api.respondWithError 500 "Failed to refresh data. Please try again later.")
    ∧ (api.contains (errorText e) "429" = true →
       reply = api.respondWithError 429
                 "Rate limit exceeded. Please wait a moment before refreshing again.").
Proof.
  intros Ha Hdays Hrun.
  pose proof (reconcile_unchanged rs address days now now' tape) as Hsame.
  rewrite Hrun in Hsame. simpl in Hsame.
  assert (rs' = rs) as -> by (by apply Hsame).
  unfold api.TriggerRefresh. apply String.eqb_neq in Ha. rewrite Ha, Hdays, Hrun.
  exists (api.errorReply e). split; [done|]. unfold api.errorReply.
  destruct (api.contains (errorText e) "429"); simpl; [by split; [left|]|].
  destruct (api.contains (errorText e) "rate limit"); simpl; [by split; [left|]|].
  destruct (api.contains (errorText e) "timeout"); by split; [right; (by left) || (by right)|].
Qed.

(** From the exchange to the client: when, after any number of full
    batches, the exchange answers a request with HTTP status 429 and an ASCII
    body, [fetchBatch] fails whatever the body holds, and [TriggerRefresh]
    answers 429 "Rate limit exceeded" with the store unchanged. *)
Theorem refresh_rate_limited (rs : ReconciliationService F) address daysParam days
    now now' (pre : list (list FillResponse)) body readErr rest :
  address ≠ ""%string →
  api.parseDays daysParam = Some days →
  Forall fullBatch pre →
  gostrings.isASCII body = true →
  ∃ events,
    api.TriggerRefresh rs address daysParam now now'
      ((RespFills <$> pre) ++ fetchBatch (HttpResponse 429 body readErr) :: rest)
    = (Some (api.respondWithError 429
               "Rate limit exceeded. Please wait a moment before refreshing again."),
       rs, events).
Proof.
  intros Ha Hdays Hpre Hbody.
  change (fetchBatch (HttpResponse 429 body readErr))
    with (RespError (SourceError ("API returned status " +:+ pretty 429 +:+ ": " +:+ body))).
  destruct (reconcile_fails rs address days now now' pre
              (SourceError ("API returned status " +:+ pretty 429 +:+ ": " +:+ body)) rest Hpre)
    as [events Hrun].
  exists events. unfold api.TriggerRefresh.
  apply String.eqb_neq in Ha. rewrite Ha, Hdays, Hrun.
  unfold api.errorReply. by rewrite status429_text.
Qed.

End ErrorReplies.

Section RefreshThenSummary.
Context {F : Type} {ops : Float64Ops F} {rt : GoRuntime} {laws : GoRuntimeLaws rt}
  {uni : gostrings.Unicode}.

Lemma errorReply_status (e : error) : api.statusCode (api.errorReply (F:=F) e) ≠ 200.
Proof.
  unfold api.errorReply.
  destruct (api.contains (errorText e) "429" || api.contains (errorText e) "rate limit");
    [done|].
  by destruct (api.contains (errorText e) "timeout").
Qed.

(** A reply of 200 from [TriggerRefresh] means [FetchAndReconcile] has
    returned without error and left the store the handler returns. *)
Lemma refresh_ok (rs : ReconciliationService F) address daysParam days now now' tape
    reply rs' events :
  address ≠ ""%string →
  api.parseDays daysParam = Some days →
  api.TriggerRefresh rs address daysParam now now' tape = (Some reply, rs', events) →
  api.statusCode reply = 200 →
  FetchAndReconcile rs address days now now' tape = (ReturnNil, rs', events).
Proof.
  intros Ha Hdays. unfold api.TriggerRefresh.
  apply String.eqb_neq in Ha. rewrite Ha, Hdays.
  destruct (FetchAndReconcile rs address days now now' tape) as [[[|e|] rs0] ev].
  - by intros [= _ <- <-].
  - intros [= <- _ _] Hstatus. by apply errorReply_status in Hstatus.
  - done.
Qed.

(** Refresh, then read: when [TriggerRefresh] has answered 200, the summary
    [GetPnLSummary] serves next, with status 200, is the one of the account
    just refreshed.  It counts the trades of that account's cache that the
    call kept for the table, those at or after [now - days] on the
    incremental branch and all of them after a full fetch; and under exact
    arithmetic its total is the value of the sells among them less the value
    of the buys. *)
Theorem refresh_then_summary (rs : ReconciliationService F) address daysParam days
    now now' tape reply rs' events :
  address ≠ ""%string →
  api.parseDays daysParam = Some days →
  api.TriggerRefresh rs address daysParam now now' tape = (Some reply, rs', events) →
  api.statusCode reply = 200 →
  ∃ cache' shown,
    accountCache rs' !! address = Some cache'
    ∧ shown = match freshCache rs address days now with
              | Some _ => filterTradesByTime (trades cache') (gotime.Add now (minusDays days))
              | None => trades cache'
              end
    ∧ api.GetPnLSummary rs'
      = {| api.statusCode := 200; api.payload := api.Summary (GetPnLSummary rs') |}
    ∧ summaryTrades (GetPnLSummary rs') = length shown
    ∧ (ExactArith F →
       TotalPnL (GetPnLSummary rs')
       = fsub (fsum (sideValues "A" shown)) (fsum (sideValues "B" shown))).
Proof.
  intros Ha Hdays Hrefresh Hstatus.
  pose proof (refresh_ok _ _ _ _ _ _ _ _ _ _ Ha Hdays Hrefresh Hstatus) as Hrun.
  apply reconcile_success in Hrun as (cache' & Hcache & _ & _ & Htable).
  eexists cache', _. split; [by rewrite Hcache, lookup_insert_eq|]. split; [done|].
  split; [done|]. split.
  - by rewrite summaryTrades_table, Htable, countedTrades_table.
  - intros exact. by apply TotalPnL_of_trades.
Qed.

End RefreshThenSummary.

(** * The further statements at concrete inputs *)

Lemma backwardRuntime_laws : GoRuntimeLaws backwardRuntime.
Proof.
  split.
  - intros V m. apply reverse_Permutation.
  - intros T less l. apply (merge_sort_Permutation (λ a b, less b a = false)).
  - apply refSort_sorted.
Qed.

Section MoreWitnesses.
Import Instances MoreInstances.
#[local] Existing Instance Z_ops.
#[local] Existing Instance utcRuntime.

Lemma fetchRange_failure_numbered_witness :
  Forall fullBatch [fullPage]
  ∧ FetchTradesInRange (F:=Z) "0xabc" start end_ pageThenRefusal
    = (FetchFailed (BatchError 2 (SourceError "API returned status 429")),
       pacedRequests "0xabc" (gotime.UnixMilli end_)
         (gotime.UnixMilli start :: nextCursors [fullPage])).
Proof.
  assert (Forall fullBatch [fullPage]) as Hpre.
  { constructor; [|constructor]. unfold fullBatch, fullPage. by rewrite length_replicate. }
  split; [exact Hpre|].
  exact (fetchRange_failure_numbered (F:=Z) "0xabc" start end_ [fullPage]
           (SourceError "API returned status 429") [] Hpre).
Defined.

Lemma tradeKey_identifies_witness :
  (hasUnderscore (Coin sold) = false ∧ hasUnderscore (Coin soldAgain) = false)
  ∧ (tradeKey sold = tradeKey soldAgain ↔ identity sold = identity soldAgain).
Proof.
  assert (hasUnderscore (Coin sold) = false) as H1 by reflexivity.
  assert (hasUnderscore (Coin soldAgain) = false) as H2 by reflexivity.
  split; [by split|].
  exact (tradeKey_identifies sold soldAgain H1 H2).
Defined.

Lemma merge_last_wins_witness :
  GoRuntimeLaws utcRuntime
  ∧ ((∀ trade, trade ∈ mergeTrades [bought; sold] [soldAgain]
               ↔ lastWithKey (tradeKey trade) ([bought; sold] ++ [soldAgain]) = Some trade)
     ∧ (∀ trade, trade ∈ mergeTrades [bought; sold] [soldAgain] →
          trade ∈ [bought; sold] ∨ trade ∈ [soldAgain])
     ∧ (∀ old trade, old ∈ mergeTrades [bought; sold] [soldAgain] → trade ∈ [soldAgain] →
          tradeKey old = tradeKey trade → old ∈ [soldAgain])
     ∧ (∀ trade, trade ∈ [bought; sold] ++ [soldAgain] →
          ∃ kept, kept ∈ mergeTrades [bought; sold] [soldAgain]
                  ∧ tradeKey kept = tradeKey trade)).
Proof.
  split; [exact (refRuntime_laws 0)|].
  exact (merge_last_wins (laws:=refRuntime_laws 0) [bought; sold] [soldAgain]).
Defined.

Lemma merge_one_per_identity_witness :
  (GoRuntimeLaws utcRuntime
   ∧ ∀ trade, trade ∈ [bought; sold] ++ [soldAgain] → hasUnderscore (Coin trade) = false)
  ∧ (NoDup (identity <$> mergeTrades [bought; sold] [soldAgain])
     ∧ (∀ i, i ∈ identity <$> mergeTrades [bought; sold] [soldAgain]
             ↔ i ∈ identity <$> ([bought; sold] ++ [soldAgain]))).
Proof.
  assert (∀ trade, trade ∈ [bought; sold] ++ [soldAgain] → hasUnderscore (Coin trade) = false)
    as Hcoins.
  { intros trade Hin. simpl in Hin.
    repeat (apply elem_of_cons in Hin as [->|Hin]; [reflexivity|]).
    by apply elem_of_nil in Hin. }
  split; [by split; [exact (refRuntime_laws 0)|]|].
  exact (merge_one_per_identity (laws:=refRuntime_laws 0) [bought; sold] [soldAgain] Hcoins).
Defined.

Lemma merge_absorbs_refetch_witness :
  GoRuntimeLaws utcRuntime
  ∧ (let merged := mergeTrades [bought] [sold] in
     mergeTrades merged [sold] ≡ₚ merged
     ∧ (∀ again, (∀ trade, trade ∈ again → trade ∈ merged) →
                 mergeTrades merged again ≡ₚ merged)
     ∧ (StronglySorted timeLt merged → mergeTrades merged [sold] = merged)).
Proof.
  split; [exact (refRuntime_laws 0)|].
  exact (merge_absorbs_refetch (laws:=refRuntime_laws 0) [bought] [sold]).
Defined.

Lemma dayPnL_sells_minus_buys_witness :
  (ExactArith Z ∧ GoRuntimeLaws utcRuntime)
  ∧ (calculatePnLForDay [bought; sold; settled]
     = fsub (fsum (sideValues "A" [bought; sold; settled]))
            (fsum (sideValues "B" [bought; sold; settled]))
     ∧ fadd (calculatePnLForDay [bought; sold; settled])
            (fsum (sideValues "B" [bought; sold; settled]))
       = fsum (sideValues "A" [bought; sold; settled])).
Proof.
  split; [split; [exact Z_exact|exact (refRuntime_laws 0)]|].
  exact (dayPnL_sells_minus_buys (exact:=Z_exact) (laws:=refRuntime_laws 0)
           [bought; sold; settled]).
Defined.

Lemma daily_counts_every_trade_witness :
  GoRuntimeLaws utcRuntime
  ∧ (let table := calculateDailyPnLFromTrades [bought; sold; settled] in
     countedTrades table = length [bought; sold; settled]
     ∧ (∀ date record, table !! date = Some record → (1 ≤ TradeCount record)%nat)
     ∧ dom table = list_to_set (dateOf <$> [bought; sold; settled])
     ∧ (table = ∅ ↔ [bought; sold; settled] = [])).
Proof.
  split; [exact (refRuntime_laws 0)|].
  exact (daily_counts_every_trade (laws:=refRuntime_laws 0) [bought; sold; settled]).
Defined.

Lemma reconcile_table_from_cache_witness :
  FetchAndReconcile someStore "0xabc" 7 halfPast halfPast oneNew
  = (ReturnNil, storeAfter, [EvRequest "0xabc" 1735725600000 1735727400000])
  ∧ ∃ cache',
      accountCache storeAfter !! "0xabc" = Some cache'
      ∧ lastFetchTime cache' = halfPast
      ∧ 7 ≤ cachedDays cache'
      ∧ cachedDays cache' = from_option cachedDays 7 (freshCache someStore "0xabc" 7 halfPast)
      ∧ dailyPnL storeAfter
        = calculateDailyPnLFromTrades
            match freshCache someStore "0xabc" 7 halfPast with
            | Some _ => filterTradesByTime (trades cache') (gotime.Add halfPast (minusDays 7))
            | None => trades cache'
            end.
Proof.
  assert (FetchAndReconcile someStore "0xabc" 7 halfPast halfPast oneNew
          = (ReturnNil, storeAfter, [EvRequest "0xabc" 1735725600000 1735727400000]))
    as Hrun by (vm_compute; reflexivity).
  split; [exact Hrun|].
  exact (reconcile_table_from_cache someStore "0xabc" 7 halfPast halfPast oneNew
           storeAfter _ Hrun).
Defined.

Lemma reconcile_then_incremental_witness :
  (FetchAndReconcile someStore "0xabc" 7 halfPast halfPast oneNew
   = (ReturnNil, storeAfter, [EvRequest "0xabc" 1735725600000 1735727400000])
   ∧ gotime.IsZero halfPast = false
   ∧ 1 ≤ 7
   ∧ gotime.Sub end_ halfPast < gotime.Hour)
  ∧ ∃ later,
      (FetchAndReconcile storeAfter "0xabc" 1 end_ end_ []).2
      = EvRequest "0xabc" (gotime.UnixMilli halfPast) (gotime.UnixMilli end_) :: later.
Proof.
  assert (FetchAndReconcile someStore "0xabc" 7 halfPast halfPast oneNew
          = (ReturnNil, storeAfter, [EvRequest "0xabc" 1735725600000 1735727400000]))
    as Hrun by (vm_compute; reflexivity).
  assert (gotime.IsZero halfPast = false) as Hzero by reflexivity.
  assert (1 ≤ 7) as Hdays by lia.
  assert (gotime.Sub end_ halfPast < gotime.Hour) as Hage by (vm_compute; reflexivity).
  split; [by repeat split|].
  exact (reconcile_then_incremental someStore "0xabc" 7 halfPast halfPast oneNew
           storeAfter _ 1 end_ end_ [] Hrun Hzero Hdays Hage).
Defined.

Lemma summary_one_record_per_date_witness :
  GoRuntimeLaws utcRuntime
  ∧ (length (DailyRecords (GetPnLSummary threeTrades)) = size (dailyPnL threeTrades)
     ∧ summaryTrades (GetPnLSummary threeTrades) = countedTrades (dailyPnL threeTrades)
     ∧ (dailyPnL threeTrades = ∅ →
        GetPnLSummary threeTrades = {| DailyRecords := []; TotalPnL := fzero |})
     ∧ GetPnLSummary (NewReconciliationService (F:=Z))
       = {| DailyRecords := []; TotalPnL := fzero |}).
Proof.
  split; [exact (refRuntime_laws 0)|].
  exact (summary_one_record_per_date (laws:=refRuntime_laws 0) threeTrades).
Defined.

Lemma total_is_sells_minus_buys_witness :
  (ExactArith Z ∧ GoRuntimeLaws utcRuntime
   ∧ dailyPnL threeTrades = calculateDailyPnLFromTrades [bought; sold; settled])
  ∧ (TotalPnL (GetPnLSummary threeTrades)
     = fsub (fsum (sideValues "A" [bought; sold; settled]))
            (fsum (sideValues "B" [bought; sold; settled]))
     ∧ TotalPnL (GetPnLSummary threeTrades) = calculatePnLForDay [bought; sold; settled]).
Proof.
  assert (dailyPnL threeTrades = calculateDailyPnLFromTrades [bought; sold; settled])
    as Htable by reflexivity.
  split; [split; [exact Z_exact|split; [exact (refRuntime_laws 0)|exact Htable]]|].
  exact (total_is_sells_minus_buys (exact:=Z_exact) (laws:=refRuntime_laws 0)
           threeTrades [bought; sold; settled] Htable).
Defined.

Lemma fetchRange_complete_witness :
  (timesIncrease busyBook
   ∧ Forall (λ fill, minInt64 ≤ fillTime fill < maxInt64) busyBook
   ∧ (length busyBook < 2002)%nat)
  ∧ (let startTime := gotime.UnixMilli start in
     let endTime := gotime.UnixMilli end_ in
     ∃ cursors,
       FetchTradesInRange (F:=Z) "0xabc" start end_
         (exchangeTape 2002 busyBook startTime endTime)
       = (Fetched (convertFills [] (filter (inWindow startTime endTime) busyBook)),
          pacedRequests "0xabc" endTime (startTime :: cursors))
       ∧ exchangeTape 2002 busyBook startTime endTime
         = (λ c, RespFills (exchangeAnswer busyBook c endTime)) <$> (startTime :: cursors)).
Proof.
  assert (timesIncrease busyBook) as Hinc.
  { apply (bool_decide_unpack _). vm_compute. exact I. }
  assert (Forall (λ fill, minInt64 ≤ fillTime fill < maxInt64) busyBook) as Hrange.
  { apply (bool_decide_unpack _). vm_compute. exact I. }
  assert (length busyBook < 2002)%nat as Hlen.
  { apply (bool_decide_unpack _). vm_compute. exact I. }
  split; [by repeat split|].
  exact (fetchRange_complete (F:=Z) "0xabc" start end_ busyBook 2002 Hinc Hrange Hlen).
Defined.

Lemma refresh_error_reply_witness :
  ("0xabc"%string ≠ ""%string
   ∧ api.parseDays "7" = Some 7
   ∧ FetchAndReconcile someStore "0xabc" 7 halfPast halfPast refusal
     = (ReturnErr refused, someStore, [EvRequest "0xabc" 1735725600000 1735727400000]))
  ∧ ∃ reply,
      api.TriggerRefresh (uni:=asciiOnly) someStore "0xabc" "7" halfPast halfPast refusal
      = (Some reply, someStore, [EvRequest "0xabc" 1735725600000 1735727400000])
      ∧ (reply = api.respondWithError 429
                   "Rate limit exceeded. Please wait a moment before refreshing again."
         ∨ reply = api.respondWithError 504 "Request timeout. Please try again."
         ∨ reply = api.respondWithError 500 "Failed to refresh data. Please try again later.")
      ∧ (api.contains (uni:=asciiOnly) (errorText refused) "429" = true →
         reply = api.respondWithError 429
                   "Rate limit exceeded. Please wait a moment before refreshing again.").
Proof.
  assert ("0xabc"%string ≠ ""%string) as Ha by done.
  assert (api.parseDays "7" = Some 7) as Hdays by reflexivity.
  assert (FetchAndReconcile someStore "0xabc" 7 halfPast halfPast refusal
          = (ReturnErr refused, someStore, [EvRequest "0xabc" 1735725600000 1735727400000]))
    as Hrun by (vm_compute; reflexivity).
  split; [by repeat split|].
  exact (refresh_error_reply (uni:=asciiOnly) someStore "0xabc" "7" 7 halfPast halfPast
           refusal refused someStore _ Ha Hdays Hrun).
Defined.

Lemma refresh_rate_limited_witness :
  ("0xabc"%string ≠ ""%string
   ∧ api.parseDays "7" = Some 7
   ∧ Forall fullBatch [fullPage]
   ∧ gostrings.isASCII "Too Many Requests" = true)
  ∧ ∃ events,
      api.TriggerRefresh (uni:=asciiOnly) someStore "0xabc" "7" halfPast halfPast
        ((RespFills <$> [fullPage])
           ++ fetchBatch (json:=noJson) (HttpResponse 429 "Too Many Requests" None) :: [])
      = (Some (api.respondWithError 429
                 "Rate limit exceeded. Please wait a moment before refreshing again."),
         someStore, events).
Proof.
  assert ("0xabc"%string ≠ ""%string) as Ha by done.
  assert (api.parseDays "7" = Some 7) as Hdays by reflexivity.
  assert (Forall fullBatch [fullPage]) as Hpre.
  { constructor; [|constructor]. unfold fullBatch, fullPage. by rewrite length_replicate. }
  assert (gostrings.isASCII "Too Many Requests" = true) as Hbody by reflexivity.
  split; [by repeat split|].
  exact (refresh_rate_limited (uni:=asciiOnly) (json:=noJson) someStore "0xabc" "7" 7
           halfPast halfPast [fullPage] "Too Many Requests" None [] Ha Hdays Hpre Hbody).
Defined.

Lemma incremental_keeps_cached_keys_witness :
  (GoRuntimeLaws utcRuntime
   ∧ freshCache someStore "0xabc" 7 halfPast
     = Some {| trades := [trade 1735725000 "BTC" "B" 50000 1];
               lastFetchTime := start; cachedDays := 7 |}
   ∧ FetchAndReconcile someStore "0xabc" 7 halfPast halfPast oneNew
     = (ReturnNil, storeAfter, [EvRequest "0xabc" 1735725600000 1735727400000]))
  ∧ ∃ cache' newTrades,
      accountCache storeAfter !! "0xabc" = Some cache'
      ∧ (FetchTradesInRange "0xabc" start halfPast oneNew).1 = Fetched newTrades
      ∧ (∀ old, old ∈ [trade 1735725000 "BTC" "B" 50000 1] ++ newTrades →
           ∃ kept, kept ∈ trades cache' ∧ tradeKey kept = tradeKey old)
      ∧ (∀ kept, kept ∈ trades cache' →
           kept ∈ [trade 1735725000 "BTC" "B" 50000 1] ∨ kept ∈ newTrades).
Proof.
  assert (freshCache someStore "0xabc" 7 halfPast
          = Some {| trades := [trade 1735725000 "BTC" "B" 50000 1];
                    lastFetchTime := start; cachedDays := 7 |}) as Hfresh
    by (vm_compute; reflexivity).
  assert (FetchAndReconcile someStore "0xabc" 7 halfPast halfPast oneNew
          = (ReturnNil, storeAfter, [EvRequest "0xabc" 1735725600000 1735727400000]))
    as Hrun by (vm_compute; reflexivity).
  split; [split; [exact (refRuntime_laws 0)|by split]|].
  exact (incremental_keeps_cached_keys (laws:=refRuntime_laws 0) someStore "0xabc" 7
           halfPast halfPast oneNew storeAfter _ _ Hfresh Hrun).
Defined.

Lemma results_independent_of_runtime_witness :
  (GoRuntimeLaws utcRuntime ∧ GoRuntimeLaws backwardRuntime)
  ∧ ((∀ rs : ReconciliationService Z,
        KeyedByDate (dailyPnL rs) →
        @GetPnLSummary Z Z_ops utcRuntime rs = @GetPnLSummary Z Z_ops backwardRuntime rs)
     ∧ (∀ existing new : list (Trade Z),
          @mergeTrades Z utcRuntime existing new ≡ₚ @mergeTrades Z backwardRuntime existing new
          ∧ (StronglySorted timeLt (@mergeTrades Z utcRuntime existing new) →
             @mergeTrades Z utcRuntime existing new
             = @mergeTrades Z backwardRuntime existing new))
     ∧ (ExactArith Z →
        ∀ l l' : list (Trade Z),
          l ≡ₚ l' →
          @calculateDailyPnLFromTrades Z Z_ops utcRuntime l
          = @calculateDailyPnLFromTrades Z Z_ops backwardRuntime l')).
Proof.
  split; [split; [exact (refRuntime_laws 0)|exact backwardRuntime_laws]|].
  exact (results_independent_of_runtime (F:=Z) utcRuntime backwardRuntime
           (laws1:=refRuntime_laws 0) (laws2:=backwardRuntime_laws)).
Defined.

Lemma refresh_then_summary_witness :
  (GoRuntimeLaws utcRuntime
   ∧ "0xabc"%string ≠ ""%string
   ∧ api.parseDays "7" = Some 7
   ∧ api.TriggerRefresh (uni:=asciiOnly) someStore "0xabc" "7" halfPast halfPast oneNew
     = (Some (api.respondWithJSON 200 (api.Response "success" "Data refreshed successfully")),
        storeAfter, [EvRequest "0xabc" 1735725600000 1735727400000])
   ∧ api.statusCode
       (api.respondWithJSON (F:=Z) 200 (api.Response "success" "Data refreshed successfully"))
     = 200)
  ∧ ∃ cache' shown,
      accountCache storeAfter !! "0xabc" = Some cache'
      ∧ shown = match freshCache someStore "0xabc" 7 halfPast with
                | Some _ =>
                  filterTradesByTime (trades cache') (gotime.Add halfPast (minusDays 7))
                | None => trades cache'
                end
      ∧ api.GetPnLSummary storeAfter
        = {| api.statusCode := 200; api.payload := api.Summary (GetPnLSummary storeAfter) |}
      ∧ summaryTrades (GetPnLSummary storeAfter) = length shown
      ∧ (ExactArith Z →
         TotalPnL (GetPnLSummary storeAfter)
         = fsub (fsum (sideValues "A" shown)) (fsum (sideValues "B" shown))).
Proof.
  assert ("0xabc"%string ≠ ""%string) as Ha by done.
  assert (api.parseDays "7" = Some 7) as Hdays by reflexivity.
  assert (api.TriggerRefresh (uni:=asciiOnly) someStore "0xabc" "7" halfPast halfPast oneNew
          = (Some (api.respondWithJSON 200
                     (api.Response "success" "Data refreshed successfully")),
             storeAfter, [EvRequest "0xabc" 1735725600000 1735727400000])) as Hrefresh
    by (vm_compute; reflexivity).
  assert (api.statusCode
            (api.respondWithJSON (F:=Z) 200
               (api.Response "success" "Data refreshed successfully")) = 200)
    as Hstatus by reflexivity.
  split; [split; [exact (refRuntime_laws 0)|by repeat split]|].
  exact (refresh_then_summary (laws:=refRuntime_laws 0) (uni:=asciiOnly) someStore "0xabc" "7" 7
           halfPast halfPast oneNew _ storeAfter _ Ha Hdays Hrefresh Hstatus).
Defined.

End MoreWitnesses.
